(** * The repository puller of syncthing (model/puller.go)

    A shallow embedding of [src/model/puller.go].  The puller is a single
    reconciler task that owns two tables (the activity map and the open-file
    table) and talks to the local file system, to the model and to an
    optional versioner.  The tables are finite maps, the handlers are
    programs in a small state monad over the puller, and everything outside
    the reconciler (the operating system, the clock, the peers) is an
    environment that the handlers call and that is free to fail. *)

From Stdlib Require Import ZArith Lia.
From Stdlib Require Strings.Byte.
From stdpp Require Import gmap strings list fin_maps sorting.

Local Open Scope Z_scope.
#[local] Set Warnings "-clear-no-such-hyp".

(** ** Machine integers

    Go's [int] is taken at 64 bits, [uint64] bitmaps likewise; both are
    integers of [Z] whose arithmetic wraps around. *)

Definition wrap_int (z : Z) : Z := (z + 2 ^ 63) mod 2 ^ 64 - 2 ^ 63.
Definition wrap_u64 (z : Z) : Z := z mod 2 ^ 64.

(** [x++] and [x--] on an [int]. *)
Definition int_incr (z : Z) : Z := wrap_int (z + 1).
Definition int_decr (z : Z) : Z := wrap_int (z - 1).

(** ** Errors

    The error values the puller can observe.  [errNoNode] is the puller's
    own; the others stand for what [os] and the transport return.
    [os.IsNotExist] recognises [ENOENT]. *)

Inductive error : Set :=
  | ENOENT | EEXIST | ENOTDIR | EISDIR | ENOTEMPTY | EINVAL | EIO | EOF
  | ErrInvalid
  | errNoNode
  | ErrNetwork
  | ErrVersioner.

Global Instance error_eq_dec : EqDecision error.
Proof. solve_decision. Defined.

Global Instance byte_eq_dec : EqDecision Byte.byte := Strings.Byte.byte_eq_dec.

Definition IsNotExist (e : error) : bool :=
  match e with ENOENT => true | _ => false end.

(** ** Paths, files of the model, queue items

    A path is the list of its components; names of the model are paths
    relative to the repository directory, which is the root [[]] of the
    modelled tree, so [filepath.Join p.repoCfg.Directory n] is [n],
    [filepath.Rel p.repoCfg.Directory q] is [q] and the relative name ["."]
    is [[]]. *)

Abbreviation path := (list string).

Definition Dir (p : path) : path := removelast p.
Definition Base (p : path) : string := List.last p "."%string.

Record Block : Set := mkBlock {
  Offset : Z;
  Size : Z;
  Hash : list Byte.byte }.

Record File : Set := mkFile {
  Name : path;
  Flags : Z;
  Modified : Z;
  Blocks : list Block }.

(** The zero value of [scanner.File], what a lookup miss returns. *)
Definition zeroFile : File := mkFile [] 0 0 [].

Record bqBlock : Set := mkBq {
  bq_file : File;
  bq_block : Block;
  bq_copy : list Block;
  bq_last : bool }.

Record requestResult : Set := mkResult {
  rr_node : string;
  rr_file : File;
  rr_filepath : path;
  rr_offset : Z;
  rr_data : list Byte.byte;
  rr_err : option error }.

(** [of_file] is the [*os.File]: [None] is the nil handle, [Some q] an open
    handle on the file at path [q]. *)
Record openFile : Set := mkOpenFile {
  of_filepath : path;
  of_temp : path;
  of_availability : Z;
  of_file : option path;
  of_err : option error;
  of_outstanding : Z;
  of_done : bool }.

Definition zeroOpenFile : openFile := mkOpenFile [] [] 0 None None 0 false.

(** ** The file system

    A finite map from paths to inodes.  A directory is an inode with
    [i_dir]; its entries are the paths that extend it.  There are no links,
    [i_mode] holds the nine permission bits and does not restrict what the
    puller itself may do, and an open file is known by its path.  The
    operations below say what [os] does to the tree when the operating
    system lets the call through; that it may also refuse any call is part
    of the environment further down.

    Three things are simpler here than on a real system: a file or
    directory is created with the mode the call names (there is no
    umask); a modification time is stored as it is given (see
    [chtimes_exact]); and a call that fails leaves the tree as it was (a
    write does not fail half-way). *)

Record inode : Set := mkInode {
  i_dir : bool;
  i_mode : Z;
  i_mtime : Z;
  i_data : list Byte.byte }.

Definition ModePerm : Z := 0x1ff.
Definition ModeDir : Z := 2 ^ 31.

(** [info.Mode()], [info.ModTime().Unix()] and [info.IsDir()] of the
    [os.FileInfo] of an inode. *)
Definition Mode (i : inode) : Z :=
  if i_dir i then Z.lor ModeDir (i_mode i) else i_mode i.
Definition ModTime (i : inode) : Z := i_mtime i.
Definition IsDir (i : inode) : bool := i_dir i.

Definition set_mode (m : Z) (i : inode) : inode :=
  mkInode (i_dir i) m (i_mtime i) (i_data i).
Definition set_mtime (t : Z) (i : inode) : inode :=
  mkInode (i_dir i) (i_mode i) t (i_data i).
Definition set_data (t : Z) (d : list Byte.byte) (i : inode) : inode :=
  mkInode (i_dir i) (i_mode i) t d.

Definition is_dir_at (p : path) (fs : gmap path inode) : bool :=
  match fs !! p with Some i => i_dir i | None => false end.

(** Writing an entry into a directory or taking one out moves the
    directory's modification time. *)
Definition touch (now : Z) (p : path) (fs : gmap path inode) : gmap path inode :=
  alter (set_mtime now) p fs.

Definition below (p q : path) : bool := bool_decide (p ≠ q ∧ p `prefix_of` q).

Definition has_entries (p : path) (fs : gmap path inode) : bool :=
  existsb (λ kv, below p kv.1) (map_to_list fs).

Definition fs_stat (p : path) (fs : gmap path inode) : error + inode :=
  match fs !! p with Some i => inr i | None => inl ENOENT end.

Definition fs_create (p : path) (now : Z) (fs : gmap path inode)
  : error + gmap path inode :=
  match fs !! p with
  | Some i =>
      if i_dir i then inl EISDIR else inr (<[p := set_data now [] i]> fs)
  | None =>
      match fs !! Dir p with
      | Some d =>
          if i_dir d
          then inr (<[p := mkInode false 0x1b6 now []]> (touch now (Dir p) fs))
          else inl ENOTDIR
      | None => inl ENOENT
      end
  end.

Definition fs_open (p : path) (fs : gmap path inode) : error + unit :=
  match fs !! p with Some _ => inr tt | None => inl ENOENT end.

Definition fs_remove (p : path) (now : Z) (fs : gmap path inode)
  : error + gmap path inode :=
  match fs !! p with
  | None => inl ENOENT
  | Some i =>
      if i_dir i && has_entries p fs then inl ENOTEMPTY
      else inr (touch now (Dir p) (delete p fs))
  end.

Definition fs_chmod (p : path) (m : Z) (now : Z) (fs : gmap path inode)
  : error + gmap path inode :=
  match fs !! p with
  | None => inl ENOENT
  | Some i => inr (<[p := set_mode (Z.land m ModePerm) i]> fs)
  end.

Definition fs_chtimes (p : path) (t : Z) (now : Z) (fs : gmap path inode)
  : error + gmap path inode :=
  match fs !! p with
  | None => inl ENOENT
  | Some i => inr (<[p := set_mtime t i]> fs)
  end.

(** The second [t] of [time.Unix(t, 0)] does not reach the system as it
    is: [os.Chtimes] takes [Time.UnixNano] of it, a 64-bit count of
    nanoseconds, and cuts that back into seconds.  [chtimes_exact t] says
    that the count does not wrap around, so that the second arrives
    unchanged; [fs_chtimes] above, which stores [t] itself on a file system
    that keeps whole seconds, describes the call for such [t].  What is
    said below about a modification time after [os.Chtimes] is said for
    these. *)
Definition UnixNano (t : Z) : Z := wrap_int (t * 1000000000).
Definition chtimes_seconds (t : Z) : Z := UnixNano t `div` 1000000000.
Definition chtimes_exact (t : Z) : Prop := UnixNano t = t * 1000000000.

(** The bytes of [old] with [data] written at offset [off]; a hole is
    filled with zero bytes. *)
Definition write_at (old data : list Byte.byte) (off : nat) : list Byte.byte :=
  take off (old ++ replicate (off - length old)%nat Byte.x00)
    ++ data ++ drop (off + length data)%nat old.

Definition fs_writeAt (p : path) (data : list Byte.byte) (off : Z) (now : Z)
    (fs : gmap path inode) : error + gmap path inode :=
  if off <? 0 then inl EINVAL else
  match fs !! p with
  | None => inl ENOENT
  | Some i =>
      if i_dir i then inl EISDIR
      else inr (<[p := set_data now (write_at (i_data i) data (Z.to_nat off)) i]> fs)
  end.

(** [ReadAt] into a buffer of [n] bytes: a short read is [io.EOF]. *)
Definition fs_readAt (p : path) (n off : Z) (fs : gmap path inode)
  : error + list Byte.byte :=
  if off <? 0 then inl EINVAL else
  match fs !! p with
  | None => inl ENOENT
  | Some i =>
      if i_dir i then inl EISDIR else
      let bs := take (Z.to_nat n) (drop (Z.to_nat off) (i_data i)) in
      if (length bs <? Z.to_nat n)%nat then inl EOF else inr bs
  end.

(** Moving the directory at [a], with everything below it, to [b]. *)
Definition move_tree (a b : path) (now : Z) (fs : gmap path inode)
  : gmap path inode :=
  let moved := filter (λ kv, a `prefix_of` kv.1) fs in
  let rest := filter (λ kv, ¬ a `prefix_of` kv.1) fs in
  touch now (Dir b) (touch now (Dir a)
    (list_to_map
       (map (λ kv, (b ++ drop (length a) kv.1, kv.2)) (map_to_list moved))
     ∪ rest)).

(** [rename]: a file replaces a file; a directory moves with everything
    below it and replaces only an empty directory. *)
Definition fs_rename (a b : path) (now : Z) (fs : gmap path inode)
  : error + gmap path inode :=
  match fs !! a with
  | None => inl ENOENT
  | Some i =>
      if bool_decide (a = b) then inr fs else
      if negb (is_dir_at (Dir b) fs) then inl ENOENT else
      if i_dir i then
        if below a b then inl EINVAL else
        match fs !! b with
        | Some j =>
            if negb (i_dir j) then inl ENOTDIR
            else if has_entries b fs then inl ENOTEMPTY
            else inr (move_tree a b now fs)
        | None => inr (move_tree a b now fs)
        end
      else
        match fs !! b with
        | Some j =>
            if i_dir j then inl EISDIR
            else inr (touch now (Dir a) (<[b := i]> (delete a fs)))
        | None =>
            inr (touch now (Dir b) (touch now (Dir a) (<[b := i]> (delete a fs))))
        end
  end.

(** [MkdirAll]: walk down from the root and create every directory that is
    missing on the way. *)
Fixpoint mkdirAll_from (pre rest : path) (m : Z) (now : Z)
    (fs : gmap path inode) : error + gmap path inode :=
  match rest with
  | [] => inr fs
  | c :: rest' =>
      let q := pre ++ [c] in
      match fs !! q with
      | Some i =>
          if i_dir i then mkdirAll_from q rest' m now fs else inl ENOTDIR
      | None =>
          if is_dir_at pre fs
          then mkdirAll_from q rest' m now
                 (<[q := mkInode true (Z.land m ModePerm) now []]> (touch now pre fs))
          else inl ENOENT
      end
  end.

Definition fs_mkdirAll (p : path) (m : Z) (now : Z) (fs : gmap path inode)
  : error + gmap path inode :=
  match fs !! p with
  | Some i => if i_dir i then inr fs else inl ENOTDIR
  | None =>
      match fs !! [] with
      | Some _ => mkdirAll_from [] p m now fs
      | None =>
          mkdirAll_from [] p m now
            (<[[] := mkInode true (Z.land m ModePerm) now []]> fs)
      end
  end.

(** ** The environment

    Every call that leaves the reconciler is recorded, with its result, in
    the order in which it is made. *)

Inductive call : Set :=
  | CStat (p : path)
  | CMkdirAll (p : path) (m : Z)
  | CCreate (p : path)
  | COpen (p : path)
  | CClose (h : option path)
  | CReadAt (p : path) (n off : Z)
  | CWriteAt (p : path) (data : list Byte.byte) (off : Z)
  | CRemove (p : path)
  | CChmod (p : path) (m : Z)
  | CChtimes (p : path) (t : Z)
  | CRename (a b : path)
  | CHideFile (p : path)
  | CShowFile (p : path)
  | CBlocks (p : path) (hb : list Block)
  | CArchive (p : path)
  | CUpdateLocal (f : File)
  | CRequestGlobal (node : string) (name : path) (off size : Z)
  | CCloseFile (name : path).

Abbreviation event := (call * option error)%type.

(** What the operating system decides on its own at one call: whether the
    call fails for a reason that has nothing to do with the tree (a fault,
    reported as [EIO]), and what time it is.  The properties below hold for
    every oracle, that is for every pattern of such failures and every
    clock. *)
Record verdict : Set := mkVerdict {
  v_fail : bool;
  v_now : Z }.

(** [local] is the model's list of local files ([CurrentRepoFile] reads it,
    [updateLocal] writes it); [oracle] answers the [tick]-th call. *)
Record world : Type := mkWorld {
  fs : gmap path inode;
  local : gmap path File;
  tick : nat;
  oracle : nat → verdict;
  log : list event }.

(** A call that changes the tree: it fails with [EIO] when the oracle says
    so and otherwise does what [sem] does on the tree. *)
Definition sys (c : call) (sem : Z → gmap path inode → error + gmap path inode)
    (w : world) : option error * world :=
  let v := oracle w (tick w) in
  if v_fail v then
    (Some EIO, mkWorld (fs w) (local w) (S (tick w)) (oracle w) (log w ++ [(c, Some EIO)]))
  else
    match sem (v_now v) (fs w) with
    | inl e =>
        (Some e, mkWorld (fs w) (local w) (S (tick w)) (oracle w) (log w ++ [(c, Some e)]))
    | inr fs' =>
        (None, mkWorld fs' (local w) (S (tick w)) (oracle w) (log w ++ [(c, None)]))
    end.

(** A call that only reads the tree. *)
Definition ask {A : Type} (c : call) (sem : gmap path inode → error + A)
    (w : world) : (error + A) * world :=
  let v := oracle w (tick w) in
  if v_fail v then
    (inl EIO, mkWorld (fs w) (local w) (S (tick w)) (oracle w) (log w ++ [(c, Some EIO)]))
  else
    match sem (fs w) with
    | inl e =>
        (inl e, mkWorld (fs w) (local w) (S (tick w)) (oracle w) (log w ++ [(c, Some e)]))
    | inr a =>
        (inr a, mkWorld (fs w) (local w) (S (tick w)) (oracle w) (log w ++ [(c, None)]))
    end.

(** A call whose result nobody looks at and that leaves the tree alone. *)
Definition note (c : call) (w : world) : world :=
  mkWorld (fs w) (local w) (tick w) (oracle w) (log w ++ [(c, None)]).

Definition os_Stat (p : path) : world → (error + inode) * world :=
  ask (CStat p) (fs_stat p).
Definition os_MkdirAll (p : path) (m : Z) : world → option error * world :=
  sys (CMkdirAll p m) (fs_mkdirAll p m).
Definition os_Create (p : path) : world → option error * world :=
  sys (CCreate p) (fs_create p).
Definition os_Open (p : path) : world → (error + unit) * world :=
  ask (COpen p) (fs_open p).
Definition os_Remove (p : path) : world → option error * world :=
  sys (CRemove p) (fs_remove p).
Definition os_Chmod (p : path) (m : Z) : world → option error * world :=
  sys (CChmod p m) (fs_chmod p m).
Definition os_Chtimes (p : path) (t : Z) : world → option error * world :=
  sys (CChtimes p t) (fs_chtimes p t).
Definition osutil_Rename (a b : path) : world → option error * world :=
  sys (CRename a b) (fs_rename a b).

(** Methods of [*os.File].  On the nil handle they return [ErrInvalid]
    without a call; [WriteAt] of no bytes returns at once. *)
Definition file_Close (h : option path) (w : world) : world := note (CClose h) w.

Definition file_WriteAt (h : option path) (data : list Byte.byte) (off : Z)
    (w : world) : option error * world :=
  match h with
  | None => (Some ErrInvalid, w)
  | Some q =>
      match data with
      | [] => (None, w)
      | _ => sys (CWriteAt q data off) (fs_writeAt q data off) w
      end
  end.

Definition file_ReadAt (h : option path) (n off : Z) (w : world)
  : (error + list Byte.byte) * world :=
  match h with
  | None => (inl ErrInvalid, w)
  | Some q => ask (CReadAt q n off) (fs_readAt q n off) w
  end.

(** The model: [CurrentRepoFile] and [updateLocal]. *)
Definition CurrentRepoFile (name : path) (w : world) : File :=
  default zeroFile (local w !! name).

Definition updateLocal (f : File) (w : world) : world :=
  mkWorld (fs w) (<[Name f := f]> (local w)) (tick w) (oracle w)
          (log w ++ [(CUpdateLocal f, None)]).

(** ** What the puller imports

    The helpers of [protocol] and [scanner], the temp-name scheme and the
    reserved connection id are declared outside [puller.go]; the puller is
    verified for every choice of them. *)

Class Externals : Type := {
  IsDeleted : Z → bool;
  IsDirectory : Z → bool;
  HasPermissionBits : Z → bool;
  scanner_Blocks : list Byte.byte → list Block;
  TempName : path → path;
  LocalID : Z }.

(** Modelled from the spec: [scanner.PermsEqual] is not part of
    [puller.go]; the fixup pass restores a directory's mode when "the
    current mode differs" from the target mode in its "low 9 bits". *)
Definition PermsEqual (a b : Z) : bool :=
  bool_decide (Z.land a ModePerm = Z.land b ModePerm).

(** [versioner.Versioner]: one method, whose effect on the tree is the
    versioner's business. *)
Record Versioner : Type := mkVersioner {
  Archive : path → Z → gmap path inode → error + gmap path inode }.

(** [cid.Map]: the names of the connected nodes, in the order [Names]
    lists them, and the connection id of each. *)
Record cidMap : Type := mkCidMap {
  Names : list string;
  Get : string → Z }.

(** ** The puller *)

Record puller : Type := mkPuller {
  IgnorePerms : bool;
  versioner : option Versioner;
  cm : cidMap;
  Availability : path → Z;
  oustandingPerNode : gmap string Z;
  openFiles : gmap path openFile;
  env : world }.

Definition set_env (w : world) (p : puller) : puller :=
  mkPuller (IgnorePerms p) (versioner p) (cm p) (Availability p)
           (oustandingPerNode p) (openFiles p) w.
Definition set_openFiles (t : gmap path openFile) (p : puller) : puller :=
  mkPuller (IgnorePerms p) (versioner p) (cm p) (Availability p)
           (oustandingPerNode p) t (env p).
Definition set_oustandingPerNode (m : gmap string Z) (p : puller) : puller :=
  mkPuller (IgnorePerms p) (versioner p) (cm p) (Availability p)
           m (openFiles p) (env p).

(** ** The monad of the handlers

    A handler runs on the puller and either finishes with a value and a new
    puller or panics (Go's [panic], also a nil-pointer dereference). *)

Inductive outcome (A : Type) : Type :=
  | Done (a : A) (p : puller)
  | Panic (msg : string).
Arguments Done {A} a p.
Arguments Panic {A} msg.

Definition M (A : Type) : Type := puller → outcome A.

Definition ret {A} (a : A) : M A := λ p, Done a p.
Definition bind {A B} (m : M A) (k : A → M B) : M B :=
  λ p, match m p with Done a p' => k a p' | Panic msg => Panic msg end.
Definition panic {A} (msg : string) : M A := λ _, Panic msg.
Definition gets {A} (f : puller → A) : M A := λ p, Done (f p) p.
Definition modify (f : puller → puller) : M unit := λ p, Done tt (f p).
Definition world_do {A} (op : world → A * world) : M A :=
  λ p, Done (op (env p)).1 (set_env (op (env p)).2 p).
Definition world_mod (op : world → world) : M unit :=
  λ p, Done tt (set_env (op (env p)) p).

Notation "'let*' x ':=' c 'in' k" := (bind c (λ x, k))
  (at level 10, x name, c at level 100, k at level 200).
Notation "c ';;' k" := (bind c (λ _, k))
  (at level 100, k at level 200, right associativity).

Definition store (name : path) (ofile : openFile) : M unit :=
  modify (λ p, set_openFiles (<[name := ofile]> (openFiles p)) p).
Definition drop_openFile (name : path) : M unit :=
  modify (λ p, set_openFiles (delete name (openFiles p)) p).

(** ** The activity map *)

Section Puller.
Context `{Ext : Externals}.

(** [availability&(1<<id) != 0] on a [uint64]: a shift by 64 or more
    leaves nothing. *)
Definition has_bit (availability id : Z) : bool :=
  negb (Z.land availability (wrap_u64 (Z.shiftl 1 id)) =? 0).

(** One turn of the loop of [leastBusyNode] on [(low, selected)]. *)
Definition leastBusyStep (m : gmap string Z) (availability : Z) (c : cidMap)
    (acc : Z * string) (node : string) : Z * string :=
  let id := Get c node in
  if bool_decide (id = LocalID) then acc
  else
    let usage := default 0 (m !! node) in
    if has_bit availability id then
      if usage <? acc.1 then (usage, node) else acc
    else acc.

Definition leastBusyNode (m : gmap string Z) (availability : Z) (c : cidMap)
  : string * gmap string Z :=
  let selected :=
    (foldl (leastBusyStep m availability c) (Z.shiftl 2 30 - 1, ""%string) (Names c)).2 in
  (selected, <[selected := int_incr (default 0 (m !! selected))]> m).

Definition decrease (m : gmap string Z) (node : string) : gmap string Z :=
  <[node := int_decr (default 0 (m !! node))]> m.

(** ** Finalization *)

(** The loop over [hb] that compares hashes; [true] when a block differs. *)
Fixpoint hashesDiffer (hb fb : list Block) : bool :=
  match hb, fb with
  | h :: hb', b :: fb' =>
      if bool_decide (Hash h = Hash b) then hashesDiffer hb' fb' else true
  | _, _ => false
  end.

(** [scanner.Blocks] on a file descriptor of [q]: the blocks of the bytes
    of the file; when reading fails the error is dropped and there are no
    blocks.  The blocks handed back are recorded with the call. *)
Definition rehash (q : path) : M (list Block) :=
  world_do (λ w,
    let v := oracle w (tick w) in
    let hb :=
      if v_fail v then []
      else match fs w !! q with
           | Some i => if i_dir i then [] else scanner_Blocks (i_data i)
           | None => []
           end in
    (hb, mkWorld (fs w) (local w) (S (tick w)) (oracle w)
           (log w ++ [(CBlocks q hb, None)]))).

Definition versioner_Archive (v : Versioner) (q : path) : M (option error) :=
  world_do (sys (CArchive q) (Archive v q)).

(** The body of [closeFile] after the deferred remove is registered and the
    entry is deleted; every [ret tt] before the end is a [return]. *)
Definition finalize (f : File) (ofile : openFile) : M unit :=
  let* fd := world_do (os_Open (of_temp ofile)) in
  match fd with
  | inl _ => ret tt
  | inr _ =>
      let* hb := rehash (of_temp ofile) in
      world_mod (file_Close (Some (of_temp ofile)));;
      if negb (bool_decide (length hb = length (Blocks f))) then ret tt
      else if hashesDiffer hb (Blocks f) then ret tt
      else
        world_do (os_Chtimes (of_temp ofile) (Modified f));;
        let* ip := gets IgnorePerms in
        (if negb ip && HasPermissionBits (Flags f)
         then world_do (os_Chmod (of_temp ofile) (Z.land (Flags f) 0x1ff));; ret tt
         else ret tt);;
        world_mod (note (CShowFile (of_temp ofile)));;
        let* v := gets versioner in
        let* archived :=
          match v with
          | Some v => versioner_Archive v (of_filepath ofile)
          | None => ret None
          end in
        match archived with
        | Some _ => ret tt
        | None =>
            let* err := world_do (osutil_Rename (of_temp ofile) (of_filepath ofile)) in
            match err with
            | None => world_mod (updateLocal f)
            | Some _ => ret tt
            end
        end
  end.

Definition closeFile (f : File) : M unit :=
  world_mod (note (CCloseFile (Name f)));;
  let* ofile := gets (λ p, default zeroOpenFile (openFiles p !! Name f)) in
  world_mod (file_Close (of_file ofile));;
  drop_openFile (Name f);;
  finalize f ofile;;
  world_do (os_Remove (of_temp ofile));;
  ret tt.

(** ** Request results *)

Definition handleRequestResult (res : requestResult) : M unit :=
  modify (λ p, set_oustandingPerNode (decrease (oustandingPerNode p) (rr_node res)) p);;
  let f := rr_file res in
  let* entry := gets (λ p, openFiles p !! Name f) in
  match entry with
  | None => ret tt
  | Some ofile =>
      match of_err ofile with
      | Some _ => ret tt
      | None =>
          let* werr := world_do (file_WriteAt (of_file ofile) (rr_data res) (rr_offset res)) in
          let ofile' := mkOpenFile (of_filepath ofile) (of_temp ofile) (of_availability ofile)
                       (of_file ofile) werr (int_decr (of_outstanding ofile)) (of_done ofile) in
          store (Name f) ofile';;
          if of_done ofile' && (of_outstanding ofile' =? 0) then closeFile f else ret tt
      end
  end.

(** ** Block items *)

Definition set_err (e : option error) (ofile : openFile) : openFile :=
  mkOpenFile (of_filepath ofile) (of_temp ofile) (of_availability ofile)
    (of_file ofile) e (of_outstanding ofile) (of_done ofile).
Definition set_file (h : option path) (ofile : openFile) : openFile :=
  mkOpenFile (of_filepath ofile) (of_temp ofile) (of_availability ofile)
    h (of_err ofile) (of_outstanding ofile) (of_done ofile).

(** The loop of [handleCopyBlock] over [b.copy], with [exfd] open on
    [of.filepath]; the last [Close] of [exfd] is the deferred one. *)
Fixpoint copyBlocks (name : path) (ofile : openFile) (cs : list Block) : M unit :=
  match cs with
  | [] => world_mod (file_Close (Some (of_filepath ofile)))
  | c :: cs' =>
      let* r := world_do (file_ReadAt (Some (of_filepath ofile)) (Size c) (Offset c)) in
      let* e :=
        match r with
        | inl e => ret (Some e)
        | inr bs => world_do (file_WriteAt (of_file ofile) bs (Offset c))
        end in
      match e with
      | Some e =>
          world_mod (file_Close (Some (of_filepath ofile)));;
          world_mod (file_Close (of_file ofile));;
          store name (set_file None (set_err (Some e) ofile));;
          world_mod (file_Close (Some (of_filepath ofile)))
      | None => copyBlocks name ofile cs'
      end
  end.

Definition handleCopyBlock (b : bqBlock) : M unit :=
  let f := bq_file b in
  let* ofile := gets (λ p, default zeroOpenFile (openFiles p !! Name f)) in
  let* exfd := world_do (os_Open (of_filepath ofile)) in
  match exfd with
  | inl e =>
      world_mod (file_Close (of_file ofile));;
      store (Name f) (set_file None (set_err (Some e) ofile))
  | inr _ => copyBlocks (Name f) ofile (bq_copy b)
  end.

Definition handleRequestBlock (b : bqBlock) : M bool :=
  let f := bq_file b in
  let* entry := gets (λ p, openFiles p !! Name f) in
  match entry with
  | None => panic "bug: request for non-open file"
  | Some ofile =>
      let* node := (λ p,
        let r := leastBusyNode (oustandingPerNode p) (of_availability ofile) (cm p) in
        Done r.1 (set_oustandingPerNode r.2 p)) in
      if bool_decide (String.length node = 0%nat) then
        let failed := set_err (Some errNoNode) ofile in
        let* failed' :=
          match of_file failed with
          | Some _ =>
              world_mod (file_Close (of_file failed));;
              world_do (os_Remove (of_temp failed));;
              ret (set_file None failed)
          | None => ret failed
          end in
        (if bq_last b then drop_openFile (Name f) else store (Name f) failed');;
        ret true
      else
        store (Name f)
          (mkOpenFile (of_filepath ofile) (of_temp ofile) (of_availability ofile)
             (of_file ofile) (of_err ofile) (int_incr (of_outstanding ofile))
             (of_done ofile));;
        world_mod (note (CRequestGlobal node (Name f) (Offset (bq_block b))
                           (Size (bq_block b))));;
        ret false
  end.

Definition handleEmptyBlock (b : bqBlock) : M unit :=
  let f := bq_file b in
  let* ofile := gets (λ p, default zeroOpenFile (openFiles p !! Name f)) in
  (if bq_last b then
     match of_err ofile with
     | None => world_mod (file_Close (of_file ofile))
     | Some _ => ret tt
     end
   else ret tt);;
  if IsDeleted (Flags f) then
    world_do (os_Remove (of_temp ofile));;
    world_do (os_Chmod (of_filepath ofile) 0x1b6);;
    let* v := gets versioner in
    match v with
    | Some v =>
        let* err := versioner_Archive v (of_filepath ofile) in
        (match err with
         | None => world_mod (updateLocal f)
         | Some _ => ret tt
         end);;
        drop_openFile (Name f)
    | None =>
        let* err := world_do (os_Remove (of_filepath ofile)) in
        (match err with
         | None => world_mod (updateLocal f)
         | Some e => if IsNotExist e then world_mod (updateLocal f) else ret tt
         end);;
        drop_openFile (Name f)
    end
  else
    let* terr := world_do (os_Chtimes (of_temp ofile) (Modified f)) in
    match terr with
    | Some _ => drop_openFile (Name f)
    | None =>
        let* ip := gets IgnorePerms in
        let* merr :=
          if negb ip && HasPermissionBits (Flags f)
          then world_do (os_Chmod (of_temp ofile) (Z.land (Flags f) 0x1ff))
          else ret None in
        match merr with
        | Some _ => drop_openFile (Name f)
        | None =>
            world_mod (note (CShowFile (of_temp ofile)));;
            let* rerr := world_do (osutil_Rename (of_temp ofile) (of_filepath ofile)) in
            (match rerr with
             | None => world_mod (updateLocal f)
             | Some _ => ret tt
             end);;
            drop_openFile (Name f)
        end
    end.

(** The branch of [handleBlock] that opens a file: [None] when it has
    already returned [true], else the fresh entry. *)
Definition openNew (b : bqBlock) (ofile : openFile) : M (option openFile) :=
  let f := bq_file b in
  let* avail := gets (λ p, wrap_u64 (Availability p (Name f))) in
  let o1 := mkOpenFile (Name f) (TempName (Name f)) avail
              (of_file ofile) (of_err ofile) (of_outstanding ofile) (of_done ofile) in
  let dirName := Dir (of_filepath o1) in
  let* st := world_do (os_Stat dirName) in
  (match st with
   | inl _ => world_do (os_MkdirAll dirName 0x1ff);; ret tt
   | inr _ => ret tt
   end);;
  let* cerr := world_do (os_Create (of_temp o1)) in
  match cerr with
  | Some e =>
      let o2 := set_err (Some e) (set_file None o1) in
      (if negb (bq_last b) then store (Name f) o2 else ret tt);;
      ret None
  | None =>
      world_mod (note (CHideFile (of_temp o1)));;
      ret (Some (set_err None (set_file (Some (of_temp o1)) o1)))
  end.

Definition handleBlock (b : bqBlock) : M bool :=
  let f := bq_file b in
  if IsDirectory (Flags f) then
    (if negb (IsDeleted (Flags f)) then
       let* st := world_do (os_Stat (Name f)) in
       match st with
       | inl e =>
           if IsNotExist e
           then world_do (os_MkdirAll (Name f) 0x1ff);; ret tt
           else ret tt
       | inr _ => ret tt
       end
     else ret tt);;
    world_mod (updateLocal f);;
    ret true
  else
    let* entry := gets (λ p, openFiles p !! Name f) in
    let ofile0 := default zeroOpenFile entry in
    let ofile1 := mkOpenFile (of_filepath ofile0) (of_temp ofile0)
                    (of_availability ofile0) (of_file ofile0) (of_err ofile0)
                    (of_outstanding ofile0) (bq_last b) in
    let* opened :=
      match entry with
      | None => openNew b ofile1
      | Some _ => ret (Some ofile1)
      end in
    match opened with
    | None => ret true
    | Some ofile =>
        match of_err ofile with
        | Some _ =>
            (if bq_last b then drop_openFile (Name f) else ret tt);;
            ret true
        | None =>
            store (Name f) ofile;;
            if (0 <? length (bq_copy b))%nat then
              handleCopyBlock b;; ret true
            else if Size (bq_block b) >? 0 then handleRequestBlock b
            else handleEmptyBlock b;; ret true
        end
    end.

(** ** Directory fixup *)

(** [filepath.Walk] reads the names of a directory in sorted order and
    visits a directory before its entries: it visits the paths of the tree
    in the lexicographic order of their components.  [walkFn] changes
    attributes of the directory it is visiting and nothing else, so the
    paths of the walk are those of the tree at its start, while the [info]
    of each path is read when the walk gets there.  The reads of the walk
    itself are taken to succeed on every path that exists. *)
Fixpoint path_le (p q : path) : Prop :=
  match p, q with
  | [], _ => True
  | _ :: _, [] => False
  | a :: p', b :: q' => if decide (a = b) then path_le p' q' else String.le a b
  end.

Global Instance path_le_dec : RelDecision path_le.
Proof.
  intros p. induction p as [|a p IH]; intros [|b q]; simpl; try apply _.
  destruct (decide (a = b)); apply _.
Defined.

Definition walk_order (t : gmap path inode) : list path :=
  merge_sort path_le (map fst (map_to_list t)).

(** The closure [walkFn]; the two variables it captures, [deleteDirs] and
    [changed], are threaded through.  [info] is what [Walk] got from
    [lstat] just before the visit. *)
Definition walkFn (q : path) (info : inode) (acc : list path * Z)
  : M (list path * Z) :=
  if negb (IsDir info) then ret acc else
  let rn := q in
  if bool_decide (rn = []) then ret acc else
  if bool_decide (Base rn = ".stversions"%string) then ret acc else
  let* cur := gets (λ p, CurrentRepoFile rn (env p)) in
  if negb (bool_decide (Name cur = rn)) then ret acc else
  if IsDeleted (Flags cur) then ret (acc.1 ++ [q], acc.2) else
  let* ip := gets IgnorePerms in
  let* changed1 :=
    if negb ip && HasPermissionBits (Flags cur)
       && negb (PermsEqual (Flags cur) (Mode info))
    then
      let* err := world_do (os_Chmod q (Z.land (Flags cur) ModePerm)) in
      ret (match err with None => int_incr acc.2 | Some _ => acc.2 end)
    else ret acc.2 in
  let* changed2 :=
    if negb (Modified cur =? ModTime info)
    then
      let* err := world_do (os_Chtimes q (Modified cur)) in
      ret (match err with None => int_incr changed1 | Some _ => changed1 end)
    else ret changed1 in
  ret (acc.1, changed2).

(** [filepath.Walk] over the paths [qs]: a path whose [lstat] fails is
    handed to [walkFn] with a nil [info], which [walkFn] dereferences. *)
Fixpoint walkPaths (qs : list path) (acc : list path * Z) : M (list path * Z) :=
  match qs with
  | [] => ret acc
  | q :: qs' =>
      let* info := gets (λ p, fs (env p) !! q) in
      match info with
      | None => panic "invalid memory address or nil pointer dereference"
      | Some i =>
          let* acc' := walkFn q i acc in
          walkPaths qs' acc'
      end
  end.

Definition Walk : M (list path * Z) :=
  let* root := gets (λ p, fs (env p) !! []) in
  match root with
  | None => panic "invalid memory address or nil pointer dereference"
  | Some _ =>
      let* qs := gets (λ p, walk_order (fs (env p))) in
      walkPaths qs ([], 0)
  end.

(** The loop that removes the queued directories, given in the order in
    which they are removed. *)
Fixpoint removeDirs (ds : list path) (deleted : Z) : M Z :=
  match ds with
  | [] => ret deleted
  | d :: ds' =>
      let* err := world_do (os_Remove d) in
      removeDirs ds' (match err with None => int_incr deleted | Some _ => deleted end)
  end.

(** One turn of the outer loop: [(changed, deleted)]. *)
Definition fixupPass : M (Z * Z) :=
  let* walked := Walk in
  let* deleted := removeDirs (rev walked.1) 0 in
  ret (walked.2, deleted).

(** The outer loop, with a bound on the number of turns: [false] when the
    bound is reached before the loop returns. *)
Fixpoint fixupDirectories (fuel : nat) : M bool :=
  match fuel with
  | O => ret false
  | S fuel' =>
      let* counts := fixupPass in
      if wrap_int (counts.1 + counts.2) =? 0 then ret true
      else fixupDirectories fuel'
  end.

(** ** Measuring the work that fixup has left

    [restores loc q i] is the model's entry that the walk restores the
    directory [i] at [q] to, if it does; [queues loc q i] tells whether the
    walk queues it for deletion. *)

Definition visits (loc : gmap path File) (q : path) (i : inode) : option File :=
  if IsDir i && negb (bool_decide (q = []))
     && negb (bool_decide (Base q = ".stversions"%string))
  then
    let cur := default zeroFile (loc !! q) in
    if bool_decide (Name cur = q) then Some cur else None
  else None.

Definition restores (loc : gmap path File) (q : path) (i : inode) : option File :=
  match visits loc q i with
  | Some cur => if IsDeleted (Flags cur) then None else Some cur
  | None => None
  end.

Definition queues (loc : gmap path File) (q : path) (i : inode) : bool :=
  match visits loc q i with
  | Some cur => IsDeleted (Flags cur)
  | None => false
  end.

Definition perm_off (ip : bool) (cur : File) (i : inode) : bool :=
  negb ip && HasPermissionBits (Flags cur)
  && negb (PermsEqual (Flags cur) (Mode i)).

Definition time_off (cur : File) (i : inode) : bool :=
  negb (Modified cur =? ModTime i).

(** Every entry weighs three, and one more for each attribute that the
    walk would restore. *)
Definition weight (ip : bool) (loc : gmap path File) (kv : path * inode) : nat :=
  (3 + match restores loc kv.1 kv.2 with
       | Some cur => Nat.b2n (perm_off ip cur kv.2) + Nat.b2n (time_off cur kv.2)
       | None => 0
       end)%nat.

Definition potential (ip : bool) (loc : gmap path File) (t : gmap path inode) : nat :=
  sum_list_with (weight ip loc) (map_to_list t).

Definition work (p : puller) : nat :=
  potential (IgnorePerms p) (local (env p)) (fs (env p)).

(** The paths that a walk of [t] queues for deletion, in the order of the
    walk. *)
Definition queued (loc : gmap path File) (t : gmap path inode) (q : path) : bool :=
  match t !! q with Some i => queues loc q i | None => false end.

Definition queue (loc : gmap path File) (t : gmap path inode) : list path :=
  filter (λ q, queued loc t q = true) (walk_order t).

(** [turns n p p']: [n] turns of the outer loop, none of which returns,
    lead from [p] to [p']. *)
Inductive turns : nat → puller → puller → Prop :=
  | turns_O p : turns 0 p p
  | turns_S n p counts p1 p2 :
      fixupPass p = Done counts p1 →
      wrap_int (counts.1 + counts.2) ≠ 0 →
      turns n p1 p2 →
      turns (S n) p p2.

(** ** Vocabulary of the properties *)

(** What the spec calls a hash mismatch: a different number of blocks, or a
    block whose hash is not the target's. *)
Definition mismatch (hb fb : list Block) : Prop :=
  length hb ≠ length fb
  ∨ ∃ k h t, hb !! k = Some h ∧ fb !! k = Some t ∧ Hash h ≠ Hash t.

(** [adds P p p']: from [p] to [p'] the log grew by events that satisfy
    [P]. *)
Definition adds (P : event → Prop) (p p' : puller) : Prop :=
  ∃ evs, log (env p') = log (env p) ++ evs ∧ Forall P evs.

(** [runs R m]: [m] never panics and relates the puller before to the
    puller after by [R]. *)
Definition runs (R : relation puller) {A} (m : M A) : Prop :=
  ∀ p, ∃ a p', m p = Done a p' ∧ R p p'.

Definition not_closeFile (ev : event) : Prop := ∀ n, ev.1 ≠ CCloseFile n.

(** The count of a peer in the activity map, and what makes a connected
    peer a candidate for a block: it is not the local peer and its bit is
    set in the bitmap. *)
Definition usage (m : gmap string Z) (n : string) : Z := default 0 (m !! n).

Definition candidate (availability : Z) (c : cidMap) (n : string) : Prop :=
  Get c n ≠ LocalID ∧ has_bit availability (Get c n) = true.

Definition no_remove (ev : event) : Prop := ∀ d, ev.1 ≠ CRemove d.

(** The walk changes attributes only: what is a directory stays one. *)
Definition same_shape (t t' : gmap path inode) : Prop :=
  ∀ q, i_dir <$> (t' !! q) = i_dir <$> (t !! q).

(** [walked k p p']: from [p] to [p'] the walk did [k] units of work. *)
Definition walked (k : nat) (p p' : puller) : Prop :=
  IgnorePerms p' = IgnorePerms p
  ∧ local (env p') = local (env p)
  ∧ same_shape (fs (env p)) (fs (env p'))
  ∧ (work p' + k ≤ work p)%nat
  ∧ (k = 0%nat → fs (env p') = fs (env p))
  ∧ adds no_remove p p'.

(** Events that are no request to a peer, and events that do not tell
    the model. *)
Definition no_request (ev : event) : Prop :=
  ∀ node name off size, ev.1 ≠ CRequestGlobal node name off size.

Definition no_update (ev : event) : Prop := ∀ g, ev.1 ≠ CUpdateLocal g.

(** A handler is quiet when it sends no request and leaves the activity
    map alone. *)
Definition same_activity (p p' : puller) : Prop :=
  oustandingPerNode p' = oustandingPerNode p.

Definition quiet (p p' : puller) : Prop :=
  adds no_request p p' ∧ same_activity p p'.

(** The [n] bytes of a list from [off] on, when it has that many: what
    [ReadAt] hands back. *)
Definition bytes_at (l : list Byte.byte) (off n : nat) : option (list Byte.byte) :=
  let bs := take n (drop off l) in
  if (length bs <? n)%nat then None else Some bs.

(** What a run of the copy loop has done when it has not failed: every
    block with bytes reads from [tmp] as it read from [src], and a range
    on which [tmp] agreed with [src] before still agrees. *)
Definition copied (cs : list Block) (src tmp : path) (t t' : gmap path inode) : Prop :=
  (∀ c, c ∈ cs → 0 < Size c →
     ∃ bs, fs_readAt src (Size c) (Offset c) t = inr bs
           ∧ fs_readAt tmp (Size c) (Offset c) t' = inr bs)
  ∧ (∀ n off bs, fs_readAt src n off t = inr bs →
       fs_readAt tmp n off t = inr bs → fs_readAt tmp n off t' = inr bs).

(** [holds d q t]: [q] is a regular file of [t] with the bytes [d]. *)
Definition holds (d : list Byte.byte) (q : path) (t : gmap path inode) : Prop :=
  ∃ i, t !! q = Some i ∧ i_dir i = false ∧ i_data i = d.


(** [table_ok p]: every entry of the open-file table is filed under the
    name of its file, has the temp path of that name and, as long as it
    carries no error, an open handle on its temp file. *)
Definition entry_ok (name : path) (o : openFile) : Prop :=
  of_filepath o = name ∧ of_temp o = TempName name
  ∧ (of_err o = None → of_file o = Some (TempName name)).

Definition table_ok (p : puller) : Prop :=
  ∀ name o, openFiles p !! name = Some o → entry_ok name o.

End Puller.

(** ** Marking a repository invalid

    [config.RepositoryConfiguration], with the fields that [puller.go]
    reads or writes; [cfg.Repositories] is a list of them, changed in
    place.  The error is known by its message ([err.Error()]); [None] is
    the nil error, on which the call of [Error] panics. *)
Record RepositoryConfiguration : Set := mkRepo {
  ID : string;
  Directory : string;
  Invalid : string }.

Fixpoint invalidateRepo (repos : list RepositoryConfiguration) (repoID : string)
    (err : option string) : option (list RepositoryConfiguration) :=
  match repos with
  | [] => Some []
  | repo :: rest =>
      if bool_decide (ID repo = repoID) then
        match err with
        | Some msg => Some (mkRepo (ID repo) (Directory repo) msg :: rest)
        | None => None
        end
      else cons repo <$> invalidateRepo rest repoID err
  end.

(** ** A concrete instance, for running the handlers

    Flag bits as in the block exchange protocol (deleted [1<<12], directory
    [1<<14], no permission bits [1<<15]); four-byte blocks whose "hash" is
    their content; the temp name is a dotted sibling. *)

Fixpoint demo_chunks (n : nat) (off : Z) (d : list Byte.byte) : list Block :=
  match n with
  | O => []
  | S n' =>
      match d with
      | [] => []
      | _ => mkBlock off (Z.of_nat (length (take 4 d))) (take 4 d)
               :: demo_chunks n' (off + 4) (drop 4 d)
      end
  end.

Definition demo_Blocks (d : list Byte.byte) : list Block :=
  match d with
  | [] => [mkBlock 0 0 []]
  | _ => demo_chunks (length d) 0 d
  end.

Definition demo_TempName (q : path) : path :=
  Dir q ++ [String.append ".syncthing." (Base q)].

Definition demo_ext : Externals := {|
  IsDeleted := λ flags, Z.testbit flags 12;
  IsDirectory := λ flags, Z.testbit flags 14;
  HasPermissionBits := λ flags, negb (Z.testbit flags 15);
  scanner_Blocks := demo_Blocks;
  TempName := demo_TempName;
  LocalID := 0 |}.

(** An operating system without faults, at time [1000], and one whose
    [n]-th call fails. *)
Definition calm : nat → verdict := λ _, mkVerdict false 1000.
Definition failing_at (n : nat) : nat → verdict :=
  λ k, mkVerdict (bool_decide (k = n)) 1000.

Definition root_dir : inode := mkInode true 0x1ed 900 [].
Definition demo_cm : cidMap :=
  mkCidMap ["<local>"; "nodeA"; "nodeB"]%string
    (λ n, if String.eqb n "<local>" then 0
          else if String.eqb n "nodeA" then 1
          else if String.eqb n "nodeB" then 2 else 3).

Definition demo_world (t : gmap path inode) (o : nat → verdict) : world :=
  mkWorld t ∅ 0 o [].

Definition demo_puller (v : option Versioner) (m : gmap string Z)
    (t : gmap path openFile) (w : world) : puller :=
  mkPuller false v demo_cm (λ _, 6) m t w.

(** ** Concrete pullers *)

Definition bytesA : list Byte.byte := [Byte.x01; Byte.x02; Byte.x03; Byte.x04].
Definition bytesB : list Byte.byte := [Byte.x05; Byte.x06; Byte.x07; Byte.x08].
Definition bytesX : list Byte.byte := [Byte.x09; Byte.x09; Byte.x09; Byte.x09].

(** A file of two blocks, and the entry of the table while it is pulled. *)
Definition fileA : File :=
  mkFile ["a.bin"%string] 0x1a4 777 [mkBlock 0 4 bytesA; mkBlock 4 4 bytesB].

Definition tempA : path := [".syncthing.a.bin"%string].

Definition openA (e : option error) (outstanding : Z) (done : bool) : openFile :=
  mkOpenFile ["a.bin"%string] tempA 6 (Some tempA) e outstanding done.

Definition treeA (temp : list Byte.byte) : gmap path inode :=
  {[ [] := root_dir; tempA := mkInode false 0x1b6 950 temp ]}.

Definition pullerA (o : nat → verdict) (temp : list Byte.byte)
    (e : option error) (outstanding : Z) (done : bool) : puller :=
  demo_puller None {[ "nodeA"%string := 1 ]}
    {[ ["a.bin"%string] := openA e outstanding done ]}
    (demo_world (treeA temp) o).

(** A tombstoned directory with a tombstoned directory inside, and a
    directory whose mode and time are off. *)
Definition dirFlags (deleted : bool) : Z :=
  Z.lor (2 ^ 14) (Z.lor (if deleted then 2 ^ 12 else 0) 0x1ed).

Definition treeD : gmap path inode :=
  {[ [] := root_dir;
     ["gone"%string] := mkInode true 0x1ed 900 [];
     ["gone"%string; "sub"%string] := mkInode true 0x1ed 900 [];
     ["kept"%string] := mkInode true 0x1c0 900 [] ]}.

Definition localD : gmap path File :=
  {[ ["gone"%string] := mkFile ["gone"%string] (dirFlags true) 900 [];
     ["gone"%string; "sub"%string] :=
       mkFile ["gone"%string; "sub"%string] (dirFlags true) 900 [];
     ["kept"%string] := mkFile ["kept"%string] (dirFlags false) 800 [] ]}.

Definition pullerD : puller :=
  demo_puller None ∅ ∅ (mkWorld treeD localD 0 calm []).

Definition lastBlockA : bqBlock := mkBq fileA (mkBlock 4 4 bytesB) [] true.

Definition dirBlock : bqBlock :=
  mkBq (mkFile ["newdir"%string] (dirFlags false) 800 []) (mkBlock 0 0 []) [] true.

Definition tombstoneA : bqBlock :=
  mkBq (mkFile ["a.bin"%string] (Z.lor (2 ^ 12) 0x1a4) 777 []) (mkBlock 0 0 []) [] true.

(** A result of a request that failed in the transport: no bytes and the
    transport's error. *)
Definition failedResultA : requestResult :=
  mkResult "nodeA" fileA ["a.bin"%string] 0 [] (Some ErrNetwork).

(** A peer beyond the 64 bits of the bitmap. *)
Definition far_cm : cidMap := mkCidMap ["far"%string] (λ _, 64).

(** The file of [fileA] open with a bitmap that no peer is in. *)
Definition openN : openFile :=
  mkOpenFile ["a.bin"%string] tempA 0 (Some tempA) None 0 false.

Definition pullerN : puller :=
  demo_puller None {[ "nodeA"%string := 1 ]} {[ ["a.bin"%string] := openN ]}
    (demo_world (treeA []) calm).

(** The existing file of [fileA] with both blocks, next to an empty temp
    file, and the item that copies both. *)
Definition treeC : gmap path inode :=
  {[ [] := root_dir;
     ["a.bin"%string] := mkInode false 0x1a4 700 (bytesA ++ bytesB);
     tempA := mkInode false 0x1b6 950 [] ]}.

Definition pullerC : puller :=
  demo_puller None ∅ {[ ["a.bin"%string] := openA None 0 false ]}
    (demo_world treeC calm).

Definition copyBlockA : bqBlock :=
  mkBq fileA (mkBlock 0 0 []) [mkBlock 0 4 bytesA; mkBlock 4 4 bytesB] false.

(** The only block of a file that is not open yet, and the only item of a
    file without blocks. *)
Definition newFileBlock : bqBlock :=
  mkBq (mkFile ["new.bin"%string] 0x1a4 777 [mkBlock 0 4 bytesA])
       (mkBlock 0 4 bytesA) [] true.

Definition emptyBlockA : bqBlock :=
  mkBq (mkFile ["a.bin"%string] 0x1a4 777 []) (mkBlock 0 0 []) [] true.

(** A versioner that keeps no versions: archiving removes the file. *)
Definition demo_versioner : Versioner := mkVersioner fs_remove.

Definition pullerV : puller :=
  demo_puller (Some demo_versioner) ∅ {[ ["a.bin"%string] := openA None 0 true ]}
    (demo_world (treeA []) calm).

(** A repository whose directory is not there: the tree has no root. *)
Definition pullerE : puller :=
  demo_puller None ∅ ∅ (mkWorld ∅ localD 0 calm []).

(** The result of the request for the block of [newFileBlock]. *)
Definition newFileResult : requestResult :=
  mkResult "nodeA" (bq_file newFileBlock) ["new.bin"%string] 0 bytesA None.

(** * Properties *)

(** ** The environment's calls *)

Section Calls.
Implicit Types (w : world) (c : call).

Lemma sys_log c sem w : log (sys c sem w).2 = log w ++ [(c, (sys c sem w).1)].
Proof.
  unfold sys. destruct (v_fail _); [done|]. by destruct (sem _ _).
Qed.

Lemma sys_frame c sem w :
  local (sys c sem w).2 = local w ∧ oracle (sys c sem w).2 = oracle w
  ∧ tick (sys c sem w).2 = S (tick w).
Proof.
  unfold sys. destruct (v_fail _); [done|]. by destruct (sem _ _).
Qed.

Lemma sys_failed c sem w e :
  (sys c sem w).1 = Some e → fs (sys c sem w).2 = fs w.
Proof.
  unfold sys. destruct (v_fail _); [done|]. by destruct (sem _ _).
Qed.

Lemma sys_succeeded c sem w :
  (sys c sem w).1 = None →
  v_fail (oracle w (tick w)) = false
  ∧ sem (v_now (oracle w (tick w))) (fs w) = inr (fs (sys c sem w).2).
Proof.
  unfold sys. destruct (v_fail _); [done|]. by destruct (sem _ _).
Qed.

Lemma sys_calm c sem w :
  v_fail (oracle w (tick w)) = false →
  (sys c sem w).1 = match sem (v_now (oracle w (tick w))) (fs w) with
                    | inl e => Some e | inr _ => None end.
Proof. unfold sys. intros ->. by destruct (sem _ _). Qed.

Lemma ask_world {A} c (sem : gmap path inode → error + A) w :
  (ask c sem w).2 =
  mkWorld (fs w) (local w) (S (tick w)) (oracle w)
    (log w ++ [(c, match (ask c sem w).1 with inl e => Some e | inr _ => None end)]).
Proof.
  unfold ask. destruct (v_fail _); [done|]. by destruct (sem _).
Qed.

Lemma ask_calm {A} c (sem : gmap path inode → error + A) w :
  v_fail (oracle w (tick w)) = false → (ask c sem w).1 = sem (fs w).
Proof. unfold ask. intros ->. by destruct (sem _). Qed.

Lemma sys_inv c sem w r w' :
  sys c sem w = (r, w') →
  log w' = log w ++ [(c, r)] ∧ local w' = local w ∧ oracle w' = oracle w
  ∧ tick w' = S (tick w)
  ∧ match r with
    | Some e =>
        fs w' = fs w
        ∧ (v_fail (oracle w (tick w)) = false →
           sem (v_now (oracle w (tick w))) (fs w) = inl e)
    | None =>
        v_fail (oracle w (tick w)) = false
        ∧ sem (v_now (oracle w (tick w))) (fs w) = inr (fs w')
    end.
Proof.
  unfold sys. destruct (v_fail _).
  - intros [= <- <-]. done.
  - destruct (sem _ _); intros [= <- <-]; done.
Qed.

Lemma ask_inv {A} c (sem : gmap path inode → error + A) w r w' :
  ask c sem w = (r, w') →
  w' = mkWorld (fs w) (local w) (S (tick w)) (oracle w)
         (log w ++ [(c, match r with inl e => Some e | inr _ => None end)])
  ∧ (v_fail (oracle w (tick w)) = false → r = sem (fs w))
  ∧ (v_fail (oracle w (tick w)) = true → r = inl EIO).
Proof.
  unfold ask. destruct (v_fail _).
  - intros [= <- <-]. done.
  - destruct (sem _); intros [= <- <-]; done.
Qed.

End Calls.

(** What the tree operations leave alone. *)

Lemma touch_lookup_None now q t (k : path) :
  t !! k = None → touch now q t !! k = None.
Proof.
  intros Hk. unfold touch. destruct (decide (q = k)) as [->|Hne].
  - by rewrite lookup_alter_eq, Hk.
  - by rewrite lookup_alter_ne.
Qed.

Lemma fs_remove_lookup_None q now t t' (k : path) :
  fs_remove q now t = inr t' → t !! k = None → t' !! k = None.
Proof.
  unfold fs_remove. destruct (t !! q); [|done].
  destruct (_ && _); [done|]. intros [= <-] Hk.
  apply touch_lookup_None. destruct (decide (q = k)) as [->|Hne].
  - apply lookup_delete_eq.
  - by rewrite lookup_delete_ne.
Qed.

Lemma fs_chmod_lookup_None q m now t t' (k : path) :
  fs_chmod q m now t = inr t' → t !! k = None → t' !! k = None.
Proof.
  unfold fs_chmod. destruct (t !! q) eqn:Hq; [|done]. intros [= <-] Hk.
  destruct (decide (q = k)) as [->|Hne]; [congruence|].
  by rewrite lookup_insert_ne.
Qed.

Lemma mkdirAll_from_creates pre rest m now t t' :
  rest ≠ [] → t !! (pre ++ rest) = None →
  mkdirAll_from pre rest m now t = inr t' →
  t' !! (pre ++ rest) = Some (mkInode true (Z.land m ModePerm) now []).
Proof.
  revert pre t. induction rest as [|c rest IH]; intros pre t Hne Hnone; [done|].
  simpl. replace (pre ++ c :: rest) with ((pre ++ [c]) ++ rest) in *
    by (by rewrite <- app_assoc).
  destruct rest as [|c' rest].
  - rewrite app_nil_r in *. rewrite Hnone.
    destruct (is_dir_at pre t); [|done]. simpl. intros [= <-].
    apply lookup_insert_eq.
  - destruct (t !! (pre ++ [c])) as [i|] eqn:Hq.
    + destruct (i_dir i); [|done]. by apply IH.
    + destruct (is_dir_at pre t); [|done]. apply IH; [done|].
      rewrite lookup_insert_ne.
      * by apply touch_lookup_None.
      * intros Heq. apply (f_equal length) in Heq.
        rewrite !length_app in Heq. simpl in Heq. lia.
Qed.

Lemma fs_mkdirAll_creates q m now t t' :
  t !! q = None → fs_mkdirAll q m now t = inr t' →
  t' !! q = Some (mkInode true (Z.land m ModePerm) now []).
Proof.
  intros Hq. unfold fs_mkdirAll. rewrite Hq.
  destruct q as [|c q].
  - rewrite Hq. simpl. intros [= <-]. apply lookup_insert_eq.
  - destruct (t !! []) eqn:Hroot; intros Hmk.
    + by apply (mkdirAll_from_creates [] (c :: q) m now t t').
    + eapply (mkdirAll_from_creates [] (c :: q)); [done| |exact Hmk].
      by rewrite lookup_insert_ne.
Qed.

(** ** Machine integers *)

Lemma wrap_int_small z : - 2 ^ 63 ≤ z < 2 ^ 63 → wrap_int z = z.
Proof. intros Hz. unfold wrap_int. rewrite Z.mod_small by lia. lia. Qed.

Lemma wrap_int_range z : - 2 ^ 63 ≤ wrap_int z < 2 ^ 63.
Proof.
  unfold wrap_int. pose proof (Z.mod_pos_bound (z + 2 ^ 63) (2 ^ 64)). lia.
Qed.

(** [x--] is a decrement unless [x] is the least [int], where it wraps
    around to the greatest one; likewise [x++]. *)
(** A second within 292 years of 1970 survives the conversion of
    [os.Chtimes]; one far beyond does not. *)
Lemma chtimes_seconds_exact t : chtimes_exact t → chtimes_seconds t = t.
Proof.
  unfold chtimes_exact, chtimes_seconds. intros ->. by apply Z.div_mul.
Qed.

Lemma chtimes_exact_range t :
  - 9223372036 ≤ t ≤ 9223372036 → chtimes_exact t.
Proof.
  intros Ht. unfold chtimes_exact, UnixNano. apply wrap_int_small. lia.
Qed.

Lemma chtimes_seconds_wraps : chtimes_seconds 20000000000 = 1553255926.
Proof. reflexivity. Qed.

Lemma int_decr_exact z : - 2 ^ 63 < z < 2 ^ 63 → int_decr z = z - 1.
Proof. intros Hz. unfold int_decr. apply wrap_int_small. lia. Qed.

Lemma int_incr_exact z : - 2 ^ 63 ≤ z < 2 ^ 63 - 1 → int_incr z = z + 1.
Proof. intros Hz. unfold int_incr. apply wrap_int_small. lia. Qed.

(** ** The order of the walk *)

Global Instance path_le_refl : Reflexive path_le.
Proof.
  intros q. induction q as [|a q IH]; simpl; [done|].
  by rewrite decide_True.
Qed.

Global Instance path_le_trans : Transitive path_le.
Proof.
  intros q1. induction q1 as [|a q1 IH]; intros [|b q2] [|c q3]; simpl; try done.
  destruct (decide (a = b)) as [->|Hab], (decide (b = c)) as [->|Hbc].
  - apply IH.
  - auto.
  - rewrite decide_False by done. auto.
  - intros H1 H2. destruct (decide (a = c)) as [->|Hac].
    + destruct Hab. by apply (anti_symm String.le).
    + by etrans.
Qed.

Global Instance path_le_antisymm : AntiSymm (=) path_le.
Proof.
  intros q1. induction q1 as [|a q1 IH]; intros [|b q2]; simpl; try done.
  destruct (decide (a = b)) as [->|Hab].
  - rewrite decide_True by done. intros H1 H2. f_equal. by apply IH.
  - rewrite decide_False by done. intros H1 H2. destruct Hab.
    by apply (anti_symm String.le).
Qed.

Global Instance path_le_total : Total path_le.
Proof.
  intros q1. induction q1 as [|a q1 IH]; intros [|b q2]; simpl; auto.
  destruct (decide (a = b)) as [->|Hab].
  - rewrite decide_True by done. apply IH.
  - rewrite decide_False by done. apply (total String.le).
Qed.

(** A directory sorts before everything below it. *)
Lemma prefix_path_le (q1 q2 : path) : q1 `prefix_of` q2 → path_le q1 q2.
Proof.
  intros [k ->]. induction q1 as [|a q1 IH]; simpl; [done|].
  by rewrite decide_True.
Qed.

Lemma walk_order_sorted t : StronglySorted path_le (walk_order t).
Proof. apply StronglySorted_merge_sort; apply _. Qed.

Lemma walk_order_elem_of t (q : path) : q ∈ walk_order t ↔ is_Some (t !! q).
Proof.
  unfold walk_order. rewrite merge_sort_Permutation.
  rewrite list_elem_of_fmap. split.
  - intros ([q' i] & -> & Hin). apply elem_of_map_to_list in Hin. by exists i.
  - intros [i Hi]. exists (q, i). split; [done|]. by apply elem_of_map_to_list.
Qed.

Lemma StronglySorted_filter {A} (R : relation A) (P : A → Prop)
    `{∀ x, Decision (P x)} l :
  StronglySorted R l → StronglySorted R (filter P l).
Proof.
  induction 1 as [|x l Hl IH Hx]; [constructor|].
  rewrite filter_cons. destruct (decide (P x)); [|done].
  constructor; [done|]. apply Forall_forall. intros y [_ Hy]%list_elem_of_filter.
  by eapply Forall_forall in Hx.
Qed.

(** In the reversal of a part of the walk, nothing comes after a directory
    that lies below it. *)
Lemma reversed_walk_deepest_first t (P : path → Prop) `{∀ x, Decision (P x)}
    l1 (d : path) l2 (d' : path) :
  rev (filter P (walk_order t)) = l1 ++ d :: l2 →
  d' ∈ l2 → d `prefix_of` d' → d' = d.
Proof.
  intros Hrev Hin Hpre.
  pose proof (StronglySorted_filter path_le P _ (walk_order_sorted t)) as Hsorted.
  apply (f_equal (@rev _)) in Hrev. rewrite rev_involutive in Hrev.
  rewrite rev_app_distr in Hrev. simpl in Hrev. rewrite <- app_assoc in Hrev.
  rewrite Hrev in Hsorted.
  apply StronglySorted_app in Hsorted as (Hcross & _ & _).
  apply (anti_symm path_le).
  - apply Hcross; [|set_solver]. rewrite list_elem_of_In, <- in_rev.
    by apply list_elem_of_In.
  - by apply prefix_path_le.
Qed.

(** ** Hash verification *)


Lemma hashesDiffer_spec hb fb :
  length hb = length fb →
  hashesDiffer hb fb = true
  ↔ ∃ k h t, hb !! k = Some h ∧ fb !! k = Some t ∧ Hash h ≠ Hash t.
Proof.
  revert fb. induction hb as [|h hb IH]; intros [|t fb] Hlen; simpl in *;
    try discriminate.
  - split; [done|]. by intros (k & ? & ? & ? & _).
  - injection Hlen as Hlen. case_bool_decide as Heq.
    + rewrite (IH fb Hlen). split.
      * intros (k & h' & t' & ? & ? & ?). by exists (S k), h', t'.
      * intros ([|k] & h' & t' & Hh & Ht & Hne); simpl in *.
        -- congruence.
        -- by exists k, h', t'.
    + split; [|done]. intros _. by exists 0%nat, h, t.
Qed.

(** The two tests of [closeFile] let a file through exactly when there is
    no mismatch. *)
Lemma verify_spec hb fb :
  negb (bool_decide (length hb = length fb)) || hashesDiffer hb fb = true
  ↔ mismatch hb fb.
Proof.
  unfold mismatch. case_bool_decide as Hlen; simpl.
  - rewrite (hashesDiffer_spec _ _ Hlen). tauto.
  - tauto.
Qed.

(** ** The handlers *)

Ltac tidy :=
  cbn [fst snd env openFiles oustandingPerNode IgnorePerms versioner cm
       Availability set_env set_openFiles set_oustandingPerNode].

Ltac step_monad :=
  unfold store, drop_openFile;
  unfold bind, ret, gets, modify, world_do, world_mod, panic;
  tidy.

Section Handlers.
Context `{Ext : Externals}.
Implicit Types (p : puller) (b : bqBlock) (f : File) (w : world).

(** Symbolic execution of a handler: name the result and the world after
    the next call to the environment, then split on what the code tests. *)
Ltac base_world w :=
  lazymatch w with
  | context [sys _ _ _] => fail
  | context [ask _ _ _] => fail
  | _ => idtac
  end.

Ltac exec_call :=
  tidy;
  match goal with
  | |- context [sys ?c ?sem ?w] =>
      base_world w;
      let r := fresh "r" in let w' := fresh "w" in let E := fresh "E" in
      destruct (sys c sem w) as [r w'] eqn:E; simpl
  | |- context [@ask ?A ?c ?sem ?w] =>
      base_world w;
      let r := fresh "r" in let w' := fresh "w" in let E := fresh "E" in
      destruct (@ask A c sem w) as [r w'] eqn:E; simpl
  end.

Ltac tidy_world :=
  cbn [fst snd env openFiles oustandingPerNode IgnorePerms versioner cm
       Availability set_env set_openFiles set_oustandingPerNode
       fs tick oracle local log file_Close note updateLocal] in *.

Tactic Notation "exec_sys" "as" ident(r) ident(w') ident(E) :=
  tidy;
  match goal with
  | |- context [sys ?c ?sem ?w] =>
      base_world w; destruct (sys c sem w) as [r w'] eqn:E; tidy
  end.

Tactic Notation "exec_ask" "as" ident(r) ident(w') ident(E) :=
  tidy;
  match goal with
  | |- context [@ask ?A ?c ?sem ?w] =>
      base_world w; destruct (@ask A c sem w) as [r w'] eqn:E; tidy
  end.

(** The log after a run of calls, as the log before and what was added. *)
Ltac log_facts :=
  repeat match goal with
  | E : sys _ _ _ = (_, _) |- _ => apply sys_inv in E as (? & ? & _ & _ & _)
  | E : ask _ _ _ = (_, _) |- _ => apply ask_inv in E as (-> & _ & _)
  end; tidy_world.

Ltac log_chain :=
  tidy_world;
  repeat match goal with
  | H : log ?w = _ |- context [log ?w] => rewrite H
  end;
  rewrite <- ?app_assoc; reflexivity.

(** An event is in a list that is written out. *)
Ltac find_event :=
  solve [repeat first [apply list_elem_of_here | apply list_elem_of_further]].

Ltac case_var :=
  match goal with
  | |- context [match ?x with _ => _ end] => is_var x; destruct x; tidy
  end.

Ltac no_match c :=
  lazymatch c with
  | context [match _ with _ => _ end] => fail
  | _ => idtac
  end.

Ltac case_test :=
  tidy;
  match goal with
  | |- context [match ?c with _ => _ end] =>
      base_world c; no_match c; destruct c eqn:?; tidy
  end.

Ltac unfold_calls :=
  unfold os_Stat, os_MkdirAll, os_Create, os_Open, os_Remove, os_Chmod,
    os_Chtimes, osutil_Rename, versioner_Archive, rehash, file_WriteAt,
    file_ReadAt in *.

Ltac exec := step_monad; unfold_calls; step_monad; simpl;
  repeat first [exec_call | case_var | case_test].

(** The handlers below never panic and, besides the tables they are meant
    to change, touch only the environment. *)

Lemma finalize_frame f ofile p :
  ∃ w', finalize f ofile p = Done tt (set_env w' p).
Proof. unfold finalize. exec; eexists; reflexivity. Qed.

Lemma closeFile_frame f p :
  ∃ w', closeFile f p =
        Done tt (set_env w' (set_openFiles (delete (Name f) (openFiles p)) p)).
Proof.
  unfold closeFile. step_monad.
  match goal with
  | |- context [finalize ?f ?o ?q] => destruct (finalize_frame f o q) as [w' ->]
  end.
  simpl. eexists. reflexivity.
Qed.

(** C7. A block item of a regular file whose open file already carries a
    sticky error is fully handled on the spot: [handleBlock] returns [true]
    without any call to the environment (no copy, no request, no
    empty-block handling), the activity map is untouched, and the entry
    leaves the table exactly when the item is the last one. *)
Theorem handleBlock_sticky_error b p ofile e :
  IsDirectory (Flags (bq_file b)) = false →
  openFiles p !! Name (bq_file b) = Some ofile →
  of_err ofile = Some e →
  ∃ p', handleBlock b p = Done true p'
    ∧ env p' = env p
    ∧ oustandingPerNode p' = oustandingPerNode p
    ∧ openFiles p' =
        (if bq_last b then delete (Name (bq_file b)) (openFiles p) else openFiles p)
    ∧ (openFiles p' !! Name (bq_file b) = None ↔ bq_last b = true).
Proof.
  intros Hdir Hentry Herr. unfold handleBlock. rewrite Hdir.
  step_monad. rewrite Hentry. simpl. rewrite Herr.
  destruct (bq_last b) eqn:Hlast; eexists; (split; [reflexivity|]); simpl;
    repeat split; try done.
  - intros _. apply lookup_delete_eq.
  - rewrite Hentry. done.
Qed.

(** C9. A request result takes one off the counter of the node it came
    from, whatever happens to the result afterwards: nothing else in the
    activity map moves, and when the result is dropped (no open file, or an
    open file with a sticky error) the decrement is the only effect. *)
Theorem handleRequestResult_decrements res p :
  ∃ p', handleRequestResult res p = Done tt p'
    ∧ oustandingPerNode p' =
        <[rr_node res := int_decr (default 0 (oustandingPerNode p !! rr_node res))]>
          (oustandingPerNode p)
    ∧ (- 2 ^ 63 < default 0 (oustandingPerNode p !! rr_node res) < 2 ^ 63 →
       oustandingPerNode p' !! rr_node res =
         Some (default 0 (oustandingPerNode p !! rr_node res) - 1))
    ∧ (∀ n, n ≠ rr_node res →
       oustandingPerNode p' !! n = oustandingPerNode p !! n)
    ∧ ((openFiles p !! Name (rr_file res) = None
        ∨ ∃ ofile e, openFiles p !! Name (rr_file res) = Some ofile
                     ∧ of_err ofile = Some e) →
       p' = set_oustandingPerNode (decrease (oustandingPerNode p) (rr_node res)) p).
Proof.
  pose (m' := decrease (oustandingPerNode p) (rr_node res)).
  assert (Hrest :
    m' = <[rr_node res := int_decr (default 0 (oustandingPerNode p !! rr_node res))]>
          (oustandingPerNode p)
    ∧ (- 2 ^ 63 < default 0 (oustandingPerNode p !! rr_node res) < 2 ^ 63 →
       m' !! rr_node res =
         Some (default 0 (oustandingPerNode p !! rr_node res) - 1))
    ∧ (∀ n, n ≠ rr_node res → m' !! n = oustandingPerNode p !! n)).
  { unfold m', decrease. split; [done|]. split.
    - intros Hlow. rewrite lookup_insert_eq. f_equal. by apply int_decr_exact.
    - intros n Hn. by rewrite lookup_insert_ne. }
  destruct Hrest as (H1 & H2 & H3).
  unfold handleRequestResult. step_monad.
  destruct (openFiles p !! Name (rr_file res)) as [ofile|] eqn:Hentry.
  - destruct (of_err ofile) as [e|] eqn:Herr.
    + eexists. split; [reflexivity|].
      split; [exact H1|]. split; [exact H2|]. split; [exact H3|]. done.
    + step_monad. cbn [of_done of_outstanding].
      destruct (of_done ofile && _).
      * match goal with
        | |- context [closeFile ?f ?q] => destruct (closeFile_frame f q) as [w' ->]
        end.
        eexists. split; [reflexivity|].
        split; [exact H1|]. split; [exact H2|]. split; [exact H3|].
        intros [?|(? & ? & ? & ?)]; congruence.
      * eexists. split; [reflexivity|].
        split; [exact H1|]. split; [exact H2|]. split; [exact H3|].
        intros [?|(? & ? & ? & ?)]; congruence.
  - eexists. split; [reflexivity|].
    split; [exact H1|]. split; [exact H2|]. split; [exact H3|]. done.
Qed.

(** C8. A block item of a directory is always fully handled and always
    ends in [updateLocal].  For a directory that is not deleted the only
    other calls are the [Stat] of its path and, when that reports the path
    missing, [MkdirAll] with mode 0777, which leaves a directory of that
    mode behind; for a deleted directory there is no other call at all, so
    nothing is removed from the tree here. *)
Theorem handleBlock_directory b p :
  IsDirectory (Flags (bq_file b)) = true →
  ∃ p' evs, handleBlock b p = Done true p'
    ∧ log (env p') = log (env p) ++ evs ++ [(CUpdateLocal (bq_file b), None)]
    ∧ local (env p') = <[Name (bq_file b) := bq_file b]> (local (env p))
    ∧ openFiles p' = openFiles p
    ∧ oustandingPerNode p' = oustandingPerNode p
    ∧ Forall (λ ev : event, ev.1 = CStat (Name (bq_file b))
                ∨ ev.1 = CMkdirAll (Name (bq_file b)) 0x1ff) evs
    ∧ (IsDeleted (Flags (bq_file b)) = true →
       evs = [] ∧ fs (env p') = fs (env p))
    ∧ (IsDeleted (Flags (bq_file b)) = false →
       (is_Some (fs (env p) !! Name (bq_file b)) → fs (env p') = fs (env p))
       ∧ (fs (env p) !! Name (bq_file b) = None →
          v_fail (oracle (env p) (tick (env p))) = false →
          ∃ r, evs = [(CStat (Name (bq_file b)), Some ENOENT);
                      (CMkdirAll (Name (bq_file b)) 0x1ff, r)]
            ∧ (r = None →
               ∃ now, fs (env p') !! Name (bq_file b)
                      = Some (mkInode true 0x1ff now [])))).
Proof.
  intros Hdir. unfold handleBlock. rewrite Hdir.
  destruct (IsDeleted (Flags (bq_file b))) eqn:Hdel; cbn [negb].
  - step_monad. exists (set_env (updateLocal (bq_file b) (env p)) p), [].
    cbn. split_and!; done.
  - step_monad. unfold os_Stat.
    destruct (ask _ _ (env p)) as [st w1] eqn:E1.
    apply ask_inv in E1 as (-> & Hcalm & Hfault). cbn [fst snd].
    assert (Hmissing : fs (env p) !! Name (bq_file b) = None →
              v_fail (oracle (env p) (tick (env p))) = false → st = inl ENOENT).
    { intros Hnone Hv. rewrite (Hcalm Hv). unfold fs_stat. by rewrite Hnone. }
    assert (Hpresent : is_Some (fs (env p) !! Name (bq_file b)) →
              ∀ e, st = inl e → IsNotExist e = false).
    { intros [i Hi] e ->.
      destruct (v_fail (oracle (env p) (tick (env p)))) eqn:Hv.
      - specialize (Hfault eq_refl). by injection Hfault as ->.
      - specialize (Hcalm eq_refl). unfold fs_stat in Hcalm.
        by rewrite Hi in Hcalm. }
    destruct st as [e|i].
    + destruct (IsNotExist e) eqn:Hne.
      * step_monad. unfold os_MkdirAll.
        match goal with
        | |- context [sys ?c ?sem ?w] => destruct (sys c sem w) as [r w2] eqn:E2
        end.
        apply sys_inv in E2 as (Hlog & Hloc & _ & _ & Hres). cbn in Hlog, Hloc, Hres.
        exists (set_env (updateLocal (bq_file b) w2) p),
               [(CStat (Name (bq_file b)), Some e);
                (CMkdirAll (Name (bq_file b)) 0x1ff, r)].
        cbn. rewrite Hlog, Hloc. rewrite <- !app_assoc. cbn.
        split_and!; try done.
        -- repeat (apply Forall_cons_2; [cbn; auto|]); apply Forall_nil_2.
        -- intros _. split.
           ++ intros Hsome. specialize (Hpresent Hsome e eq_refl). congruence.
           ++ intros Hnone Hv. specialize (Hmissing Hnone Hv).
              injection Hmissing as ->.
              exists r. split; [done|]. intros ->. destruct Hres as [_ Hmk].
              eexists. by apply fs_mkdirAll_creates in Hmk.
      * eexists (set_env (updateLocal (bq_file b) _) p),
               [(CStat (Name (bq_file b)), Some e)].
        split; [reflexivity|].
        cbn. rewrite <- !app_assoc. split_and!; try done.
        -- repeat (apply Forall_cons_2; [cbn; auto|]); apply Forall_nil_2.
        -- intros _. split; [done|].
           intros Hnone Hv. specialize (Hmissing Hnone Hv).
           injection Hmissing as ->. done.
    + eexists (set_env (updateLocal (bq_file b) _) p),
               [(CStat (Name (bq_file b)), None)].
      split; [reflexivity|].
      cbn. rewrite <- !app_assoc. split_and!; try done.
      * repeat (apply Forall_cons_2; [cbn; auto|]); apply Forall_nil_2.
      * intros _. split; [done|].
        intros Hnone Hv. specialize (Hmissing Hnone Hv). done.
Qed.

(** What a call leaves absent stays absent. *)
Lemma sys_remove_absent q w r w' (k : path) :
  sys (CRemove q) (fs_remove q) w = (r, w') →
  fs w !! k = None → fs w' !! k = None.
Proof.
  intros (_ & _ & _ & _ & Hres)%sys_inv Hk. destruct r.
  - destruct Hres as [-> _]. done.
  - destruct Hres as [_ Hrm]. by eapply fs_remove_lookup_None.
Qed.

Lemma sys_chmod_absent q m w r w' (k : path) :
  sys (CChmod q m) (fs_chmod q m) w = (r, w') →
  fs w !! k = None → fs w' !! k = None.
Proof.
  intros (_ & _ & _ & _ & Hres)%sys_inv Hk. destruct r.
  - destruct Hres as [-> _]. done.
  - destruct Hres as [_ Hrm]. by eapply fs_chmod_lookup_None.
Qed.

(** C10. The deletion branch of [handleEmptyBlock] without a versioner:
    after the temp file is removed and the destination made writable, the
    destination is removed, and [updateLocal] follows both when that
    succeeds and when it fails because the destination does not exist;
    after any other failure it does not.  A destination that is absent from
    the tree is such a case. *)
Theorem handleEmptyBlock_delete_absent b p :
  IsDeleted (Flags (bq_file b)) = true →
  versioner p = None →
  ∃ p' evs r, handleEmptyBlock b p = Done tt p'
    ∧ log (env p') =
        log (env p) ++ evs
          ++ (CRemove (of_filepath (default zeroOpenFile
                                      (openFiles p !! Name (bq_file b)))), r)
          :: (if decide (r = None ∨ r = Some ENOENT)
              then [(CUpdateLocal (bq_file b), None)] else [])
    ∧ Forall (λ ev : event, ∀ g, ev.1 ≠ CUpdateLocal g) evs
    ∧ (r = None ∨ r = Some ENOENT →
       local (env p') = <[Name (bq_file b) := bq_file b]> (local (env p)))
    ∧ (fs (env p) !! of_filepath (default zeroOpenFile
                                    (openFiles p !! Name (bq_file b))) = None →
       v_fail (oracle (env p) (tick (env p) + 2)%nat) = false →
       r = Some ENOENT).
Proof.
  intros Hdel Hnov. unfold handleEmptyBlock. rewrite Hdel.
  set (ofile := default zeroOpenFile (openFiles p !! Name (bq_file b))).
  step_monad. fold ofile.
  match goal with
  | |- context [(if bq_last b then ?A else ?B) p] =>
      assert (Hrun : ∃ pre w0,
            Forall (λ ev : event, ∀ g, ev.1 ≠ CUpdateLocal g) pre
            ∧ w0 = mkWorld (fs (env p)) (local (env p)) (tick (env p))
                     (oracle (env p)) (log (env p) ++ pre)
            ∧ (if bq_last b then A else B) p = Done tt (set_env w0 p))
  end.
  { assert (Hnil : ∃ pre w0,
            Forall (λ ev : event, ∀ g, ev.1 ≠ CUpdateLocal g) pre
            ∧ w0 = mkWorld (fs (env p)) (local (env p)) (tick (env p))
                     (oracle (env p)) (log (env p) ++ pre)
            ∧ Done tt p = Done tt (set_env w0 p)).
    { exists [], (env p). rewrite app_nil_r. split; [constructor|].
      split; [by destruct (env p)|by destruct p]. }
    destruct (bq_last b); [destruct (of_err ofile)|]; try exact Hnil.
    exists [(CClose (of_file ofile), None)], (file_Close (of_file ofile) (env p)).
    split; [|done]. apply Forall_cons_2; [done|constructor]. }
  destruct Hrun as (pre & w0 & Hpre & Hw0 & Hrun).
  rewrite Hrun. step_monad. rewrite Hnov. unfold os_Remove, os_Chmod.
  exec_sys as r1 w1 E1. exec_sys as r2 w2 E2. exec_sys as r w3 E3.
  pose proof (sys_remove_absent _ _ _ _ (of_filepath ofile) E1) as Habs1.
  pose proof (sys_chmod_absent _ _ _ _ _ (of_filepath ofile) E2) as Habs2.
  apply sys_inv in E1 as (Hl1 & Hc1 & Ho1 & Ht1 & _).
  apply sys_inv in E2 as (Hl2 & Hc2 & Ho2 & Ht2 & _).
  apply sys_inv in E3 as (Hl3 & Hc3 & Ho3 & Ht3 & Hres).
  assert (Hlog3 : log w3 = log (env p)
            ++ (pre ++ [(CRemove (of_temp ofile), r1);
                        (CChmod (of_filepath ofile) 438, r2)])
            ++ [(CRemove (of_filepath ofile), r)]).
  { rewrite Hl3, Hl2, Hl1, Hw0. cbn. by rewrite <- !app_assoc. }
  assert (Hloc3 : local w3 = local (env p)).
  { rewrite Hc3, Hc2, Hc1, Hw0. done. }
  assert (Hpre' : Forall (λ ev : event, ∀ g, ev.1 ≠ CUpdateLocal g)
            (pre ++ [(CRemove (of_temp ofile), r1);
                     (CChmod (of_filepath ofile) 438, r2)])).
  { apply Forall_app. split; [done|]. repeat (apply Forall_cons_2; [done|]).
    constructor. }
  assert (Habsent : fs (env p) !! of_filepath ofile = None →
            v_fail (oracle (env p) (tick (env p) + 2)%nat) = false →
            r = Some ENOENT).
  { intros Hnone Hv.
    assert (Hnone2 : fs w2 !! of_filepath ofile = None).
    { apply Habs2, Habs1. by rewrite Hw0. }
    assert (Hv2 : v_fail (oracle w2 (tick w2)) = false).
    { rewrite Ho2, Ho1, Ht2, Ht1, Hw0. cbn.
      by replace (S (S (tick (env p)))) with (tick (env p) + 2)%nat by lia. }
    unfold fs_remove in Hres. rewrite Hnone2 in Hres.
    destruct r as [e|].
    - destruct Hres as [_ Hres]. specialize (Hres Hv2). congruence.
    - destruct Hres as [_ Hres]. done. }
  set (evs := pre ++ [(CRemove (of_temp ofile), r1);
                      (CChmod (of_filepath ofile) 438, r2)]) in *.
  destruct r as [e|].
  - destruct (IsNotExist e) eqn:Hne.
    + destruct e; try discriminate Hne.
      eexists _, evs, (Some ENOENT). split; [reflexivity|]. cbn.
      rewrite decide_True by auto. rewrite Hlog3, Hloc3.
      rewrite <- ?app_assoc. split_and!; done.
    + eexists _, evs, (Some e). split; [reflexivity|]. cbn.
      rewrite decide_False by (intros [?|[= ->]]; done).
      rewrite Hlog3. rewrite <- ?app_assoc. split_and!; try done.
      intros [?|[= ->]]; done.
  - eexists _, evs, None. split; [reflexivity|]. cbn.
    rewrite decide_True by auto. rewrite Hlog3, Hloc3.
    rewrite <- ?app_assoc. split_and!; done.
Qed.

(** C3. When the temp file is reopened and re-hashed and its blocks do not
    match the target's (another number of blocks, or a block with another
    hash), [closeFile] stops there: the calls it makes are the close, the
    reopening, the re-hash, the close and the deferred remove of the temp
    file, so there is no rename, no archival and no [updateLocal]; the
    model's local list is unchanged; no path other than the temp file and
    the directory that held it changes, so the destination is as it was;
    and the temp file is gone once its remove succeeds, which it does
    unless the operating system refuses it. *)
Theorem closeFile_hash_mismatch f p ofile i :
  openFiles p !! Name f = Some ofile →
  fs (env p) !! of_temp ofile = Some i →
  i_dir i = false →
  v_fail (oracle (env p) (tick (env p))) = false →
  v_fail (oracle (env p) (S (tick (env p)))) = false →
  mismatch (scanner_Blocks (i_data i)) (Blocks f) →
  ∃ p' r, closeFile f p = Done tt p'
    ∧ log (env p') =
        log (env p) ++
          [(CCloseFile (Name f), None);
           (CClose (of_file ofile), None);
           (COpen (of_temp ofile), None);
           (CBlocks (of_temp ofile) (scanner_Blocks (i_data i)), None);
           (CClose (Some (of_temp ofile)), None);
           (CRemove (of_temp ofile), r)]
    ∧ local (env p') = local (env p)
    ∧ openFiles p' = delete (Name f) (openFiles p)
    ∧ (∀ q, q ≠ of_temp ofile → q ≠ Dir (of_temp ofile) →
         fs (env p') !! q = fs (env p) !! q)
    ∧ (r = None → fs (env p') !! of_temp ofile = None)
    ∧ (v_fail (oracle (env p) (S (S (tick (env p))))) = false → r = None).
Proof.
  intros Hentry Htemp Hfile Hv0 Hv1 Hmis.
  unfold closeFile. step_monad. rewrite Hentry.
  change (default zeroOpenFile (Some ofile)) with ofile.
  unfold finalize, rehash. step_monad. unfold os_Open.
  rewrite ask_world. rewrite ask_calm by (cbn; exact Hv0).
  cbn [fs tick oracle local log file_Close note]. unfold fs_open.
  rewrite Htemp. tidy. cbn [tick oracle fs local log]. rewrite Hv1, Htemp, Hfile.
  apply verify_spec in Hmis.
  assert (Hstop : ∀ (X : M unit),
    (if negb (bool_decide (length (scanner_Blocks (i_data i)) = length (Blocks f)))
     then λ p0, Done tt p0
     else if hashesDiffer (scanner_Blocks (i_data i)) (Blocks f)
          then λ p0, Done tt p0 else X) = (λ p0, Done tt p0)).
  { intros X. destruct (negb _); [done|]. simpl in Hmis. by rewrite Hmis. }
  rewrite Hstop. unfold os_Remove.
  exec_sys as r w' E.
  apply sys_inv in E as (Hlog & Hloc & Hor & Htick & Hres).
  tidy_world.
  exists (set_env w' (set_openFiles (delete (Name f) (openFiles p)) p)), r.
  split; [reflexivity|]. cbn [env openFiles set_env set_openFiles].
  split_and!.
  - rewrite Hlog. by rewrite <- !app_assoc.
  - done.
  - done.
  - intros q Hq Hdir. destruct r as [e|].
    + by destruct Hres as [-> _].
    + destruct Hres as [_ Hrm]. unfold fs_remove in Hrm.
      rewrite Htemp, Hfile in Hrm. simpl in Hrm. injection Hrm as <-.
      unfold touch. rewrite lookup_alter_ne by done. by rewrite lookup_delete_ne.
  - intros ->. destruct Hres as [_ Hrm]. unfold fs_remove in Hrm.
    rewrite Htemp, Hfile in Hrm. simpl in Hrm. injection Hrm as <-.
    apply touch_lookup_None, lookup_delete_eq.
  - intros Hv2. destruct r as [e|]; [|done]. destruct Hres as [_ Hrm].
    specialize (Hrm Hv2). unfold fs_remove in Hrm.
    rewrite Htemp, Hfile in Hrm. done.
Qed.

(** X23. Of the steps of [closeFile], three abort it when
    they fail: reopening the temp file, the hash verification and the
    archival of the destination; after any of them there is no rename and
    no [updateLocal].  A failed rename is not followed by [updateLocal].
    Setting the modification time and setting the mode are different: their
    errors are only logged, so when the temp file was reopened, its hashes
    match and the archival (if any) went through, the rename is attempted
    whatever became of them, and [updateLocal] follows a successful rename. *)
Theorem closeFile_abort f p :
  ∃ p' evs, closeFile f p = Done tt p'
    ∧ log (env p') = log (env p) ++ evs
    ∧ ((∃ e, (COpen (of_temp (default zeroOpenFile (openFiles p !! Name f))), Some e) ∈ evs)
       ∨ (∃ hb, (CBlocks (of_temp (default zeroOpenFile (openFiles p !! Name f))) hb, None) ∈ evs
                ∧ mismatch hb (Blocks f))
       ∨ (∃ e, (CArchive (of_filepath (default zeroOpenFile (openFiles p !! Name f))), Some e) ∈ evs)
       → (∀ src dst r, (CRename src dst, r) ∉ evs) ∧ (∀ g r, (CUpdateLocal g, r) ∉ evs))
    ∧ ((∃ src dst e, (CRename src dst, Some e) ∈ evs) → ∀ g r, (CUpdateLocal g, r) ∉ evs)
    ∧ ((COpen (of_temp (default zeroOpenFile (openFiles p !! Name f))), None) ∈ evs →
       (∀ hb, (CBlocks (of_temp (default zeroOpenFile (openFiles p !! Name f))) hb, None) ∈ evs
              → ¬ mismatch hb (Blocks f)) →
       (∀ q e, (CArchive q, Some e) ∉ evs) →
       ∃ r, (CRename (of_temp (default zeroOpenFile (openFiles p !! Name f)))
                     (of_filepath (default zeroOpenFile (openFiles p !! Name f))), r) ∈ evs
            ∧ (r = None → (CUpdateLocal f, None) ∈ evs)).
Proof.
  set (ofile := default zeroOpenFile (openFiles p !! Name f)).
  unfold closeFile, finalize, rehash. step_monad. fold ofile. unfold_calls.
  step_monad. exec_ask as fd w1 E1. destruct fd as [e|[]]; tidy.
  - exec_sys as r w2 E2. log_facts.
    eexists _, _. split; [reflexivity|]. tidy. split; [log_chain|].
    cbn [app]. split_and!.
    + intros _. split; intros; set_solver.
    + intros (? & ? & ? & ?). set_solver.
    + intros ?. set_solver.
  - tidy_world.
    match goal with |- context [CBlocks _ ?X] => generalize X; intros hb end.
    destruct (negb (bool_decide (length hb = length (Blocks f)))
              || hashesDiffer hb (Blocks f)) eqn:Hverify.
    + assert (Hm : mismatch hb (Blocks f)) by (by apply verify_spec).
      destruct (bool_decide (length hb = length (Blocks f)));
        simpl in Hverify |- *; rewrite ?Hverify;
      exec_sys as r w2 E2; log_facts;
      (eexists _, _; split; [reflexivity|]; tidy; split; [log_chain|];
       cbn [app]; split_and!;
       [ intros _; split; intros; set_solver
       | intros (? & ? & ? & ?); set_solver
       | intros _ Hall _; exfalso; apply (Hall hb); [set_solver|done] ]).
    + assert (Hm : ¬ mismatch hb (Blocks f)).
      { rewrite <- verify_spec. by rewrite Hverify. }
      apply orb_false_iff in Hverify as [-> ->].
      repeat first [exec_call | case_var | case_test]; log_facts;
        (eexists _, _; split; [reflexivity|]; tidy; tidy_world;
         split; [log_chain|]; cbn [app]; split_and!;
         [ intros [(? & Hin)|[(hb' & Hin & Hmis)|(? & Hin)]];
           [ split; intros; set_solver
           | assert (hb' = hb) as -> by set_solver; done
           | split; intros; set_solver ]
         | intros (? & ? & ? & ?); set_solver
         | intros _ _ Harch;
           first [ by (exfalso; refine (Harch _ _ _); find_event)
                 | (eexists; split;
                    [ find_event
                    | first [ discriminate 1 | intros _; find_event ] ]) ] ]).
Qed.

(** *** What a handler adds to the log *)


Global Instance adds_preorder P : PreOrder (adds P).
Proof.
  split.
  - intros p. exists []. by rewrite app_nil_r.
  - intros p1 p2 p3 (e1 & H1 & HP1) (e2 & H2 & HP2). exists (e1 ++ e2).
    split; [by rewrite H2, H1, app_assoc|by apply Forall_app].
Qed.


Section Runs.
Context (R : relation puller) `{!PreOrder R}.

Lemma runs_ret {A} (a : A) : runs R (ret a).
Proof. intros p. by exists a, p. Qed.

Lemma runs_gets {A} (g : puller → A) : runs R (gets g).
Proof. intros p. by exists (g p), p. Qed.

Lemma runs_bind {A B} (m : M A) (k : A → M B) :
  runs R m → (∀ a, runs R (k a)) → runs R (bind m k).
Proof.
  intros Hm Hk p. destruct (Hm p) as (a & p1 & Hrun & HR1).
  destruct (Hk a p1) as (c & p2 & Hrun2 & HR2).
  exists c, p2. unfold bind. rewrite Hrun. split; [done|by etrans].
Qed.

Lemma runs_modify (g : puller → puller) :
  (∀ p, R p (g p)) → runs R (modify g).
Proof. intros Hg p. by exists tt, (g p). Qed.

Lemma runs_world_do {A} (op : world → A * world) :
  (∀ p, R p (set_env (op (env p)).2 p)) → runs R (world_do op).
Proof. intros Hop p. eexists _, _. split; [reflexivity|]. apply Hop. Qed.

Lemma runs_world_mod (op : world → world) :
  (∀ p, R p (set_env (op (env p)) p)) → runs R (world_mod op).
Proof. intros Hop p. eexists _, _. split; [reflexivity|]. apply Hop. Qed.

End Runs.

Section Adds.
Context (P : event → Prop).

Lemma adds_tables p t : adds P p (set_openFiles t p).
Proof. exists []. by rewrite app_nil_r. Qed.

Lemma adds_activity p m : adds P p (set_oustandingPerNode m p).
Proof. exists []. by rewrite app_nil_r. Qed.

Lemma adds_sys (c : call) sem p :
  (∀ r, P (c, r)) → adds P p (set_env (sys c sem (env p)).2 p).
Proof.
  intros HP. exists [(c, (sys c sem (env p)).1)]. cbn. rewrite sys_log.
  split; [done|]. by apply Forall_singleton.
Qed.

Lemma adds_ask {A} (c : call) (sem : gmap path inode → error + A) p :
  (∀ r, P (c, r)) → adds P p (set_env (ask c sem (env p)).2 p).
Proof.
  intros HP. eexists [_]. cbn. rewrite ask_world. cbn.
  split; [done|]. by apply Forall_singleton.
Qed.

Lemma adds_note (c : call) p : P (c, None) → adds P p (set_env (note c (env p)) p).
Proof. intros HP. exists [(c, None)]. cbn. split; [done|]. by apply Forall_singleton. Qed.

Lemma adds_updateLocal g p :
  P (CUpdateLocal g, None) → adds P p (set_env (updateLocal g (env p)) p).
Proof. intros HP. exists [(CUpdateLocal g, None)]. cbn. split; [done|]. by apply Forall_singleton. Qed.

Lemma adds_WriteAt h data off p :
  (∀ q r, P (CWriteAt q data off, r)) →
  adds P p (set_env (file_WriteAt h data off (env p)).2 p).
Proof.
  intros HP. unfold file_WriteAt. destruct h as [q|]; [destruct data|].
  - exists []. cbn. by rewrite app_nil_r.
  - by apply adds_sys.
  - exists []. cbn. by rewrite app_nil_r.
Qed.

Lemma adds_ReadAt h n off p :
  (∀ q r, P (CReadAt q n off, r)) →
  adds P p (set_env (file_ReadAt h n off (env p)).2 p).
Proof.
  intros HP. unfold file_ReadAt. destruct h as [q|].
  - by apply adds_ask.
  - exists []. cbn. by rewrite app_nil_r.
Qed.

End Adds.

(** *** Only a request result finalizes a file *)


Lemma rehash_runs q : runs (adds not_closeFile) (rehash q).
Proof.
  apply runs_world_do. intros p. eexists [_]. cbn. split; [done|].
  by apply Forall_singleton.
Qed.

Ltac runs_step :=
  first
  [ match goal with |- PreOrder _ => apply _ end
  | apply rehash_runs
  | apply runs_ret
  | apply runs_gets
  | apply runs_bind; [..|intros ?]
  | apply runs_modify; intros ?; apply adds_tables
  | apply runs_world_do; intros ?;
    first [apply adds_sys | apply adds_ask | apply adds_WriteAt | apply adds_ReadAt];
    by intros
  | apply runs_world_mod; intros ?;
    first [apply adds_note | apply adds_updateLocal]; by intros
  | match goal with
    | |- runs _ (match ?x with _ => _ end) => destruct x
    end ].

Ltac runs_auto :=
  unfold store, drop_openFile, os_Stat, os_MkdirAll, os_Create, os_Open,
    os_Remove, os_Chmod, os_Chtimes, osutil_Rename, versioner_Archive;
  repeat runs_step.

Lemma copyBlocks_runs name ofile cs :
  runs (adds not_closeFile) (copyBlocks name ofile cs).
Proof.
  induction cs as [|c cs IH]; simpl.
  - runs_auto.
  - runs_auto. exact IH.
Qed.

Lemma handleCopyBlock_runs b : runs (adds not_closeFile) (handleCopyBlock b).
Proof. unfold handleCopyBlock. runs_auto. apply copyBlocks_runs. Qed.

Lemma handleEmptyBlock_runs b : runs (adds not_closeFile) (handleEmptyBlock b).
Proof. unfold handleEmptyBlock. runs_auto. Qed.

Lemma openNew_runs b ofile : runs (adds not_closeFile) (openNew b ofile).
Proof. unfold openNew. runs_auto. Qed.

(** [handleRequestBlock] panics on a file that is not open; [handleBlock]
    calls it right after it has stored the entry. *)
Lemma handleRequestBlock_runs b p ofile :
  openFiles p !! Name (bq_file b) = Some ofile →
  ∃ a p', handleRequestBlock b p = Done a p' ∧ adds not_closeFile p p'.
Proof.
  intros Hentry. unfold handleRequestBlock. unfold bind at 1, gets at 1.
  rewrite Hentry.
  match goal with
  | |- ∃ a p', ?m p = _ ∧ _ => assert (Hruns : runs (adds not_closeFile) m)
  end.
  { apply runs_bind; [apply _| |].
    - intros q. eexists _, _. split; [reflexivity|]. apply adds_activity.
    - intros node. runs_auto. }
  apply Hruns.
Qed.

Lemma handleBlock_runs b p :
  ∃ a p', handleBlock b p = Done a p' ∧ adds not_closeFile p p'.
Proof.
  unfold handleBlock. destruct (IsDirectory (Flags (bq_file b))).
  - revert p. change (runs (adds not_closeFile)
      ((if negb (IsDeleted (Flags (bq_file b)))
        then let* st := world_do (os_Stat (Name (bq_file b))) in
             match st with
             | inl e => if IsNotExist e
                        then world_do (os_MkdirAll (Name (bq_file b)) 0x1ff);; ret tt
                        else ret tt
             | inr _ => ret tt
             end
        else ret tt);; world_mod (updateLocal (bq_file b));; ret true)).
    runs_auto.
  - unfold bind at 1, gets at 1.
    set (ofile1 := mkOpenFile _ _ _ _ _ _ _).
    assert (Hopen : runs (adds not_closeFile)
              (match openFiles p !! Name (bq_file b) with
               | Some _ => ret (Some ofile1)
               | None => openNew b ofile1
               end)).
    { destruct (openFiles p !! _); [apply runs_ret; apply _|apply openNew_runs]. }
    destruct (Hopen p) as (opened & p1 & Hrun & Hadds).
    unfold bind at 1. rewrite Hrun.
    destruct opened as [ofile|]; [|by exists true, p1].
    destruct (of_err ofile).
    + assert (Hruns : runs (adds not_closeFile)
                ((if bq_last b then drop_openFile (Name (bq_file b)) else ret tt);;
                 ret true)) by runs_auto.
      destruct (Hruns p1) as (a & p2 & -> & Hadds2).
      exists a, p2. split; [done|by etrans].
    + unfold bind at 1, store, modify.
      set (p2 := set_openFiles _ p1).
      assert (Hadds2 : adds not_closeFile p p2) by (etrans; [done|apply adds_tables]).
      destruct (0 <? length (bq_copy b))%nat; [|destruct (Size (bq_block b) >? 0)].
      * assert (Hruns : runs (adds not_closeFile) (handleCopyBlock b;; ret true)).
        { apply runs_bind; [apply _|apply handleCopyBlock_runs|intros; apply runs_ret; apply _]. }
        destruct (Hruns p2) as (a & p3 & -> & Hadds3).
        exists a, p3. split; [done|by etrans].
      * destruct (handleRequestBlock_runs b p2 ofile) as (a & p3 & -> & Hadds3).
        { apply lookup_insert_eq. }
        exists a, p3. split; [done|by etrans].
      * assert (Hruns : runs (adds not_closeFile) (handleEmptyBlock b;; ret true)).
        { apply runs_bind; [apply _|apply handleEmptyBlock_runs|intros; apply runs_ret; apply _]. }
        destruct (Hruns p2) as (a & p3 & -> & Hadds3).
        exists a, p3. split; [done|by etrans].
Qed.

Lemma finalize_runs f ofile : runs (adds not_closeFile) (finalize f ofile).
Proof.
  unfold finalize. runs_auto.
Qed.

(** [closeFile] announces itself once, takes the entry out of the table
    and never panics. *)
Lemma closeFile_runs f p :
  ∃ p' post, closeFile f p = Done tt p'
    ∧ log (env p') = log (env p) ++ (CCloseFile (Name f), None) :: post
    ∧ Forall not_closeFile post
    ∧ openFiles p' = delete (Name f) (openFiles p)
    ∧ oustandingPerNode p' = oustandingPerNode p.
Proof.
  destruct (closeFile_frame f p) as [w' Hframe].
  pose proof Hframe as Hrest. unfold closeFile in Hrest.
  unfold bind at 1 in Hrest. unfold world_mod at 1 in Hrest.
  cbv beta iota in Hrest.
  match type of Hrest with
  | ?m ?q = _ =>
      assert (Hruns : runs (adds not_closeFile) m)
        by runs_auto;
      destruct (Hruns q) as ([] & p' & Hrun & post & Hlog & Hpost)
  end.
  rewrite Hrun in Hrest. injection Hrest as ->.
  eexists _, post. split; [exact Hframe|].
  cbn in *. rewrite Hlog, <- app_assoc. done.
Qed.

(** The handler of request results never looks at the error that the
    result carries. *)
Lemma handleRequestResult_ignores_err node f fp off data e1 e2 p :
  handleRequestResult (mkResult node f fp off data e1) p
  = handleRequestResult (mkResult node f fp off data e2) p.
Proof. reflexivity. Qed.

(** C5. [closeFile] runs from one place only, the handler of request
    results, once per result at most, and there only for an open file
    without a sticky error whose [done] flag is set and whose outstanding
    count has come down to zero with this result; block items never run it.
    Once it has run, the entry is out of the table, and a later result for
    the same name only touches the activity map: it adds nothing to the log
    and so cannot finalize again. *)
Theorem closeFile_once res p :
  ∃ p' pre post (fin : bool), handleRequestResult res p = Done tt p'
    ∧ log (env p') =
        log (env p) ++ pre
          ++ (if fin then (CCloseFile (Name (rr_file res)), None) :: post else [])
    ∧ Forall not_closeFile pre
    ∧ Forall not_closeFile post
    ∧ (fin = true ↔
       ∃ ofile, openFiles p !! Name (rr_file res) = Some ofile
                ∧ of_err ofile = None
                ∧ of_done ofile = true
                ∧ int_decr (of_outstanding ofile) = 0)
    ∧ (fin = true → openFiles p' !! Name (rr_file res) = None)
    ∧ (fin = true → ∀ res2, Name (rr_file res2) = Name (rr_file res) →
         ∃ p'', handleRequestResult res2 p' = Done tt p''
                ∧ env p'' = env p' ∧ openFiles p'' = openFiles p')
    ∧ (∀ b q, ∃ a q', handleBlock b q = Done a q' ∧ adds not_closeFile q q').
Proof.
  assert (Hblocks : ∀ b q, ∃ a q', handleBlock b q = Done a q'
                                   ∧ adds not_closeFile q q')
    by apply handleBlock_runs.
  unfold handleRequestResult. step_monad.
  destruct (openFiles p !! Name (rr_file res)) as [ofile|] eqn:Hentry.
  - destruct (of_err ofile) as [e|] eqn:Herr.
    + eexists _, [], [], false. split; [reflexivity|]. cbn.
      rewrite app_nil_r. split_and!; try done.
      split; [done|]. intros (o & [= <-] & ? & _). congruence.
    + step_monad. cbn [of_done of_outstanding].
      assert (Hpre : ∃ pre, Forall not_closeFile pre
                ∧ log (file_WriteAt (of_file ofile) (rr_data res) (rr_offset res) (env p)).2
                  = log (env p) ++ pre).
      { destruct (adds_WriteAt not_closeFile (of_file ofile) (rr_data res)
                    (rr_offset res) p) as (pre & Hlog & Hpre); [by intros|].
        exists pre. done. }
      destruct Hpre as (pre & Hpre & Hlog).
      destruct (of_done ofile) eqn:Hdone; cbn [andb].
      * destruct (int_decr (of_outstanding ofile) =? 0) eqn:Hzero.
        -- apply Z.eqb_eq in Hzero.
           match goal with
           | |- context [closeFile ?f ?q] =>
               destruct (closeFile_runs f q) as (p' & post & -> & Hl & Hpost & Ht & Hm)
           end.
           cbn in Hl, Ht, Hm.
           assert (Hgone : openFiles p' !! Name (rr_file res) = None).
           { rewrite Ht. apply lookup_delete_eq. }
           exists p', pre, post, true. split; [done|]. split_and!; try done.
           ++ rewrite Hl, Hlog. by rewrite <- app_assoc.
           ++ split; [|done]. intros _. by exists ofile.
           ++ intros _ res2 Hname. unfold handleRequestResult. step_monad.
              rewrite Hname, Hgone. eexists. done.
        -- eexists _, pre, [], false. split; [reflexivity|]. cbn.
           rewrite app_nil_r. split_and!; try done.
           split; [done|]. intros (o & [= <-] & _ & _ & Hz).
           apply Z.eqb_neq in Hzero. done.
      * eexists _, pre, [], false. split; [reflexivity|]. cbn.
        rewrite app_nil_r. split_and!; try done.
        split; [done|]. intros (o & [= <-] & _ & ? & _). congruence.
  - eexists _, [], [], false. split; [reflexivity|]. cbn.
    rewrite app_nil_r. split_and!; try done.
    split; [done|]. intros (o & ? & _). congruence.
Qed.

(** *** Bytes written and read back *)

Section Bytes.
Implicit Types (old data src : list Byte.byte) (off k n : nat).
Local Open Scope nat_scope.

Lemma write_at_length old data off :
  length (write_at old data off) = (off + length data) `max` length old.
Proof.
  unfold write_at. rewrite !length_app, length_take, length_app, length_replicate,
    length_drop. lia.
Qed.

Lemma write_at_lookup_written old data off k :
  off ≤ k < off + length data →
  write_at old data off !! k = data !! (k - off).
Proof.
  intros Hk. unfold write_at.
  assert (Hlen : length (take off (old ++ replicate (off - length old) Byte.x00)) = off).
  { rewrite length_take, length_app, length_replicate. lia. }
  rewrite lookup_app_r by lia. rewrite Hlen.
  rewrite lookup_app_l by lia. done.
Qed.

Lemma write_at_lookup_kept old data off k :
  k < length old → ¬ (off ≤ k < off + length data) →
  write_at old data off !! k = old !! k.
Proof.
  intros Hold Hk. unfold write_at.
  assert (Hlen : length (take off (old ++ replicate (off - length old) Byte.x00)) = off).
  { rewrite length_take, length_app, length_replicate. lia. }
  destruct (decide (k < off)) as [Hlt|Hge].
  - rewrite lookup_app_l by lia. rewrite lookup_take_lt by done.
    by rewrite lookup_app_l.
  - rewrite lookup_app_r by lia. rewrite Hlen.
    rewrite lookup_app_r by lia. rewrite lookup_drop. f_equal. lia.
Qed.

Lemma bytes_at_lookup l off n bs :
  bytes_at l off n = Some bs ↔
  length bs = n ∧ ∀ k, k < n → l !! (off + k) = bs !! k ∧ is_Some (bs !! k).
Proof.
  unfold bytes_at. destruct (Nat.ltb_spec (length (take n (drop off l))) n) as [Hlt|Hge];
    split.
  - done.
  - intros [Hlen Hall]. exfalso. rewrite length_take, length_drop in Hlt.
    destruct n as [|n]; [lia|].
    destruct (Hall n) as [Heq Hsome]; [lia|]. rewrite <- Heq in Hsome.
    apply lookup_lt_is_Some in Hsome. lia.
  - intros [= <-]. pose proof (length_take (drop off l) n) as Hl.
    split; [lia|].
    intros k Hk. rewrite lookup_take_lt, lookup_drop by done. split; [done|].
    apply lookup_lt_is_Some. rewrite length_take, length_drop in Hge. lia.
  - intros [Hlen Hall]. f_equal. apply list_eq. intros k.
    destruct (decide (k < n)) as [Hk|Hk].
    + rewrite lookup_take_lt, lookup_drop by done. by apply Hall.
    + rewrite lookup_take_ge by lia. symmetry. apply lookup_ge_None. lia.
Qed.

(** Writing at [off] what [src] has at [off]: the range just written
    reads back, and a range on which the file already agreed with [src]
    still agrees. *)
Lemma write_at_range_written old data off :
  bytes_at (write_at old data off) off (length data) = Some data.
Proof.
  apply bytes_at_lookup. split; [done|]. intros k Hk.
  rewrite write_at_lookup_written by lia.
  replace (off + k - off) with k by lia. split; [done|].
  by apply lookup_lt_is_Some.
Qed.

Lemma write_at_range_kept old src off n data off' n' bs :
  bytes_at src off n = Some data →
  bytes_at src off' n' = Some bs →
  bytes_at old off' n' = Some bs →
  bytes_at (write_at old data off) off' n' = Some bs.
Proof.
  intros Hdata Hsrc Hold.
  apply bytes_at_lookup in Hdata as [Hlen Hdata].
  apply bytes_at_lookup in Hsrc as [Hlen' Hsrc].
  apply bytes_at_lookup in Hold as [_ Hold].
  apply bytes_at_lookup. split; [done|]. intros k Hk.
  destruct (decide (off ≤ off' + k < off + length data)) as [Hin|Hout].
  - rewrite write_at_lookup_written by done.
    destruct (Hdata (off' + k - off)) as [Hd _]; [lia|].
    rewrite <- Hd. replace (off + (off' + k - off)) with (off' + k) by lia.
    by apply Hsrc.
  - destruct (Hold k Hk) as [Heq Hsome].
    rewrite write_at_lookup_kept; [done| |done].
    rewrite <- Heq in Hsome. by apply lookup_lt_is_Some.
Qed.

End Bytes.

Implicit Types (t : gmap path inode) (q : path).

Lemma fs_readAt_inr q n off t bs :
  fs_readAt q n off t = inr bs ↔
  0 ≤ off ∧ ∃ i, t !! q = Some i ∧ i_dir i = false
    ∧ bytes_at (i_data i) (Z.to_nat off) (Z.to_nat n) = Some bs.
Proof.
  unfold fs_readAt, bytes_at. destruct (Z.ltb_spec off 0) as [Hneg|Hpos].
  - split; [done|]. intros [? _]. lia.
  - destruct (t !! q) as [i|]; [|split; [done|by intros (_ & ? & ? & _)]].
    destruct (i_dir i) eqn:Hdir.
    + split; [done|]. intros (_ & ? & [= <-] & ? & _). congruence.
    + cbv zeta. destruct (_ <? _)%nat eqn:Hlt.
      * split; [done|]. intros (_ & ? & [= <-] & _ & Hbs). by rewrite Hlt in Hbs.
      * split.
        -- intros [= <-]. split; [done|]. exists i. by rewrite Hlt.
        -- intros (_ & ? & [= <-] & _ & Hbs). rewrite Hlt in Hbs. by injection Hbs as <-.
Qed.

Lemma fs_readAt_ext q n off t t' :
  t' !! q = t !! q → fs_readAt q n off t' = fs_readAt q n off t.
Proof. intros H. unfold fs_readAt. by rewrite H. Qed.

Lemma fs_writeAt_inr q data off now t t' :
  fs_writeAt q data off now t = inr t' →
  0 ≤ off ∧ ∃ i, t !! q = Some i ∧ i_dir i = false
    ∧ t' = <[q := set_data now (write_at (i_data i) data (Z.to_nat off)) i]> t.
Proof.
  unfold fs_writeAt. destruct (Z.ltb_spec off 0); [done|].
  destruct (t !! q) as [i|]; [|done]. destruct (i_dir i) eqn:Hdir; [done|].
  intros [= <-]. split; [done|]. by exists i.
Qed.

(** *** Which block items keep their slot *)

Global Instance same_activity_preorder : PreOrder same_activity.
Proof. split; [by intros p|]. intros p1 p2 p3 H1 H2. unfold same_activity in *. congruence. Qed.

Lemma runs_both (R1 R2 : relation puller) {A} (m : M A) :
  runs R1 m → runs R2 m → runs (λ p p', R1 p p' ∧ R2 p p') m.
Proof.
  intros H1 H2 p. destruct (H1 p) as (a & p' & Hrun & HR1).
  destruct (H2 p) as (a' & p'' & Hrun' & HR2).
  rewrite Hrun in Hrun'. injection Hrun' as <- <-. by exists a, p'.
Qed.

Ltac frame_step :=
  first
  [ match goal with |- PreOrder _ => apply _ end
  | apply runs_ret
  | apply runs_gets
  | apply runs_bind; [..|intros ?]
  | apply runs_modify; intros ?; reflexivity
  | apply runs_world_do; intros ?; reflexivity
  | apply runs_world_mod; intros ?; reflexivity
  | match goal with
    | |- runs _ (match ?x with _ => _ end) => destruct x
    end ].

Ltac frame_auto := unfold store, drop_openFile; repeat frame_step.

Global Instance quiet_preorder : PreOrder quiet.
Proof.
  split.
  - intros p. split; reflexivity.
  - intros p1 p2 p3 [H1 H2] [H3 H4]. split; by etrans.
Qed.

Lemma copyBlocks_quiet name ofile cs : runs quiet (copyBlocks name ofile cs).
Proof.
  apply runs_both.
  - induction cs as [|c cs IH]; simpl; runs_auto. exact IH.
  - induction cs as [|c cs IH]; simpl; frame_auto. exact IH.
Qed.

Lemma handleCopyBlock_quiet b : runs quiet (handleCopyBlock b).
Proof.
  unfold handleCopyBlock.
  apply runs_bind; [apply _|apply runs_gets; apply _|intros ofile].
  apply runs_bind; [apply _| |intros [e|[]]].
  - apply runs_both; [runs_auto|frame_auto].
  - apply runs_both; [runs_auto|frame_auto].
  - apply copyBlocks_quiet.
Qed.

Lemma handleEmptyBlock_quiet b : runs quiet (handleEmptyBlock b).
Proof. apply runs_both; unfold handleEmptyBlock; [runs_auto|frame_auto]. Qed.

Lemma openNew_quiet b ofile : runs quiet (openNew b ofile).
Proof. apply runs_both; unfold openNew; [runs_auto|frame_auto]. Qed.

Lemma openNew_entry b ofile p o p' :
  openNew b ofile p = Done (Some o) p' →
  o = mkOpenFile (Name (bq_file b)) (TempName (Name (bq_file b)))
        (wrap_u64 (Availability p (Name (bq_file b))))
        (Some (TempName (Name (bq_file b)))) None
        (of_outstanding ofile) (of_done ofile)
  ∧ openFiles p' = openFiles p.
Proof.
  unfold openNew. exec; intros [= <- <-]; done.
Qed.

(** What [leastBusyNode] hands back is the empty name or a candidate
    among the connected peers. *)
Lemma leastBusy_pick (m : gmap string Z) availability (c : cidMap) :
  (leastBusyNode m availability c).1 = ""%string
  ∨ ((leastBusyNode m availability c).1 ∈ Names c
     ∧ candidate availability c (leastBusyNode m availability c).1).
Proof.
  unfold leastBusyNode. cbn [fst].
  generalize (Z.shiftl 2 30 - 1). intros low.
  induction (Names c) as [|x l IH] using rev_ind; [by left|].
  rewrite foldl_app. cbn [foldl].
  set (r := foldl (leastBusyStep m availability c) (low, ""%string) l) in *.
  assert (Hstep : leastBusyStep m availability c r x = r
                  ∨ ((leastBusyStep m availability c r x).2 = x
                     ∧ candidate availability c x)).
  { unfold leastBusyStep. case_bool_decide as Hid; [by left|].
    destruct (has_bit availability (Get c x)) eqn:Hbit; [|by left].
    destruct (default 0 (m !! x) <? r.1); [|by left]. right. by split. }
  destruct Hstep as [->|[-> Hc]].
  - destruct IH as [?|[? ?]]; [by left|right; split; [set_solver|done]].
  - right. split; [set_solver|done].
Qed.

Lemma handleRequestBlock_dispatch b p ofile :
  openFiles p !! Name (bq_file b) = Some ofile →
  ∃ a p' evs, handleRequestBlock b p = Done a p'
    ∧ log (env p') = log (env p) ++ evs
    ∧ local (env p') = local (env p)
    ∧ oustandingPerNode p' =
        (leastBusyNode (oustandingPerNode p) (of_availability ofile) (cm p)).2
    ∧ ((leastBusyNode (oustandingPerNode p) (of_availability ofile) (cm p)).1 = ""%string →
       a = true
       ∧ (∃ r, evs = match of_file ofile with
                | Some h => [(CClose (Some h), None); (CRemove (of_temp ofile), r)]
                | None => []
                end)
       ∧ openFiles p' =
           (if bq_last b then delete (Name (bq_file b)) (openFiles p)
            else <[Name (bq_file b) := set_file None (set_err (Some errNoNode) ofile)]>
                   (openFiles p)))
    ∧ ((leastBusyNode (oustandingPerNode p) (of_availability ofile) (cm p)).1 ≠ ""%string →
       a = false
       ∧ evs = [(CRequestGlobal
                   (leastBusyNode (oustandingPerNode p) (of_availability ofile) (cm p)).1
                   (Name (bq_file b)) (Offset (bq_block b)) (Size (bq_block b)), None)]
       ∧ fs (env p') = fs (env p)
       ∧ openFiles p' =
           <[Name (bq_file b) :=
               mkOpenFile (of_filepath ofile) (of_temp ofile) (of_availability ofile)
                 (of_file ofile) (of_err ofile) (int_incr (of_outstanding ofile))
                 (of_done ofile)]> (openFiles p)).
Proof.
  intros Hentry. unfold handleRequestBlock. step_monad. rewrite Hentry.
  set (r := leastBusyNode _ _ _). cbn [fst snd].
  case_bool_decide as Hlen.
  - assert (Hsel : r.1 = ""%string) by (by destruct (r.1)).
    step_monad. cbn [set_err of_file of_temp].
    destruct (of_file ofile) as [h|] eqn:Hfile.
    + unfold os_Remove. exec_sys as r1 w1 E1.
      apply sys_inv in E1 as (Hlog & Hloc & _). tidy_world.
      rewrite <- app_assoc in Hlog.
      destruct (bq_last b); step_monad;
        (eexists _, _, _; split; [reflexivity|]; tidy; split; [exact Hlog|];
         split; [done|]; split; [done|]; split; [|done]; intros _;
         split; [done|]; split; [by eexists|]; done).
    + destruct (bq_last b); step_monad;
        (eexists _, _, []; split; [reflexivity|]; tidy;
         split; [by rewrite app_nil_r|]; split; [done|]; split; [done|];
         split; [|done]; intros _; split; [done|]; split; [by exists None|]).
      * done.
      * unfold set_file, set_err. cbn. by rewrite Hfile.
  - assert (Hsel : r.1 ≠ ""%string) by (intros Heq; by rewrite Heq in Hlen).
    step_monad. eexists _, _, _. split; [reflexivity|]. tidy_world.
    split; [done|]. split; [done|]. split; [done|]. split; [done|]. intros _. done.
Qed.

Lemma quiet_then_true (m : M unit) p :
  runs quiet m → ∃ p', (m ;; ret true) p = Done true p' ∧ quiet p p'.
Proof.
  intros Hm. destruct (Hm p) as ([] & p' & Hrun & Hq).
  exists p'. unfold bind, ret. by rewrite Hrun.
Qed.

(** X4. [handleBlock] never panics, and it keeps the slot (returns
    [false]) exactly when it has sent a request: the last thing it did was
    then the request of this block's range to a connected peer that is not
    the local one, the count of that peer went up by one, and the entry of
    the file has no error and one more request outstanding.  When it gives
    the slot back (returns [true]) it has sent no request and no peer's
    count has moved; only the count filed under the empty name may have. *)
Theorem handleBlock_slot_accounting b p :
  ∃ a p' evs, handleBlock b p = Done a p'
    ∧ log (env p') = log (env p) ++ evs
    ∧ (a = true →
       Forall no_request evs
       ∧ ∀ n, n ≠ ""%string → oustandingPerNode p' !! n = oustandingPerNode p !! n)
    ∧ (a = false →
       ∃ pre node ofile,
         evs = pre ++ [(CRequestGlobal node (Name (bq_file b))
                          (Offset (bq_block b)) (Size (bq_block b)), None)]
         ∧ Forall no_request pre
         ∧ node ∈ Names (cm p) ∧ Get (cm p) node ≠ LocalID ∧ node ≠ ""%string
         ∧ oustandingPerNode p' =
             <[node := int_incr (usage (oustandingPerNode p) node)]> (oustandingPerNode p)
         ∧ openFiles p' !! Name (bq_file b) = Some ofile
         ∧ of_err ofile = None
         ∧ of_outstanding ofile =
             int_incr (of_outstanding (default zeroOpenFile
                                         (openFiles p !! Name (bq_file b))))).
Proof.
  assert (Hquiet : ∀ p', quiet p p' →
    ∃ evs, log (env p') = log (env p) ++ evs
      ∧ (true = true →
         Forall no_request evs
         ∧ ∀ n, n ≠ ""%string → oustandingPerNode p' !! n = oustandingPerNode p !! n)
      ∧ (true = false →
       ∃ pre node ofile,
         evs = pre ++ [(CRequestGlobal node (Name (bq_file b))
                          (Offset (bq_block b)) (Size (bq_block b)), None)]
         ∧ Forall no_request pre
         ∧ node ∈ Names (cm p) ∧ Get (cm p) node ≠ LocalID ∧ node ≠ ""%string
         ∧ oustandingPerNode p' =
             <[node := int_incr (usage (oustandingPerNode p) node)]> (oustandingPerNode p)
         ∧ openFiles p' !! Name (bq_file b) = Some ofile
         ∧ of_err ofile = None
         ∧ of_outstanding ofile =
             int_incr (of_outstanding (default zeroOpenFile
                                         (openFiles p !! Name (bq_file b)))))).
  { intros p' [(evs & Hlog & Hevs) Hact]. exists evs. split; [done|].
    split; [|done]. intros _. split; [done|]. intros n _. by rewrite Hact. }
  unfold handleBlock. destruct (IsDirectory (Flags (bq_file b))).
  - match goal with
    | |- ∃ a p' evs, (?m ;; ?k) p = _ ∧ _ =>
        destruct (quiet_then_true (m ;; world_mod (updateLocal (bq_file b))) p)
          as (p' & Hrun & Hq)
    end.
    { apply runs_both; [runs_auto|].
      repeat first
        [ match goal with |- PreOrder _ => apply _ end
        | apply runs_ret | apply runs_gets | apply runs_bind; [..|intros ?]
        | apply runs_world_do; intros ?; reflexivity
        | apply runs_world_mod; intros ?; reflexivity
        | match goal with
          | |- runs _ (match ?x with _ => _ end) => destruct x
          end ]. }
    destruct (Hquiet p' Hq) as (evs & Hrest). exists true, p', evs.
    split; [|done]. unfold bind, world_mod, ret in Hrun |- *.
    match goal with
    | |- match ?m p with _ => _ end = _ => destruct (m p) as [[] p0|msg]
    end; [|done]. by injection Hrun as <-.
  - unfold bind at 1, gets at 1.
    set (entry := openFiles p !! Name (bq_file b)).
    set (ofile1 := mkOpenFile _ _ _ _ _ _ _).
    assert (Hopen : ∃ opened p1,
              match entry with
              | Some _ => ret (Some ofile1)
              | None => openNew b ofile1
              end p = Done opened p1
              ∧ quiet p p1
              ∧ ∀ o, opened = Some o →
                  of_outstanding o = of_outstanding (default zeroOpenFile entry)).
    { destruct entry as [o0|] eqn:Hentry.
      - exists (Some ofile1), p. split; [done|]. split; [reflexivity|].
        by intros o [= <-].
      - destruct (openNew_quiet b ofile1 p) as (opened & p1 & Hrun & Hq).
        exists opened, p1. split; [done|]. split; [done|].
        intros o ->. by apply openNew_entry in Hrun as [-> _]. }
    destruct Hopen as (opened & p1 & Hrun & Hq1 & Hout).
    unfold bind at 1. rewrite Hrun.
    destruct opened as [ofile|].
    2:{ destruct (Hquiet p1 Hq1) as (evs & Hrest). by exists true, p1, evs. }
    specialize (Hout ofile eq_refl).
    destruct (of_err ofile) eqn:Herr.
    + destruct (quiet_then_true
                  (if bq_last b then drop_openFile (Name (bq_file b)) else ret tt) p1)
        as (p2 & -> & Hq2).
      { apply runs_both; [runs_auto|]. destruct (bq_last b).
        - apply runs_modify. by intros ?.
        - apply runs_ret. apply _. }
      destruct (Hquiet p2) as (evs & Hrest); [by etrans|]. by exists true, p2, evs.
    + unfold bind at 1, store, modify.
      set (p2 := set_openFiles _ p1).
      assert (Hq2 : quiet p p2).
      { etrans; [exact Hq1|]. split; [apply adds_tables|done]. }
      destruct (0 <? length (bq_copy b))%nat; [|destruct (Size (bq_block b) >? 0)].
      * destruct (quiet_then_true (handleCopyBlock b) p2 (handleCopyBlock_quiet b))
          as (p3 & -> & Hq3).
        destruct (Hquiet p3) as (evs & Hrest); [by etrans|]. by exists true, p3, evs.
      * destruct (handleRequestBlock_dispatch b p2 ofile)
          as (a & p3 & evs3 & -> & Hlog3 & _ & Hact3 & Hnone & Hsome).
        { apply lookup_insert_eq. }
        destruct Hq2 as [(evs2 & Hlog2 & Hevs2) Hact2].
        rewrite Hact2 in *. cbn [cm set_openFiles] in *.
        destruct Hq1 as [_ Hact1].
        set (r := leastBusyNode (oustandingPerNode p) (of_availability ofile) (cm p)) in *.
        assert (Hcm : cm p2 = cm p).
        { destruct entry; [by injection Hrun as _ <-|].
          unfold p2. cbn. unfold openNew in Hrun. revert Hrun.
          clear. exec; intros [= _ <-]; done. }
        rewrite Hcm in *. fold r in Hact3, Hnone, Hsome.
        destruct (decide (r.1 = ""%string)) as [Hsel|Hsel].
        -- destruct (Hnone Hsel) as (-> & [r0 Hevs3] & _).
           exists true, p3, (evs2 ++ evs3). split; [done|].
           split; [by rewrite Hlog3, Hlog2, app_assoc|]. split; [|done].
           intros _. split.
           ++ apply Forall_app. split; [done|]. rewrite Hevs3.
              destruct (of_file ofile); repeat constructor; by intros ????.
           ++ intros n Hn. rewrite Hact3.
              change (r.2) with
                (<[r.1 := int_incr (default 0 (oustandingPerNode p !! r.1))]>
                   (oustandingPerNode p)).
              rewrite Hsel. by rewrite lookup_insert_ne.
        -- destruct (Hsome Hsel) as (-> & Hevs3 & _ & Htab).
           exists false, p3, (evs2 ++ evs3). split; [done|].
           split; [by rewrite Hlog3, Hlog2, app_assoc|]. split; [done|].
           intros _. eexists evs2, r.1, _.
           split; [by rewrite Hevs3|]. split; [done|].
           assert (Hcand : r.1 ∈ Names (cm p) ∧ Get (cm p) r.1 ≠ LocalID).
           { destruct (leastBusy_pick (oustandingPerNode p) (of_availability ofile)
                         (cm p)) as [?|[? [? _]]]; [done|]. by split. }
           destruct Hcand as [Hin Hid].
           split; [done|]. split; [done|]. split; [done|].
           split; [by rewrite Hact3|].
           rewrite Htab, lookup_insert_eq. split; [done|]. cbn.
           split; [done|]. by rewrite Hout.
      * destruct (quiet_then_true (handleEmptyBlock b) p2 (handleEmptyBlock_quiet b))
          as (p3 & -> & Hq3).
        destruct (Hquiet p3) as (evs & Hrest); [by etrans|]. by exists true, p3, evs.
Qed.

(** X5. With no candidate among the connected peers [handleRequestBlock]
    fails the file: it returns [true]; it closes and removes the temp file
    when the entry has an open handle and calls nothing otherwise; it
    stores the entry with [errNoNode] and a nil handle, or drops it when
    the block is the last one; the model is not told and no peer's count
    moves. *)
Theorem handleRequestBlock_no_source b p ofile :
  openFiles p !! Name (bq_file b) = Some ofile →
  (∀ n, n ∈ Names (cm p) → ¬ candidate (of_availability ofile) (cm p) n) →
  ∃ p' r, handleRequestBlock b p = Done true p'
    ∧ log (env p') =
        log (env p) ++
          match of_file ofile with
          | Some h => [(CClose (Some h), None); (CRemove (of_temp ofile), r)]
          | None => []
          end
    ∧ openFiles p' =
        (if bq_last b then delete (Name (bq_file b)) (openFiles p)
         else <[Name (bq_file b) := set_file None (set_err (Some errNoNode) ofile)]>
                (openFiles p))
    ∧ local (env p') = local (env p)
    ∧ (∀ n, n ≠ ""%string → oustandingPerNode p' !! n = oustandingPerNode p !! n).
Proof.
  intros Hentry Hnone.
  destruct (handleRequestBlock_dispatch b p ofile Hentry)
    as (a & p' & evs & Hrun & Hlog & Hloc & Hact & Hempty & _).
  assert (Hsel : (leastBusyNode (oustandingPerNode p) (of_availability ofile) (cm p)).1
                 = ""%string).
  { destruct (leastBusy_pick (oustandingPerNode p) (of_availability ofile) (cm p))
      as [?|[Hin Hc]]; [done|]. by destruct (Hnone _ Hin). }
  destruct (Hempty Hsel) as (-> & [r Hevs] & Htab).
  exists p', r. split; [done|]. split; [by rewrite Hlog, Hevs|]. split; [done|].
  split; [done|]. intros n Hn. rewrite Hact.
  change ((leastBusyNode (oustandingPerNode p) (of_availability ofile) (cm p)).2)
    with (<[(leastBusyNode (oustandingPerNode p) (of_availability ofile) (cm p)).1
            := int_incr (default 0 (oustandingPerNode p !!
                 (leastBusyNode (oustandingPerNode p) (of_availability ofile) (cm p)).1))]>
            (oustandingPerNode p)).
  rewrite Hsel. by rewrite lookup_insert_ne.
Qed.

(** X6. [handleRequestBlock] panics exactly when the file of the block
    has no entry in the open-file table. *)
Theorem handleRequestBlock_panics_iff b p :
  (∃ msg, handleRequestBlock b p = Panic msg)
  ↔ openFiles p !! Name (bq_file b) = None.
Proof.
  split.
  - intros [msg Hp]. destruct (openFiles p !! Name (bq_file b)) as [ofile|] eqn:He; [|done].
    destruct (handleRequestBlock_dispatch b p ofile He) as (a & p' & evs & Hrun & _).
    congruence.
  - intros Hnone. unfold handleRequestBlock. step_monad. rewrite Hnone. by eexists.
Qed.

(** *** Opening a file *)

(** The three ways of a block item once its entry is in the table. *)
Lemma dispatch_runs b p o :
  openFiles p !! Name (bq_file b) = Some o →
  ∃ a p' evs,
    (if (0 <? length (bq_copy b))%nat then handleCopyBlock b;; ret true
     else if Size (bq_block b) >? 0 then handleRequestBlock b
          else handleEmptyBlock b;; ret true) p = Done a p'
    ∧ log (env p') = log (env p) ++ evs.
Proof.
  intros Hentry.
  destruct (0 <? length (bq_copy b))%nat; [|destruct (Size (bq_block b) >? 0)].
  - destruct (quiet_then_true _ p (handleCopyBlock_quiet b)) as (p' & -> & [(evs & ? & _) _]).
    by exists true, p', evs.
  - destruct (handleRequestBlock_dispatch b p o Hentry) as (a & p' & evs & -> & ? & _).
    by exists a, p', evs.
  - destruct (quiet_then_true _ p (handleEmptyBlock_quiet b)) as (p' & -> & [(evs & ? & _) _]).
    by exists true, p', evs.
Qed.

Lemma openNew_log b ofile p :
  ∃ opened p' pre r, openNew b ofile p = Done opened p'
    ∧ (pre = [(CStat (Dir (Name (bq_file b))), None)]
       ∨ ∃ e r', pre = [(CStat (Dir (Name (bq_file b))), Some e);
                        (CMkdirAll (Dir (Name (bq_file b))) 0x1ff, r')])
    ∧ oustandingPerNode p' = oustandingPerNode p
    ∧ cm p' = cm p
    ∧ log (env p') =
        log (env p) ++ pre ++ (CCreate (TempName (Name (bq_file b))), r)
          :: (if r is None then [(CHideFile (TempName (Name (bq_file b))), None)] else [])
    ∧ match r with
      | Some e =>
          opened = None
          ∧ openFiles p' =
              (if bq_last b then openFiles p
               else <[Name (bq_file b) :=
                        mkOpenFile (Name (bq_file b)) (TempName (Name (bq_file b)))
                          (wrap_u64 (Availability p (Name (bq_file b))))
                          None (Some e) (of_outstanding ofile) (of_done ofile)]>
                      (openFiles p))
      | None =>
          opened = Some (mkOpenFile (Name (bq_file b)) (TempName (Name (bq_file b)))
                           (wrap_u64 (Availability p (Name (bq_file b))))
                           (Some (TempName (Name (bq_file b)))) None
                           (of_outstanding ofile) (of_done ofile))
          ∧ openFiles p' = openFiles p
      end.
Proof.
  unfold openNew. step_monad. cbn [of_filepath of_temp].
  unfold os_Stat, os_MkdirAll, os_Create. step_monad.
  exec_ask as st w1 E1. apply ask_inv in E1 as (-> & _ & _).
  destruct st as [e|i]; step_monad.
  - exec_sys as r' w2 E2. exec_sys as r w3 E3.
    apply sys_inv in E2 as (Hl2 & _). apply sys_inv in E3 as (Hl3 & _).
    cbn [log] in Hl2. rewrite Hl2 in Hl3.
    destruct r as [e'|]; [destruct (bq_last b)|]; step_monad;
      (eexists _, _, [(CStat (Dir (Name (bq_file b))), Some e);
                      (CMkdirAll (Dir (Name (bq_file b))) 0x1ff, r')];
       first [exists (Some e') | exists None];
       split; [reflexivity|]; split; [right; by eexists _, _|];
       tidy_world; split; [done|]; split; [done|];
       split; [rewrite Hl3, <- ?app_assoc; reflexivity|]; done).
  - exec_sys as r w3 E3. apply sys_inv in E3 as (Hl3 & _). cbn [log] in Hl3.
    destruct r as [e'|]; [destruct (bq_last b)|]; step_monad;
      (eexists _, _, [(CStat (Dir (Name (bq_file b))), None)];
       first [exists (Some e') | exists None];
       split; [reflexivity|]; split; [by left|];
       tidy_world; split; [done|]; split; [done|];
       split; [rewrite Hl3, <- ?app_assoc; reflexivity|]; done).
Qed.

(** X7. A block of a regular file that is not open yet: [handleBlock]
    looks at the parent directory, makes it with mode 0777 when [Stat]
    fails, for whatever reason, and creates the temp file whatever became
    of that.  If the creation fails the block is done with: nothing else
    is called, no count moves, and the error is kept for the blocks to
    come in an entry with a nil handle, unless this block is the last one,
    which leaves no entry.  If it succeeds, hiding the temp file comes
    next. *)
Theorem handleBlock_opens b p :
  IsDirectory (Flags (bq_file b)) = false →
  openFiles p !! Name (bq_file b) = None →
  ∃ a p' pre r rest, handleBlock b p = Done a p'
    ∧ log (env p') =
        log (env p) ++ pre ++ (CCreate (TempName (Name (bq_file b))), r) :: rest
    ∧ (pre = [(CStat (Dir (Name (bq_file b))), None)]
       ∨ ∃ e r', pre = [(CStat (Dir (Name (bq_file b))), Some e);
                        (CMkdirAll (Dir (Name (bq_file b))) 0x1ff, r')])
    ∧ (∀ e, r = Some e →
         a = true ∧ rest = []
         ∧ oustandingPerNode p' = oustandingPerNode p
         ∧ openFiles p' =
             (if bq_last b then openFiles p
              else <[Name (bq_file b) :=
                       mkOpenFile (Name (bq_file b)) (TempName (Name (bq_file b)))
                         (wrap_u64 (Availability p (Name (bq_file b))))
                         None (Some e) 0 false]> (openFiles p)))
    ∧ (r = None →
         ∃ rest', rest = (CHideFile (TempName (Name (bq_file b))), None) :: rest').
Proof.
  intros Hdir Hentry. unfold handleBlock. rewrite Hdir.
  unfold bind at 1, gets at 1. rewrite Hentry.
  change (default zeroOpenFile None) with zeroOpenFile.
  match goal with |- context [openNew b ?o] => set (o0 := o) end.
  destruct (openNew_log b o0 p) as (opened & p1 & pre & r & Hrun & Hpre & Hact & _ & Hlog & Hres).
  unfold bind at 1. rewrite Hrun. destruct r as [e|].
  - destruct Hres as [-> Htab]. exists true, p1, pre, (Some e), [].
    split; [done|]. split; [done|]. split; [done|]. split; [|done].
    intros e' [= <-]. split; [done|]. split; [done|]. split; [done|].
    rewrite Htab. subst o0. cbn. by destruct (bq_last b).
  - destruct Hres as [-> Htab]. cbn [of_err]. unfold bind at 1, store, modify.
    match goal with |- context [set_openFiles (<[_ := ?o]> _) p1] =>
      destruct (dispatch_runs b (set_openFiles (<[Name (bq_file b) := o]> (openFiles p1)) p1) o)
        as (a & p2 & evs & Hrun2 & Hlog2)
    end.
    { apply lookup_insert_eq. }
    exists a, p2, pre, None, ((CHideFile (TempName (Name (bq_file b))), None) :: evs).
    split; [exact Hrun2|]. cbn in Hlog2.
    split; [rewrite Hlog2, Hlog, <- !app_assoc; done|].
    split; [done|]. split; [done|]. intros _. by eexists.
Qed.

(** *** Copying from the existing file *)

Lemma copied_nil src tmp t : copied [] src tmp t t.
Proof. split; [|done]. intros c Hc. by apply elem_of_nil in Hc. Qed.

Lemma copyBlocks_spec name ofile cs p :
  ∃ p' evs, copyBlocks name ofile cs p = Done tt p'
    ∧ log (env p') = log (env p) ++ evs
    ∧ local (env p') = local (env p)
    ∧ oustandingPerNode p' = oustandingPerNode p
    ∧ (∀ q, of_file ofile ≠ Some q → fs (env p') !! q = fs (env p) !! q)
    ∧ ((openFiles p' = openFiles p
        ∧ ∀ tmp, of_file ofile = Some tmp → tmp ≠ of_filepath ofile →
            copied cs (of_filepath ofile) tmp (fs (env p)) (fs (env p')))
       ∨ (∃ e, openFiles p' =
                 <[name := set_file None (set_err (Some e) ofile)]> (openFiles p)
               ∧ (CClose (of_file ofile), None) ∈ evs)).
Proof.
  revert p. induction cs as [|c cs IH]; intros p.
  - simpl. step_monad. eexists _, _. split; [reflexivity|]. tidy_world.
    split; [done|]. split; [done|]. split; [done|]. split; [done|].
    left. split; [done|]. intros. apply copied_nil.
  - simpl. step_monad. unfold file_ReadAt.
    exec_ask as r w1 E1. apply ask_inv in E1 as (-> & Hcalm1 & Hfault1).
    destruct r as [e|bs]; step_monad.
    { eexists _, _. split; [reflexivity|]. tidy_world.
      split; [by rewrite <- !app_assoc|]. split; [done|]. split; [done|].
      split; [done|]. right. exists e. split; [done|]. cbn. set_solver. }
    assert (Hread : fs_readAt (of_filepath ofile) (Size c) (Offset c) (fs (env p)) = inr bs).
    { destruct (v_fail (oracle (env p) (tick (env p)))) eqn:Hv.
      - by specialize (Hfault1 eq_refl).
      - by rewrite (Hcalm1 eq_refl). }
    clear Hcalm1 Hfault1.
    set (w1 := mkWorld _ _ _ _ _).
    assert (Hstep : ∃ r2 w2 evs2,
      file_WriteAt (of_file ofile) bs (Offset c) w1 = (r2, w2)
      ∧ log w2 = log (env p) ++ evs2 ∧ local w2 = local (env p)
      ∧ (∀ q, of_file ofile ≠ Some q → fs w2 !! q = fs (env p) !! q)
      ∧ (r2 = None → ∀ tmp, of_file ofile = Some tmp → tmp ≠ of_filepath ofile →
           copied [c] (of_filepath ofile) tmp (fs (env p)) (fs w2))).
    { unfold file_WriteAt. destruct (of_file ofile) as [tmp|] eqn:Hfile.
      2:{ eexists _, _, _. split; [reflexivity|]. cbn. split; [done|].
          split; [done|]. split; [done|]. done. }
      assert (Hnil : bs = [] → ∃ r2 w2 evs2, (None (A:=error), w1) = (r2, w2)
        ∧ log w2 = log (env p) ++ evs2 ∧ local w2 = local (env p)
        ∧ (∀ q, Some tmp ≠ Some q → fs w2 !! q = fs (env p) !! q)
        ∧ (r2 = None → ∀ tmp0, Some tmp = Some tmp0 → tmp0 ≠ of_filepath ofile →
             copied [c] (of_filepath ofile) tmp0 (fs (env p)) (fs w2))).
      { intros ->. eexists _, _, _. split; [reflexivity|]. cbn. split; [done|].
        split; [done|]. split; [done|]. intros _ tmp0 [= <-] Hne. split; [|done].
        intros c' ->%list_elem_of_singleton Hpos. exfalso.
        apply fs_readAt_inr in Hread as (_ & i & _ & _ & Hb).
        apply bytes_at_lookup in Hb as [Hlen _]. simpl in Hlen. lia. }
      destruct bs as [|x bs]; [by apply Hnil|]. clear Hnil.
      set (data := x :: bs) in *.
      destruct (sys (CWriteAt tmp data (Offset c)) (fs_writeAt tmp data (Offset c)) w1)
        as [r2 w2] eqn:E2.
      apply sys_inv in E2 as (Hlog2 & Hloc2 & _ & _ & Hres2).
      eexists r2, w2, _. split; [done|]. cbn in Hlog2, Hloc2.
      rewrite <- app_assoc in Hlog2. split; [exact Hlog2|]. split; [done|].
      destruct r2 as [e|].
      { destruct Hres2 as [Hfs _]. split; [by rewrite Hfs|]. done. }
      destruct Hres2 as [_ Hwr]. apply fs_writeAt_inr in Hwr as (Hoff & i & Hi & Hdir & Hfs).
      cbn [fs w1] in Hi, Hfs. split.
      { intros q Hq. rewrite Hfs. apply lookup_insert_ne. congruence. }
      intros _ tmp0 [= <-] Hne.
      pose proof Hread as Hread'.
      apply fs_readAt_inr in Hread' as (_ & j & Hj & Hjdir & Hb).
      assert (Hlen : length data = Z.to_nat (Size c)).
      { by apply bytes_at_lookup in Hb as [Hlen _]. }
      split.
      + intros c' ->%list_elem_of_singleton Hpos. exists data. split; [done|].
        apply fs_readAt_inr. split; [done|]. eexists. rewrite Hfs, lookup_insert_eq.
        split; [done|]. split; [done|]. cbn. rewrite <- Hlen.
        apply write_at_range_written.
      + intros n off bs0 Hs Ht.
        apply fs_readAt_inr in Hs as (Hoff0 & j' & Hj' & _ & Hbs).
        apply fs_readAt_inr in Ht as (_ & i' & Hi' & _ & Hbt).
        assert (j' = j) as -> by congruence. assert (i' = i) as -> by congruence.
        apply fs_readAt_inr. split; [done|]. eexists. rewrite Hfs, lookup_insert_eq.
        split; [done|]. split; [done|]. cbn.
        by eapply write_at_range_kept. }
    destruct Hstep as (r2 & w2 & evs2 & Hwr & Hlog2 & Hloc2 & Hframe2 & Hcopied2).
    rewrite Hwr. cbn [fst snd]. destruct r2 as [e|]; step_monad.
    { eexists _, _. split; [reflexivity|]. tidy_world. rewrite Hlog2.
      split; [by rewrite <- !app_assoc|]. split; [done|]. split; [done|].
      split; [done|]. right. exists e. split; [done|]. set_solver. }
    destruct (IH (set_env w2 p)) as (p' & evs & Hrun & Hlog & Hloc & Hact & Hframe & Hres).
    tidy_world. exists p', (evs2 ++ evs). split; [done|].
    split; [by rewrite Hlog, Hlog2, app_assoc|]. split; [congruence|].
    split; [done|]. split.
    { intros q Hq. rewrite Hframe by done. by apply Hframe2. }
    destruct Hres as [[Htab Hcopied]|(e & Htab & Hclose)].
    + left. split; [done|]. intros tmp Hfile Hne.
      destruct (Hcopied2 eq_refl tmp Hfile Hne) as [Hc1 Hk1].
      destruct (Hcopied tmp Hfile Hne) as [Hc2 Hk2].
      assert (Hsrc : ∀ n off, fs_readAt (of_filepath ofile) n off (fs w2)
                = fs_readAt (of_filepath ofile) n off (fs (env p))).
      { intros n off. apply fs_readAt_ext, Hframe2. congruence. }
      split.
      * intros c' [->|Hin]%elem_of_cons Hpos.
        -- destruct (Hc1 c) as (bs1 & Hs1 & Ht1); [set_solver|done|].
           exists bs1. split; [done|]. apply Hk2; [|done]. by rewrite Hsrc.
        -- destruct (Hc2 c' Hin Hpos) as (bs2 & Hs2 & Ht2).
           exists bs2. split; [|done]. by rewrite <- Hsrc.
      * intros n off bs0 Hs Ht. apply Hk2; [by rewrite Hsrc|]. by apply Hk1.
    + right. exists e. split; [done|]. set_solver.
Qed.

Lemma handleCopyBlock_spec b p :
  let ofile := default zeroOpenFile (openFiles p !! Name (bq_file b)) in
  ∃ p' evs, handleCopyBlock b p = Done tt p'
    ∧ log (env p') = log (env p) ++ evs
    ∧ local (env p') = local (env p)
    ∧ oustandingPerNode p' = oustandingPerNode p
    ∧ (∀ q, of_file ofile ≠ Some q → fs (env p') !! q = fs (env p) !! q)
    ∧ ((openFiles p' = openFiles p
        ∧ ∀ tmp, of_file ofile = Some tmp → tmp ≠ of_filepath ofile →
            copied (bq_copy b) (of_filepath ofile) tmp (fs (env p)) (fs (env p')))
       ∨ (∃ e, openFiles p' =
                 <[Name (bq_file b) := set_file None (set_err (Some e) ofile)]>
                   (openFiles p)
               ∧ (CClose (of_file ofile), None) ∈ evs)).
Proof.
  intros ofile. unfold handleCopyBlock. step_monad. fold ofile. unfold os_Open.
  exec_ask as r w1 E1. apply ask_inv in E1 as (-> & _ & _).
  destruct r as [e|[]]; step_monad.
  - eexists _, _. split; [reflexivity|]. tidy_world.
    split; [by rewrite <- !app_assoc|]. split; [done|]. split; [done|].
    split; [done|]. right. exists e. split; [done|]. set_solver.
  - match goal with
    | |- context [copyBlocks ?n ?o ?cs ?q] =>
        destruct (copyBlocks_spec n o cs q)
          as (p' & evs & -> & Hlog & Hloc & Hact & Hframe & Hres)
    end.
    tidy_world. eexists p', (_ :: evs). split; [done|].
    split; [by rewrite Hlog, <- app_assoc|]. split; [done|]. split; [done|].
    split; [done|]. destruct Hres as [Hok|(e & Htab & Hin)].
    + by left.
    + right. exists e. split; [done|]. set_solver.
Qed.

(** X8. Copying: when [handleCopyBlock] leaves the entry of the file
    without an error, every block of the copy list that has bytes is in
    the temp file: reading the block's range from the temp file gives the
    bytes that the existing file has in that range.  The entry is as it
    was and so is the existing file. *)
Theorem handleCopyBlock_copies b p ofile :
  openFiles p !! Name (bq_file b) = Some ofile →
  of_file ofile = Some (of_temp ofile) →
  of_temp ofile ≠ of_filepath ofile →
  ∃ p', handleCopyBlock b p = Done tt p'
    ∧ ∀ o', openFiles p' !! Name (bq_file b) = Some o' → of_err o' = None →
        o' = ofile
        ∧ fs (env p') !! of_filepath ofile = fs (env p) !! of_filepath ofile
        ∧ ∀ c, c ∈ bq_copy b → 0 < Size c →
            ∃ bs, fs_readAt (of_filepath ofile) (Size c) (Offset c) (fs (env p)) = inr bs
                  ∧ fs_readAt (of_temp ofile) (Size c) (Offset c) (fs (env p')) = inr bs.
Proof.
  intros Hentry Hfile Hne.
  destruct (handleCopyBlock_spec b p) as (p' & evs & Hrun & _ & _ & _ & Hframe & Hres).
  rewrite Hentry in Hframe, Hres.
  change (default zeroOpenFile (Some ofile)) with ofile in Hframe, Hres.
  exists p'. split; [done|]. intros o' Ho' Herr.
  destruct Hres as [[Htab Hcopied]|(e & Htab & _)].
  - rewrite Htab, Hentry in Ho'. injection Ho' as <-. split; [done|].
    split; [apply Hframe; rewrite Hfile; by intros [= ?]|].
    destruct (Hcopied _ Hfile Hne) as [Hall _]. exact Hall.
  - rewrite Htab, lookup_insert_eq in Ho'. injection Ho' as <-. done.
Qed.

(** X9. Copying is confined to the temp file: whatever the operating
    system does, [handleCopyBlock] changes no path of the tree other than
    the file its entry has open, and neither the model nor the activity
    map.  It either leaves the table alone or, after a failure (the
    existing file does not open, a read comes up short, a write fails),
    closes the temp file and stores the entry with that error and a nil
    handle. *)
Theorem handleCopyBlock_confined b p :
  ∃ p' evs, handleCopyBlock b p = Done tt p'
    ∧ log (env p') = log (env p) ++ evs
    ∧ local (env p') = local (env p)
    ∧ oustandingPerNode p' = oustandingPerNode p
    ∧ (∀ q, of_file (default zeroOpenFile (openFiles p !! Name (bq_file b))) ≠ Some q →
         fs (env p') !! q = fs (env p) !! q)
    ∧ (openFiles p' = openFiles p
       ∨ ∃ e, openFiles p' =
                <[Name (bq_file b) :=
                    set_file None
                      (set_err (Some e)
                         (default zeroOpenFile (openFiles p !! Name (bq_file b))))]>
                  (openFiles p)
              ∧ (CClose (of_file (default zeroOpenFile
                                    (openFiles p !! Name (bq_file b)))), None) ∈ evs).
Proof.
  destruct (handleCopyBlock_spec b p) as (p' & evs & Hrun & Hlog & Hloc & Hact & Hframe & Hres).
  exists p', evs. split_and!; try done.
  destruct Hres as [[Htab _]|Hfail]; [by left|by right].
Qed.

(** *** Writing what a peer sent *)

(** X10. A result with bytes for an open file without error, whose entry
    is still in the table afterwards: one request less is outstanding and
    no path but the temp file has changed; if the entry still has no
    error, the bytes of the result read back from the temp file at the
    offset of the result.  Nothing is said of the temp file after a write
    that failed. *)
Theorem handleRequestResult_writes res p ofile tmp :
  openFiles p !! Name (rr_file res) = Some ofile →
  of_err ofile = None →
  of_file ofile = Some tmp →
  rr_data res ≠ [] →
  ∃ p', handleRequestResult res p = Done tt p'
    ∧ ∀ o', openFiles p' !! Name (rr_file res) = Some o' →
        of_outstanding o' = int_decr (of_outstanding ofile)
        ∧ (∀ q, q ≠ tmp → fs (env p') !! q = fs (env p) !! q)
        ∧ (of_err o' = None →
           fs_readAt tmp (Z.of_nat (length (rr_data res))) (rr_offset res)
             (fs (env p')) = inr (rr_data res)).
Proof.
  intros Hentry Herr Hfile Hdata.
  unfold handleRequestResult. step_monad. rewrite Hentry, Herr, Hfile.
  step_monad. unfold file_WriteAt.
  destruct (rr_data res) as [|x data] eqn:Hd; [done|]. rewrite <- Hd in *.
  destruct (sys (CWriteAt tmp (rr_data res) (rr_offset res))
              (fs_writeAt tmp (rr_data res) (rr_offset res)) (env p)) as [r w1] eqn:E.
  cbn [fst snd of_done of_outstanding].
  apply sys_inv in E as (_ & _ & _ & _ & Hres).
  destruct (of_done ofile && _).
  { match goal with
    | |- context [closeFile ?f ?q] => destruct (closeFile_frame f q) as [w' ->]
    end.
    eexists. split; [reflexivity|]. cbn. intros o'. by rewrite lookup_delete_eq. }
  eexists. split; [reflexivity|]. cbn. rewrite lookup_insert_eq. intros o' [= <-].
  cbn. split; [done|]. destruct r as [e|].
  - destruct Hres as [Hfs _]. rewrite Hfs. done.
  - destruct Hres as [_ Hwr].
    apply fs_writeAt_inr in Hwr as (Hoff & i & Hi & Hdir & Hfs). rewrite Hfs.
    split; [intros q Hq; by rewrite lookup_insert_ne|]. intros _.
    apply fs_readAt_inr. split; [done|]. eexists. rewrite lookup_insert_eq.
    split; [done|]. split; [done|]. cbn. rewrite Nat2Z.id.
    apply write_at_range_written.
Qed.

(** *** Finalization puts verified bytes in place *)

Lemma touch_holds now q' d q t : holds d q t → holds d q (touch now q' t).
Proof.
  intros (i & Hi & Hdir & Hd). unfold touch. destruct (decide (q' = q)) as [->|Hne].
  - exists (set_mtime now i). by rewrite lookup_alter_eq, Hi.
  - exists i. by rewrite lookup_alter_ne.
Qed.

Lemma sys_chtimes_holds q m w r w' d q' :
  sys (CChtimes q m) (fs_chtimes q m) w = (r, w') →
  holds d q' (fs w) → holds d q' (fs w').
Proof.
  intros (_ & _ & _ & _ & Hres)%sys_inv Hh. destruct r as [e|].
  - by destruct Hres as [-> _].
  - destruct Hres as [_ Hres]. unfold fs_chtimes in Hres.
    destruct (fs w !! q) as [i|] eqn:Hq; [|done]. injection Hres as <-.
    destruct Hh as (i' & Hi' & Hdir & Hd). destruct (decide (q = q')) as [->|Hne].
    + rewrite Hq in Hi'. injection Hi' as <-.
      exists (set_mtime m i). by rewrite lookup_insert_eq.
    + exists i'. by rewrite lookup_insert_ne.
Qed.

Lemma sys_chmod_holds q m w r w' d q' :
  sys (CChmod q m) (fs_chmod q m) w = (r, w') →
  holds d q' (fs w) → holds d q' (fs w').
Proof.
  intros (_ & _ & _ & _ & Hres)%sys_inv Hh. destruct r as [e|].
  - by destruct Hres as [-> _].
  - destruct Hres as [_ Hres]. unfold fs_chmod in Hres.
    destruct (fs w !! q) as [i|] eqn:Hq; [|done]. injection Hres as <-.
    destruct Hh as (i' & Hi' & Hdir & Hd). destruct (decide (q = q')) as [->|Hne].
    + rewrite Hq in Hi'. injection Hi' as <-.
      eexists. rewrite lookup_insert_eq. done.
    + exists i'. by rewrite lookup_insert_ne.
Qed.

(** A rename that succeeds puts the file, bytes and all, at the new
    path and leaves nothing at the old one. *)
Lemma fs_rename_holds (a dst : path) now t t' d :
  fs_rename a dst now t = inr t' → holds d a t → a ≠ dst →
  holds d dst t' ∧ t' !! a = None.
Proof.
  intros Hrn (i & Hi & Hdir & Hd) Hne. unfold fs_rename in Hrn.
  rewrite Hi in Hrn. rewrite bool_decide_eq_false_2 in Hrn by done.
  destruct (negb (is_dir_at (Dir dst) t)); [done|]. rewrite Hdir in Hrn.
  assert (Hput : holds d dst (<[dst := i]> (delete a t))
                 ∧ (<[dst := i]> (delete a t)) !! a = None).
  { split; [exists i; by rewrite lookup_insert_eq|].
    rewrite lookup_insert_ne by done. apply lookup_delete_eq. }
  destruct Hput as [Hb Ha].
  destruct (t !! dst) as [j|].
  - destruct (i_dir j); [done|]. injection Hrn as <-.
    split; [by apply touch_holds|by apply touch_lookup_None].
  - injection Hrn as <-.
    split; [by do 2 apply touch_holds|by do 2 apply touch_lookup_None].
Qed.

Lemma sys_remove_gone q w r w' :
  sys (CRemove q) (fs_remove q) w = (r, w') → fs w !! q = None → fs w' = fs w.
Proof.
  intros (_ & _ & _ & _ & Hres)%sys_inv Hq. destruct r as [e|].
  - by destruct Hres as [-> _].
  - destruct Hres as [_ Hres]. unfold fs_remove in Hres. by rewrite Hq in Hres.
Qed.

(** X11. Without a versioner [closeFile] tells the model only once the
    verified bytes are in place: whatever the operating system does, if
    [updateLocal] was called then the destination is a regular file whose
    blocks match the hashes of the file, the temp file is gone and the
    model lists the file; and if it was not called the model's list is
    unchanged. *)
Theorem closeFile_updates_verified f p ofile :
  openFiles p !! Name f = Some ofile →
  versioner p = None →
  of_temp ofile ≠ of_filepath ofile →
  Blocks f ≠ [] →
  ∃ p' evs, closeFile f p = Done tt p'
    ∧ log (env p') = log (env p) ++ evs
    ∧ ((∀ g r, (CUpdateLocal g, r) ∉ evs) → local (env p') = local (env p))
    ∧ ((CUpdateLocal f, None) ∈ evs →
       local (env p') = <[Name f := f]> (local (env p))
       ∧ fs (env p') !! of_temp ofile = None
       ∧ ∃ i, fs (env p') !! of_filepath ofile = Some i
              ∧ i_dir i = false
              ∧ ¬ mismatch (scanner_Blocks (i_data i)) (Blocks f)).
Proof.
  intros Hentry Hnov Hne Hblocks.
  unfold closeFile. step_monad. rewrite Hentry.
  change (default zeroOpenFile (Some ofile)) with ofile.
  unfold finalize. step_monad. unfold os_Open.
  exec_ask as fd w1 E1. apply ask_inv in E1 as (-> & _ & _).
  destruct fd as [e|[]]; tidy.
  { unfold os_Remove. exec_sys as r w2 E2.
    apply sys_inv in E2 as (Hlog & Hloc & _). tidy_world.
    eexists _, _. split; [reflexivity|]. tidy. rewrite Hlog, <- !app_assoc.
    split; [reflexivity|]. split; [done|]. intros Hin. exfalso. set_solver. }
  unfold rehash. step_monad. tidy_world.
  match goal with |- context [CBlocks _ ?X] => set (hb := X) end.
  destruct (negb (bool_decide (length hb = length (Blocks f)))
            || hashesDiffer hb (Blocks f)) eqn:Hverify.
  { assert (Hstop : ∀ (X : M unit),
      (if negb (bool_decide (length hb = length (Blocks f)))
       then λ p0, Done tt p0
       else if hashesDiffer hb (Blocks f) then λ p0, Done tt p0 else X)
      = (λ p0, Done tt p0)).
    { intros X. destruct (negb _); [done|]. simpl in Hverify. by rewrite Hverify. }
    rewrite Hstop. unfold os_Remove. exec_sys as r w2 E2.
    apply sys_inv in E2 as (Hlog & Hloc & _). tidy_world.
    eexists _, _. split; [reflexivity|]. tidy. rewrite Hlog, <- !app_assoc.
    split; [reflexivity|]. split; [done|]. intros Hin. exfalso. set_solver. }
  assert (Hm : ¬ mismatch hb (Blocks f)).
  { rewrite <- verify_spec. by rewrite Hverify. }
  apply orb_false_iff in Hverify as [Hlen Hdiff]. rewrite Hlen, Hdiff.
  assert (Hhold : ∃ i0, fs (env p) !! of_temp ofile = Some i0 ∧ i_dir i0 = false
                        ∧ hb = scanner_Blocks (i_data i0)).
  { apply negb_false_iff, bool_decide_eq_true in Hlen.
    assert (Hnil : hb ≠ []).
    { intros Hnil. rewrite Hnil in Hlen. destruct (Blocks f); done. }
    unfold hb in *. destruct (v_fail _); [done|].
    destruct (fs (env p) !! of_temp ofile) as [i0|]; [|done].
    destruct (i_dir i0) eqn:Hd; [done|]. by exists i0. }
  destruct Hhold as (i0 & Hi0 & Hdir0 & Hhb).
  assert (Hholds0 : holds (i_data i0) (of_temp ofile) (fs (env p))) by (by exists i0).
  clearbody hb. tidy. cbv beta.
  unfold os_Chtimes. exec_sys as r2 w2 E2.
  pose proof (sys_chtimes_holds _ _ _ _ _ (i_data i0) (of_temp ofile) E2 Hholds0) as Hholds2.
  apply sys_inv in E2 as (Hlog2 & Hloc2 & _). cbn [log local] in Hlog2, Hloc2.
  match goal with |- context [set_env w2 ?q] => set (p2 := set_env w2 q) end.
  assert (Hip : IgnorePerms p2 = IgnorePerms p) by done.
  assert (Hv2 : versioner p2 = None) by done.
  assert (Henv2 : env p2 = w2) by done.
  assert (Htab2 : openFiles p2 = delete (Name f) (openFiles p)) by done.
  clearbody p2. unfold M.
  match goal with
  | |- context [(if ?c then ?A else ?B) p2] =>
      assert (Hmode : ∃ w3 evs3,
        (if c then A else B) p2 = Done tt (set_env w3 p2)
        ∧ log w3 = log w2 ++ evs3 ∧ Forall no_update evs3
        ∧ local w3 = local w2 ∧ holds (i_data i0) (of_temp ofile) (fs w3))
  end.
  { destruct (negb (IgnorePerms p) && HasPermissionBits (Flags f)).
    - unfold os_Chmod. rewrite Henv2.
      destruct (sys _ _ w2) as [r3 w3] eqn:E3. cbn [snd].
      pose proof (sys_chmod_holds _ _ _ _ _ _ _ E3 Hholds2) as Hholds3.
      apply sys_inv in E3 as (Hlog3 & Hloc3 & _).
      exists w3, [(CChmod (of_temp ofile) (Z.land (Flags f) 511), r3)].
      split; [done|]. split; [done|]. split; [|done].
      apply Forall_singleton. by intros g.
    - exists w2, []. rewrite app_nil_r. split; [by rewrite <- Henv2; destruct p2|].
      split; [done|]. split; [constructor|]. done. }
  destruct Hmode as (w3 & evs3 & -> & Hlog3 & Hevs3 & Hloc3 & Hholds3).
  tidy. rewrite Hv2. unfold osutil_Rename. exec_sys as r4 w4 E4.
  unfold os_Remove.
  cbn [file_Close note log local] in Hlog2, Hloc2.
  assert (Hlog3' : ∃ pre, log w3 = log (env p) ++ pre ∧ Forall no_update pre).
  { eexists. rewrite Hlog3, Hlog2, <- !app_assoc. split; [reflexivity|].
    repeat (apply Forall_cons_2; [by intros g|]). done. }
  destruct Hlog3' as (pre & Hpre & Hpre_ok).
  assert (Hloc3' : local w3 = local (env p)) by congruence.
  clear Hlog3 Hlog2 Hloc3 Hloc2.
  destruct r4 as [e4|]; tidy.
  - exec_sys as r5 w5 E5.
    apply sys_inv in E4 as (Hlog4 & Hloc4 & _).
    apply sys_inv in E5 as (Hlog5 & Hloc5 & _). tidy_world.
    exists (set_env w5 p2), (pre ++ [(CShowFile (of_temp ofile), None);
      (CRename (of_temp ofile) (of_filepath ofile), Some e4);
      (CRemove (of_temp ofile), r5)]).
    split; [done|]. tidy.
    split; [rewrite Hlog5, Hlog4, Hpre, <- !app_assoc; done|].
    split; [intros _; congruence|].
    intros [Hin|Hin]%elem_of_app; exfalso.
    + eapply Forall_forall in Hpre_ok; [|exact Hin]. by apply (Hpre_ok f).
    + set_solver.
  - unfold updateLocal at 1 2. cbn [fs local tick oracle log].
    exec_sys as r5 w5 E5.
    apply sys_inv in E4 as (Hlog4 & Hloc4 & _ & _ & _ & Hrn).
    cbn [note fs oracle tick log local] in Hlog4, Hloc4, Hrn.
    apply fs_rename_holds with (d := i_data i0) in Hrn as [Hdst Hgone]; [|done..].
    pose proof (sys_remove_gone _ _ _ _ E5 Hgone) as Hfs5.
    apply sys_inv in E5 as (Hlog5 & Hloc5 & _). tidy_world.
    exists (set_env w5 p2), (pre ++ [(CShowFile (of_temp ofile), None);
      (CRename (of_temp ofile) (of_filepath ofile), None);
      (CUpdateLocal f, None); (CRemove (of_temp ofile), r5)]).
    split; [done|]. tidy.
    split; [rewrite Hlog5, Hlog4, Hpre, <- !app_assoc; done|].
    split; [intros Hno; exfalso; apply (Hno f None); set_solver|].
    intros _. rewrite Hloc5, Hfs5. cbn [fs]. split; [congruence|]. split; [done|].
    destruct Hdst as (i & Hi & Hd & Hdata). exists i. rewrite Hdata, <- Hhb. done.
Qed.

Lemma sys_ok (c : call) sem w t' :
  v_fail (oracle w (tick w)) = false →
  sem (v_now (oracle w (tick w))) (fs w) = inr t' →
  sys c sem w
  = (None, mkWorld t' (local w) (S (tick w)) (oracle w) (log w ++ [(c, None)])).
Proof. intros Hv Hsem. unfold sys. by rewrite Hv, Hsem. Qed.

Lemma sys_refused (c : call) sem w e :
  v_fail (oracle w (tick w)) = false →
  sem (v_now (oracle w (tick w))) (fs w) = inl e →
  sys c sem w
  = (Some e, mkWorld (fs w) (local w) (S (tick w)) (oracle w) (log w ++ [(c, Some e)])).
Proof. intros Hv Hsem. unfold sys. by rewrite Hv, Hsem. Qed.

Lemma ask_ok {A} (c : call) (sem : gmap path inode → error + A) w a :
  v_fail (oracle w (tick w)) = false → sem (fs w) = inr a →
  ask c sem w
  = (inr a, mkWorld (fs w) (local w) (S (tick w)) (oracle w) (log w ++ [(c, None)])).
Proof. intros Hv Hsem. unfold ask. by rewrite Hv, Hsem. Qed.

Lemma Dir_neq (q : path) : q ≠ [] → Dir q ≠ q.
Proof.
  intros Hq Heq. apply (f_equal length) in Heq. unfold Dir in Heq.
  destruct q as [|a q] using rev_ind; [done|]. rewrite removelast_last in Heq.
  rewrite length_app in Heq. simpl in Heq. lia.
Qed.

Lemma fs_rename_file (a dst : path) now t i :
  t !! a = Some i → i_dir i = false → a ≠ dst →
  is_dir_at (Dir dst) t = true →
  (∀ j, t !! dst = Some j → i_dir j = false) →
  Dir a ≠ dst → Dir dst ≠ dst → Dir a ≠ a → Dir dst ≠ a →
  ∃ t', fs_rename a dst now t = inr t' ∧ t' !! dst = Some i ∧ t' !! a = None.
Proof.
  intros Ha Hdir Hne Hparent Hdst H1 H2 H3 H4. unfold fs_rename.
  rewrite Ha, bool_decide_eq_false_2 by done. rewrite Hparent, Hdir. cbn [negb].
  destruct (t !! dst) as [j|] eqn:Hj.
  - rewrite (Hdst j eq_refl). eexists. split; [reflexivity|]. unfold touch.
    rewrite !lookup_alter_ne by done. rewrite lookup_insert_eq.
    rewrite lookup_insert_ne by done. by rewrite lookup_delete_eq.
  - eexists. split; [reflexivity|]. unfold touch.
    rewrite !lookup_alter_ne by done. rewrite lookup_insert_eq.
    rewrite lookup_insert_ne by done. by rewrite lookup_delete_eq.
Qed.

Lemma closeFile_installs_run f p ofile i0 :
  openFiles p !! Name f = Some ofile →
  versioner p = None →
  (∀ k, v_fail (oracle (env p) k) = false) →
  of_temp ofile ≠ of_filepath ofile →
  Dir (of_temp ofile) = Dir (of_filepath ofile) →
  fs (env p) !! of_temp ofile = Some i0 →
  i_dir i0 = false →
  ¬ mismatch (scanner_Blocks (i_data i0)) (Blocks f) →
  is_dir_at (Dir (of_filepath ofile)) (fs (env p)) = true →
  (∀ j, fs (env p) !! of_filepath ofile = Some j → i_dir j = false) →
  ∃ p', closeFile f p = Done tt p'
    ∧ openFiles p' = delete (Name f) (openFiles p)
    ∧ local (env p') = <[Name f := f]> (local (env p))
    ∧ fs (env p') !! of_temp ofile = None
    ∧ fs (env p') !! of_filepath ofile
      = Some (mkInode false
                (if negb (IgnorePerms p) && HasPermissionBits (Flags f)
                 then Z.land (Flags f) 0x1ff else i_mode i0)
                (Modified f) (i_data i0))
    ∧ (CUpdateLocal f, None) ∈ log (env p').
Proof.
  intros Hentry Hnov Hcalm Hne Hsib Htemp Hfile Hok Hparent Hdest.
  assert (Hdst_ne : of_filepath ofile ≠ []).
  { intros Heq. rewrite Heq in *. unfold is_dir_at, Dir in Hparent. simpl in Hparent.
    destruct (fs (env p) !! []) as [j|] eqn:Hj; [|done].
    by rewrite (Hdest j eq_refl) in Hparent. }
  assert (Hpd : Dir (of_filepath ofile) ≠ of_filepath ofile) by (by apply Dir_neq).
  assert (Hpt : Dir (of_filepath ofile) ≠ of_temp ofile).
  { intros Heq. unfold is_dir_at in Hparent. rewrite Heq, Htemp, Hfile in Hparent. done. }
  unfold closeFile. step_monad. rewrite Hentry.
  change (default zeroOpenFile (Some ofile)) with ofile.
  unfold finalize. step_monad. unfold os_Open.
  rewrite (ask_ok _ _ _ tt); [|apply Hcalm|by (cbn; unfold fs_open; rewrite Htemp)].
  tidy. unfold rehash. step_monad. tidy_world. rewrite Hcalm, Htemp, Hfile.
  rewrite <- verify_spec in Hok. apply not_true_is_false, orb_false_iff in Hok as [Hlen Hdiff].
  rewrite Hlen, Hdiff. tidy. cbv beta. unfold os_Chtimes.
  erewrite sys_ok; [|apply Hcalm|by (cbn; unfold fs_chtimes; rewrite Htemp)].
  tidy.
  tidy_world.
  set (i1 := set_mtime (Modified f) i0).
  set (mode := if negb (IgnorePerms p) && HasPermissionBits (Flags f)
               then Z.land (Flags f) 0x1ff else i_mode i0).
  set (i2 := mkInode false mode (Modified f) (i_data i0)).
  match goal with
  | |- context [set_env (mkWorld ?t ?l ?k ?o ?lg) ?q] =>
      set (w2 := mkWorld t l k o lg); set (p2 := set_env w2 q)
  end.
  assert (Hip : IgnorePerms p2 = IgnorePerms p) by done.
  assert (Hv2 : versioner p2 = None) by done.
  assert (Htab2 : openFiles p2 = delete (Name f) (openFiles p)) by done.
  assert (Henv2 : env p2 = w2) by done.
  clearbody p2. unfold M.
  match goal with
  | |- context [(if ?c then ?A else ?B) p2] =>
      assert (Hmode : ∃ w3,
        (if c then A else B) p2 = Done tt (set_env w3 p2)
        ∧ fs w3 = <[of_temp ofile := i2]> (fs (env p))
        ∧ local w3 = local (env p) ∧ oracle w3 = oracle (env p))
  end.
  { unfold mode in i2. destruct (negb (IgnorePerms p) && HasPermissionBits (Flags f)).
    - unfold os_Chmod. rewrite Henv2. erewrite sys_ok;
        [|apply Hcalm|cbn; unfold fs_chmod; by rewrite lookup_insert_eq].
      eexists. split; [reflexivity|]. cbn. split; [|done].
      rewrite insert_insert_eq. f_equal. unfold i2, i1, set_mode, set_mtime. cbn.
      rewrite Hfile. f_equal. rewrite <- Z.land_assoc. by rewrite Z.land_diag.
    - exists w2. split; [by rewrite <- Henv2; destruct p2|]. split; [|done].
      cbn. f_equal. unfold i2, i1, set_mtime. by rewrite Hfile. }
  destruct Hmode as (w3 & -> & Hfs3 & Hloc3 & Hor3).
  tidy. rewrite Hv2. unfold osutil_Rename.
  destruct (fs_rename_file (of_temp ofile) (of_filepath ofile)
              (v_now (oracle w3 (tick w3))) (fs w3) i2)
    as (t4 & Hrn & Hdst4 & Htmp4).
  { rewrite Hfs3. apply lookup_insert_eq. }
  { done. }
  { done. }
  { unfold is_dir_at. rewrite Hfs3, lookup_insert_ne by done. exact Hparent. }
  { intros j. rewrite Hfs3, lookup_insert_ne by done. apply Hdest. }
  { by rewrite Hsib. }
  { done. }
  { by rewrite Hsib. }
  { done. }
  erewrite sys_ok; [|cbn; rewrite Hor3; apply Hcalm|cbn; exact Hrn].
  tidy. unfold os_Remove. tidy_world.
  erewrite sys_refused; [|cbn; rewrite Hor3; apply Hcalm|cbn; unfold fs_remove; by rewrite Htmp4].
  eexists. split; [reflexivity|]. tidy_world.
  split; [done|]. split; [by rewrite Hloc3|]. split; [done|]. split; [done|].
  set_solver.
Qed.

(** X12. When nothing fails [closeFile] installs the file: for a temp
    file whose blocks match, next to a destination that is absent or a
    regular file in a directory that exists, the destination ends up a
    regular file with the bytes of the temp file and, unless permissions
    are ignored or the flags carry none, the permission bits of the file
    (otherwise the mode the temp file had); it has the modification time
    of the file when that is a second that [os.Chtimes] hands on
    unchanged.  The temp file is gone, the entry is out of the table and
    the model lists the file. *)
Theorem closeFile_installs f p ofile i0 :
  openFiles p !! Name f = Some ofile →
  versioner p = None →
  (∀ k, v_fail (oracle (env p) k) = false) →
  of_temp ofile ≠ of_filepath ofile →
  Dir (of_temp ofile) = Dir (of_filepath ofile) →
  fs (env p) !! of_temp ofile = Some i0 →
  i_dir i0 = false →
  ¬ mismatch (scanner_Blocks (i_data i0)) (Blocks f) →
  is_dir_at (Dir (of_filepath ofile)) (fs (env p)) = true →
  (∀ j, fs (env p) !! of_filepath ofile = Some j → i_dir j = false) →
  ∃ p', closeFile f p = Done tt p'
    ∧ openFiles p' = delete (Name f) (openFiles p)
    ∧ local (env p') = <[Name f := f]> (local (env p))
    ∧ fs (env p') !! of_temp ofile = None
    ∧ (∃ i, fs (env p') !! of_filepath ofile = Some i
         ∧ i_dir i = false
         ∧ i_data i = i_data i0
         ∧ i_mode i = (if negb (IgnorePerms p) && HasPermissionBits (Flags f)
                       then Z.land (Flags f) 0x1ff else i_mode i0)
         ∧ (chtimes_exact (Modified f) → i_mtime i = Modified f))
    ∧ (CUpdateLocal f, None) ∈ log (env p').
Proof.
  intros Hentry Hnov Hcalm Hne Hsib Htmp Hreg Hok Hparent Hdest.
  destruct (closeFile_installs_run f p ofile i0)
    as (p' & Hrun & Htab & Hloc & Hgone & Hdst & Hlog); try done.
  exists p'. split_and!; try done.
  eexists. split; [exact Hdst|]. done.
Qed.

(** *** Files without blocks *)

(** X13. [handleEmptyBlock] always takes the entry of the file out of the
    open-file table, on every path and whatever fails, and leaves the
    activity map alone. *)
Theorem handleEmptyBlock_drops_entry b p :
  ∃ p', handleEmptyBlock b p = Done tt p'
    ∧ openFiles p' = delete (Name (bq_file b)) (openFiles p)
    ∧ oustandingPerNode p' = oustandingPerNode p.
Proof.
  unfold handleEmptyBlock. exec; eexists; (split; [reflexivity|]); done.
Qed.

(** X14. In [handleEmptyBlock], for a file that is not deleted, a failure
    to set the modification time or the mode of the temp file aborts: no
    rename and no [updateLocal] follow (in [closeFile] they do).
    [updateLocal] is called exactly after a successful rename, for this
    file; nothing is removed and the temp file is not hashed. *)
Theorem handleEmptyBlock_metadata_aborts b p :
  IsDeleted (Flags (bq_file b)) = false →
  let ofile := default zeroOpenFile (openFiles p !! Name (bq_file b)) in
  ∃ p' evs, handleEmptyBlock b p = Done tt p'
    ∧ log (env p') = log (env p) ++ evs
    ∧ (∀ e, (CChtimes (of_temp ofile) (Modified (bq_file b)), Some e) ∈ evs →
         (∀ src dst r, (CRename src dst, r) ∉ evs) ∧ (∀ g r, (CUpdateLocal g, r) ∉ evs))
    ∧ (∀ m e, (CChmod (of_temp ofile) m, Some e) ∈ evs →
         (∀ src dst r, (CRename src dst, r) ∉ evs) ∧ (∀ g r, (CUpdateLocal g, r) ∉ evs))
    ∧ (∀ g r, (CUpdateLocal g, r) ∈ evs →
         g = bq_file b ∧ r = None
         ∧ (CChtimes (of_temp ofile) (Modified (bq_file b)), None) ∈ evs
         ∧ (CRename (of_temp ofile) (of_filepath ofile), None) ∈ evs)
    ∧ ((CRename (of_temp ofile) (of_filepath ofile), None) ∈ evs →
         (CUpdateLocal (bq_file b), None) ∈ evs
         ∧ local (env p') = <[Name (bq_file b) := bq_file b]> (local (env p)))
    ∧ Forall (λ ev : event, (∀ q, ev.1 ≠ CRemove q) ∧ (∀ q hb, ev.1 ≠ CBlocks q hb)) evs.
Proof.
  intros Hdel ofile. unfold handleEmptyBlock. rewrite Hdel.
  step_monad. fold ofile. unfold_calls. step_monad.
  repeat first [exec_call | case_var | case_test]; log_facts;
    (eexists _, _; split; [reflexivity|]; tidy; tidy_world;
     split; [log_chain|]; cbn [app]).
  all: split_and!; try (intros; set_solver).
  all: try (repeat (apply Forall_cons_2; [by split|]); by apply Forall_nil_2).
  all: intros _; split; [set_solver|]; f_equal; congruence.
Qed.

(** X15. Deleting with a versioner: after the removal of the temp file
    and the chmod of the destination, whose results are ignored, the
    destination is archived and not removed; [updateLocal] follows exactly
    when the archival succeeds. *)
Theorem handleEmptyBlock_delete_versioned b p v :
  IsDeleted (Flags (bq_file b)) = true →
  versioner p = Some v →
  let ofile := default zeroOpenFile (openFiles p !! Name (bq_file b)) in
  ∃ p' pre r1 r2 r3, handleEmptyBlock b p = Done tt p'
    ∧ log (env p') =
        log (env p) ++ pre
          ++ [(CRemove (of_temp ofile), r1); (CChmod (of_filepath ofile) 0x1b6, r2);
              (CArchive (of_filepath ofile), r3)]
          ++ (if r3 is None then [(CUpdateLocal (bq_file b), None)] else [])
    ∧ (pre = [] ∨ pre = [(CClose (of_file ofile), None)])
    ∧ local (env p') =
        (if r3 is None then <[Name (bq_file b) := bq_file b]> (local (env p))
         else local (env p)).
Proof.
  intros Hdel Hv ofile. unfold handleEmptyBlock. rewrite Hdel.
  step_monad. fold ofile.
  match goal with
  | |- context [(if bq_last b then ?A else ?B) p] =>
      assert (Hrun : ∃ pre w0,
            (pre = [] ∨ pre = [(CClose (of_file ofile), None)])
            ∧ w0 = mkWorld (fs (env p)) (local (env p)) (tick (env p))
                     (oracle (env p)) (log (env p) ++ pre)
            ∧ (if bq_last b then A else B) p = Done tt (set_env w0 p))
  end.
  { assert (Hnil : ∃ pre w0,
            (pre = [] ∨ pre = [(CClose (of_file ofile), None)])
            ∧ w0 = mkWorld (fs (env p)) (local (env p)) (tick (env p))
                     (oracle (env p)) (log (env p) ++ pre)
            ∧ Done tt p = Done tt (set_env w0 p)).
    { exists [], (env p). rewrite app_nil_r. split; [by left|].
      split; [by destruct (env p)|by destruct p]. }
    destruct (bq_last b); [destruct (of_err ofile)|]; try exact Hnil.
    exists [(CClose (of_file ofile), None)], (file_Close (of_file ofile) (env p)).
    split; [by right|done]. }
  destruct Hrun as (pre & w0 & Hpre & Hw0 & Hrun).
  rewrite Hrun. step_monad. rewrite Hv. unfold os_Remove, os_Chmod, versioner_Archive.
  step_monad.
  exec_sys as r1 w1 E1. exec_sys as r2 w2 E2. exec_sys as r3 w3 E3.
  apply sys_inv in E1 as (Hl1 & Hc1 & _).
  apply sys_inv in E2 as (Hl2 & Hc2 & _).
  apply sys_inv in E3 as (Hl3 & Hc3 & _).
  assert (Hlog3 : log w3 = log (env p) ++ pre
            ++ [(CRemove (of_temp ofile), r1); (CChmod (of_filepath ofile) 438, r2);
                (CArchive (of_filepath ofile), r3)]).
  { rewrite Hl3, Hl2, Hl1, Hw0. cbn. by rewrite <- !app_assoc. }
  assert (Hloc3 : local w3 = local (env p)).
  { rewrite Hc3, Hc2, Hc1, Hw0. done. }
  destruct r3 as [e|]; step_monad.
  - eexists _, pre, r1, r2, (Some e). split; [reflexivity|]. cbn.
    rewrite Hlog3, Hloc3, <- ?app_assoc. rewrite ?app_nil_r. done.
  - eexists _, pre, r1, r2, None. split; [reflexivity|]. cbn.
    rewrite Hlog3, Hloc3, <- ?app_assoc. done.
Qed.

(** *** The open-file table stays well-formed *)

Lemma table_ok_insert p p' name o :
  table_ok p → entry_ok name o → openFiles p' = <[name := o]> (openFiles p) →
  table_ok p'.
Proof.
  intros Hp Ho Ht n o'. rewrite Ht. destruct (decide (name = n)) as [->|Hne].
  - rewrite lookup_insert_eq. by intros [= <-].
  - rewrite lookup_insert_ne by done. apply Hp.
Qed.

Lemma table_ok_delete p p' name :
  table_ok p → openFiles p' = delete name (openFiles p) → table_ok p'.
Proof.
  intros Hp Ht n o'. rewrite Ht. destruct (decide (name = n)) as [->|Hne].
  - by rewrite lookup_delete_eq.
  - rewrite lookup_delete_ne by done. apply Hp.
Qed.

Lemma table_ok_same p p' : table_ok p → openFiles p' = openFiles p → table_ok p'.
Proof. intros Hp Ht n o'. rewrite Ht. apply Hp. Qed.

Lemma handleEmptyBlock_table b p :
  ∃ p', handleEmptyBlock b p = Done tt p'
    ∧ openFiles p' = delete (Name (bq_file b)) (openFiles p)
    ∧ oustandingPerNode p' = oustandingPerNode p.
Proof.
  unfold handleEmptyBlock. exec; eexists; (split; [reflexivity|]); done.
Qed.

Lemma openNew_table b ofile p :
  ∃ opened p', openNew b ofile p = Done opened p'
    ∧ match opened with
      | Some o =>
          openFiles p' = openFiles p
          ∧ o = mkOpenFile (Name (bq_file b)) (TempName (Name (bq_file b)))
                  (wrap_u64 (Availability p (Name (bq_file b))))
                  (Some (TempName (Name (bq_file b)))) None
                  (of_outstanding ofile) (of_done ofile)
      | None =>
          openFiles p' = openFiles p
          ∨ ∃ e, openFiles p' =
                   <[Name (bq_file b) :=
                       mkOpenFile (Name (bq_file b)) (TempName (Name (bq_file b)))
                         (wrap_u64 (Availability p (Name (bq_file b))))
                         None (Some e) (of_outstanding ofile) (of_done ofile)]>
                     (openFiles p)
      end.
Proof.
  unfold openNew. exec; eexists _, _; (split; [reflexivity|]); cbn; auto.
  all: right; by eexists.
Qed.

(** X16. The open-file table stays well-formed under both handlers:
    every entry is filed under the name of its file, has the temp path of
    that name and, as long as it carries no error, an open handle on the
    temp file. *)
Theorem handlers_keep_table p :
  table_ok p →
  (∀ b, ∃ a p', handleBlock b p = Done a p' ∧ table_ok p')
  ∧ (∀ res, ∃ p', handleRequestResult res p = Done tt p' ∧ table_ok p').
Proof.
  intros Hok. split.
  - intros b. unfold handleBlock. destruct (IsDirectory (Flags (bq_file b))).
    { exec; eexists _, _; (split; [reflexivity|]); by eapply table_ok_same. }
    unfold bind at 1, gets at 1.
    set (name := Name (bq_file b)).
    destruct (openFiles p !! name) as [o0|] eqn:Hentry.
    + change (default zeroOpenFile (Some o0)) with o0. unfold bind at 1, ret at 1.
      cbn [of_err].
      destruct (Hok name o0 Hentry) as (Hfp & Htmp & Hfile).
      destruct (of_err o0) eqn:Herr.
      * destruct (bq_last b); step_monad; eexists _, _; (split; [reflexivity|]).
        -- by eapply table_ok_delete.
        -- done.
      * unfold bind at 1, store, modify.
        match goal with |- context [set_openFiles (<[name := ?o]> _) p] =>
          set (o1 := o); set (p1 := set_openFiles (<[name := o1]> (openFiles p)) p) end.
        assert (Ho1 : entry_ok name o1) by (split_and!; done).
        assert (Hok1 : table_ok p1) by (by eapply table_ok_insert).
        assert (He1 : openFiles p1 !! name = Some o1) by apply lookup_insert_eq.
        clearbody p1.
        destruct (0 <? length (bq_copy b))%nat; [|destruct (Size (bq_block b) >? 0)].
        -- destruct (handleCopyBlock_spec b p1)
             as (p2 & evs & Hrun & _ & _ & _ & _ & Hres).
           unfold bind. rewrite Hrun. unfold ret. exists true, p2. split; [done|].
           fold name in Hres. rewrite He1 in Hres.
           change (default zeroOpenFile (Some o1)) with o1 in Hres.
           destruct Hres as [[Ht _]|(e & Ht & _)].
           ++ by eapply table_ok_same.
           ++ eapply table_ok_insert; [exact Hok1| |exact Ht]. split_and!; done.
        -- destruct (handleRequestBlock_dispatch b p1 o1 He1)
             as (a & p2 & evs & Hrun & _ & _ & _ & Hnone & Hsome).
           exists a, p2. split; [done|].
           destruct (decide ((leastBusyNode (oustandingPerNode p1) (of_availability o1)
                                (cm p1)).1 = ""%string)) as [Hsel|Hsel].
           ++ destruct (Hnone Hsel) as (_ & _ & Ht). destruct (bq_last b).
              ** by eapply table_ok_delete.
              ** eapply table_ok_insert; [exact Hok1| |exact Ht]. split_and!; done.
           ++ destruct (Hsome Hsel) as (_ & _ & _ & Ht).
              eapply table_ok_insert; [exact Hok1| |exact Ht]. split_and!; done.
        -- destruct (handleEmptyBlock_table b p1) as (p2 & Hrun & Ht & _).
           unfold bind. rewrite Hrun. unfold ret. exists true, p2. split; [done|].
           by eapply table_ok_delete.
    + change (default zeroOpenFile None) with zeroOpenFile.
      match goal with |- context [openNew b ?o] => set (o0 := o) end.
      destruct (openNew_table b o0 p) as (opened & p1 & Hrun & Hres).
      unfold bind at 1. rewrite Hrun. destruct opened as [o1|].
      2:{ exists true, p1. split; [done|]. destruct Hres as [Ht|(e & Ht)].
          - by eapply table_ok_same.
          - eapply table_ok_insert; [exact Hok| |exact Ht]. split_and!; done. }
      destruct Hres as [Ht Ho1]. rewrite Ho1. cbn [of_err].
      rewrite <- Ho1. unfold bind at 1, store, modify.
      set (p2 := set_openFiles (<[name := o1]> (openFiles p1)) p1).
      assert (Ho1' : entry_ok name o1) by (rewrite Ho1; split_and!; done).
      assert (Hok2 : table_ok p2).
      { eapply (table_ok_insert p1); [by eapply table_ok_same|exact Ho1'|done]. }
      assert (He2 : openFiles p2 !! name = Some o1) by apply lookup_insert_eq.
      clearbody p2.
      destruct (0 <? length (bq_copy b))%nat; [|destruct (Size (bq_block b) >? 0)].
      * destruct (handleCopyBlock_spec b p2)
          as (p3 & evs & Hrun3 & _ & _ & _ & _ & Hres).
        unfold bind. rewrite Hrun3. unfold ret. exists true, p3. split; [done|].
        fold name in Hres. rewrite He2 in Hres.
        change (default zeroOpenFile (Some o1)) with o1 in Hres.
        destruct Hres as [[Ht3 _]|(e & Ht3 & _)].
        -- by eapply table_ok_same.
        -- eapply table_ok_insert; [exact Hok2| |exact Ht3].
           destruct Ho1' as (? & ? & ?). split_and!; done.
      * destruct (handleRequestBlock_dispatch b p2 o1 He2)
          as (a & p3 & evs & Hrun3 & _ & _ & _ & Hnone & Hsome).
        exists a, p3. split; [done|].
        destruct Ho1' as (? & ? & ?).
        destruct (decide ((leastBusyNode (oustandingPerNode p2) (of_availability o1)
                             (cm p2)).1 = ""%string)) as [Hsel|Hsel].
        -- destruct (Hnone Hsel) as (_ & _ & Ht3). destruct (bq_last b).
           ++ by eapply table_ok_delete.
           ++ eapply table_ok_insert; [exact Hok2| |exact Ht3]. split_and!; done.
        -- destruct (Hsome Hsel) as (_ & _ & _ & Ht3).
           eapply table_ok_insert; [exact Hok2| |exact Ht3]. split_and!; done.
      * destruct (handleEmptyBlock_table b p2) as (p3 & Hrun3 & Ht3 & _).
        unfold bind. rewrite Hrun3. unfold ret. exists true, p3. split; [done|].
        by eapply table_ok_delete.
  - intros res. unfold handleRequestResult. step_monad.
    destruct (openFiles p !! Name (rr_file res)) as [o|] eqn:Hentry.
    2:{ eexists. split; [reflexivity|]. by eapply table_ok_same. }
    destruct (of_err o) eqn:Herr.
    { eexists. split; [reflexivity|]. by eapply table_ok_same. }
    destruct (Hok _ o Hentry) as (Hfp & Htmp & Hfile).
    step_monad. cbn [of_done of_outstanding].
    match goal with |- context [<[_ := ?o']> _] => set (o1 := o') end.
    assert (Ho1 : entry_ok (Name (rr_file res)) o1).
    { split_and!; try done. intros _. by apply Hfile. }
    destruct (of_done o && _).
    + match goal with
      | |- context [closeFile ?f ?q] => destruct (closeFile_frame f q) as [w' ->]
      end.
      eexists. split; [reflexivity|].
      eapply (table_ok_delete _ _ (Name (rr_file res))); [exact Hok|].
      cbn. apply map_eq. intros k. destruct (decide (Name (rr_file res) = k)) as [->|Hne].
      * by rewrite !lookup_delete_eq.
      * by rewrite !lookup_delete_ne, lookup_insert_ne.
    + eexists. split; [reflexivity|]. by eapply table_ok_insert.
Qed.

End Handlers.

(** ** Directory fixup comes to an end *)

Section Fixup.
Context `{Ext : Externals}.
Implicit Types (p : puller) (t : gmap path inode) (loc : gmap path File)
  (q : path) (i : inode).

Lemma potential_insert ip loc t q i i' :
  t !! q = Some i →
  (potential ip loc (<[q := i']> t) + weight ip loc (q, i)
   = potential ip loc t + weight ip loc (q, i'))%nat.
Proof.
  intros Hq. unfold potential.
  rewrite <- (insert_delete_eq t q i').
  rewrite map_to_list_insert by apply lookup_delete_eq.
  rewrite <- (map_to_list_delete t q i Hq). cbn [sum_list_with]. lia.
Qed.

Lemma potential_delete ip loc t q i :
  t !! q = Some i →
  (potential ip loc (delete q t) + weight ip loc (q, i) = potential ip loc t)%nat.
Proof.
  intros Hq. unfold potential.
  rewrite <- (map_to_list_delete t q i Hq). cbn [sum_list_with]. lia.
Qed.

Lemma weight_bounds ip loc kv : (3 ≤ weight ip loc kv ≤ 5)%nat.
Proof.
  unfold weight. destruct (restores _ _ _); [|lia].
  destruct (perm_off _ _ _), (time_off _ _); simpl; lia.
Qed.

Lemma potential_bound ip loc t : (potential ip loc t ≤ 5 * size t)%nat.
Proof.
  unfold potential. rewrite <- length_map_to_list.
  induction (map_to_list t) as [|kv l IH]; cbn [sum_list_with length]; [lia|].
  pose proof (weight_bounds ip loc kv). lia.
Qed.

(** Moving the modification time of an entry moves its weight by one at
    most. *)
Lemma weight_set_mtime ip loc q i now :
  (weight ip loc (q, set_mtime now i) ≤ weight ip loc (q, i) + 1)%nat.
Proof.
  unfold weight, restores, visits, perm_off, Mode. simpl.
  destruct (_ && _ && _); [|lia].
  destruct (bool_decide _); [|lia]. destruct (IsDeleted _); [lia|].
  destruct (negb ip && _ && _), (time_off _ (set_mtime now i)), (time_off _ i);
    simpl; lia.
Qed.

Lemma potential_touch ip loc t q now :
  (potential ip loc (touch now q t) ≤ potential ip loc t + 1)%nat.
Proof.
  unfold touch. destruct (t !! q) as [i|] eqn:Hq.
  - replace (alter (set_mtime now) q t) with (<[q := set_mtime now i]> t).
    + pose proof (potential_insert ip loc t q i (set_mtime now i) Hq).
      pose proof (weight_set_mtime ip loc q i now). lia.
    + apply map_eq. intros k. destruct (decide (q = k)) as [->|Hne].
      * by rewrite lookup_insert_eq, lookup_alter_eq, Hq.
      * by rewrite lookup_insert_ne, lookup_alter_ne.
  - replace (alter (set_mtime now) q t) with t; [lia|].
    apply map_eq. intros k. destruct (decide (q = k)) as [->|Hne].
    + by rewrite lookup_alter_eq, Hq.
    + by rewrite lookup_alter_ne.
Qed.

Lemma same_shape_refl t : same_shape t t.
Proof. by intros q. Qed.

Lemma same_shape_trans t1 t2 t3 :
  same_shape t1 t2 → same_shape t2 t3 → same_shape t1 t3.
Proof. intros H1 H2 q. by rewrite H2, H1. Qed.

Lemma same_shape_insert t q i i' :
  t !! q = Some i → i_dir i' = i_dir i → same_shape t (<[q := i']> t).
Proof.
  intros Hq Hdir k. destruct (decide (q = k)) as [->|Hne].
  - rewrite lookup_insert_eq, Hq. simpl. by rewrite Hdir.
  - by rewrite lookup_insert_ne.
Qed.

Lemma same_shape_is_Some t t' q :
  same_shape t t' → is_Some (t !! q) → is_Some (t' !! q).
Proof.
  intros Hs [i Hi]. specialize (Hs q). rewrite Hi in Hs.
  destruct (t' !! q); [by eexists|done].
Qed.

Lemma walked_refl p : walked 0 p p.
Proof.
  unfold walked. split_and!; first [done | lia | apply same_shape_refl].
Qed.

Lemma walked_trans k1 k2 p1 p2 p3 :
  walked k1 p1 p2 → walked k2 p2 p3 → walked (k1 + k2) p1 p3.
Proof.
  intros (Hi1 & Hl1 & Hs1 & Hw1 & Hz1 & Ha1) (Hi2 & Hl2 & Hs2 & Hw2 & Hz2 & Ha2).
  unfold walked. split_and!.
  - congruence.
  - congruence.
  - by eapply same_shape_trans.
  - lia.
  - intros Hk. rewrite Hz2, Hz1 by lia. done.
  - by etrans.
Qed.

Lemma visits_dir loc q i cur : visits loc q i = Some cur → i_dir i = true.
Proof. unfold visits, IsDir. by destruct (i_dir i). Qed.

Lemma visits_same_dir loc q i i' :
  i_dir i' = i_dir i → visits loc q i' = visits loc q i.
Proof. unfold visits, IsDir. by intros ->. Qed.

Lemma perms_restored flags :
  PermsEqual flags (Z.lor ModeDir (Z.land (Z.land flags ModePerm) ModePerm)) = true.
Proof.
  unfold PermsEqual. apply bool_decide_eq_true.
  rewrite Z.land_lor_distr_l.
  change (Z.land ModeDir ModePerm) with 0. rewrite Z.lor_0_l.
  rewrite <- !Z.land_assoc. by rewrite !Z.land_diag.
Qed.

Lemma weight_chmod ip loc q i cur :
  restores loc q i = Some cur → perm_off ip cur i = true →
  (weight ip loc (q, set_mode (Z.land (Z.land (Flags cur) ModePerm) ModePerm) i) + 1
   = weight ip loc (q, i))%nat.
Proof.
  intros Hres Hoff. unfold weight, restores in *. cbn [fst snd] in *.
  destruct (visits loc q i) as [c|] eqn:Hv; [|done].
  rewrite (visits_same_dir loc q i (set_mode _ i)) by done. rewrite Hv.
  destruct (IsDeleted (Flags c)); [done|]. injection Hres as ->.
  rewrite Hoff. unfold perm_off, time_off, Mode, ModTime. cbn.
  rewrite (visits_dir _ _ _ _ Hv). rewrite perms_restored.
  rewrite andb_false_r. simpl. lia.
Qed.

Lemma weight_chtimes ip loc q i cur :
  restores loc q i = Some cur → time_off cur i = true →
  (weight ip loc (q, set_mtime (Modified cur) i) + 1 = weight ip loc (q, i))%nat.
Proof.
  intros Hres Hoff. unfold weight, restores in *. cbn [fst snd] in *.
  destruct (visits loc q i) as [c|] eqn:Hv; [|done].
  rewrite (visits_same_dir loc q i (set_mtime _ i)) by done. rewrite Hv.
  destruct (IsDeleted (Flags c)); [done|]. injection Hres as ->.
  rewrite Hoff. unfold perm_off, time_off, Mode, ModTime. cbn.
  rewrite Z.eqb_refl. simpl. lia.
Qed.

(** One restoring call of the walk: nothing happens when it fails, one
    unit of work is done when it succeeds. *)
Lemma restore_walked p (c : call) sem q i i' :
  fs (env p) !! q = Some i →
  (∀ r, no_remove (c, r)) →
  (∀ now, sem now (fs (env p)) = inr (<[q := i']> (fs (env p)))) →
  i_dir i' = i_dir i →
  (weight (IgnorePerms p) (local (env p)) (q, i') + 1
   = weight (IgnorePerms p) (local (env p)) (q, i))%nat →
  walked (match (sys c sem (env p)).1 with None => 1 | Some _ => 0 end)
         p (set_env (sys c sem (env p)).2 p)
  ∧ fs (sys c sem (env p)).2 !! q
    = Some (match (sys c sem (env p)).1 with None => i' | Some _ => i end).
Proof.
  intros Hq Hc Hsem Hdir Hw.
  destruct (sys c sem (env p)) as [r w'] eqn:E. cbn [fst snd].
  assert (Hadds : adds no_remove p (set_env w' p)).
  { pose proof (adds_sys no_remove c sem p Hc) as Ha. by rewrite E in Ha. }
  apply sys_inv in E as (_ & Hloc & _ & _ & Hres).
  unfold walked, work. cbn [env IgnorePerms set_env]. rewrite Hloc.
  destruct r as [e|].
  - destruct Hres as [-> _]. split; [|done].
    split_and!; first [done | lia | apply same_shape_refl].
  - destruct Hres as [_ Hres]. rewrite Hsem in Hres. injection Hres as <-.
    split; [|by rewrite lookup_insert_eq]. split_and!; try done.
    + by eapply same_shape_insert.
    + pose proof (potential_insert (IgnorePerms p) (local (env p)) _ q i i' Hq).
      lia.
Qed.

Lemma restores_walked loc q i i' cur :
  restores loc q i = Some cur → i_dir i' = i_dir i → restores loc q i' = Some cur.
Proof.
  unfold restores. intros H Hdir. by rewrite (visits_same_dir loc q i i').
Qed.

(** A visit of the walk. *)
Lemma walkFn_walked q i acc p :
  fs (env p) !! q = Some i →
  ∃ acc' p' k, walkFn q i acc p = Done acc' p'
    ∧ walked k p p'
    ∧ acc'.1 = acc.1 ++ (if queues (local (env p)) q i then [q] else [])
    ∧ acc'.2 = Nat.iter k int_incr acc.2.
Proof.
  intros Hq.
  assert (Hskip : queues (local (env p)) q i = false →
    ∃ acc' p' k, Done acc p = Done acc' p'
      ∧ walked k p p'
      ∧ acc'.1 = acc.1 ++ (if queues (local (env p)) q i then [q] else [])
      ∧ acc'.2 = Nat.iter k int_incr acc.2).
  { intros ->. exists acc, p, 0%nat. rewrite app_nil_r.
    split_and!; try done. apply walked_refl. }
  unfold walkFn.
  destruct (IsDir i) eqn:Hdir; cbn [negb];
    [|apply Hskip; unfold queues, visits; by rewrite Hdir].
  destruct (bool_decide (q = [])) eqn:Hroot;
    [apply Hskip; unfold queues, visits; by rewrite Hdir, Hroot|].
  destruct (bool_decide (Base q = ".stversions"%string)) eqn:Hver;
    [apply Hskip; unfold queues, visits; by rewrite Hdir, Hroot, Hver|].
  step_monad. unfold CurrentRepoFile.
  set (cur := default zeroFile (local (env p) !! q)).
  destruct (bool_decide (Name cur = q)) eqn:Hname; cbn [negb];
    [|apply Hskip; unfold queues, visits; fold cur;
      by rewrite Hdir, Hroot, Hver, Hname].
  assert (Hvisits : visits (local (env p)) q i = Some cur).
  { unfold visits. fold cur. by rewrite Hdir, Hroot, Hver, Hname. }
  destruct (IsDeleted (Flags cur)) eqn:Hdel.
  { exists (acc.1 ++ [q], acc.2), p, 0%nat. unfold queues. rewrite Hvisits, Hdel.
    split_and!; try done. apply walked_refl. }
  assert (Hrestores : restores (local (env p)) q i = Some cur).
  { unfold restores. by rewrite Hvisits, Hdel. }
  assert (Hqueues : queues (local (env p)) q i = false).
  { unfold queues. by rewrite Hvisits. }
  rewrite Hqueues, app_nil_r. unfold M.
  (* the mode *)
  match goal with
  | |- context [(if negb (IgnorePerms p) && ?h && ?e then ?A else ?B) p] =>
      assert (Hmode : ∃ p1 k1 i1,
        (if negb (IgnorePerms p) && h && e then A else B) p
          = Done (Nat.iter k1 int_incr acc.2) p1
        ∧ walked k1 p p1
        ∧ fs (env p1) !! q = Some i1
        ∧ i_dir i1 = i_dir i ∧ ModTime i1 = ModTime i)
  end.
  { destruct (negb (IgnorePerms p) && HasPermissionBits (Flags cur)
              && negb (PermsEqual (Flags cur) (Mode i))) eqn:Hperm.
    - unfold os_Chmod.
      destruct (restore_walked p (CChmod q (Z.land (Flags cur) ModePerm))
                  (fs_chmod q (Z.land (Flags cur) ModePerm)) q i
                  (set_mode (Z.land (Z.land (Flags cur) ModePerm) ModePerm) i))
        as [Hw Hfs]; try done.
      + intros now. unfold fs_chmod. by rewrite Hq.
      + by apply weight_chmod.
      + destruct (sys _ _ (env p)) as [[e|] w1]; cbn [fst snd] in *.
        * by exists (set_env w1 p), 0%nat, i.
        * by eexists (set_env w1 p), 1%nat, _.
    - exists p, 0%nat, i. split_and!; try done. apply walked_refl. }
  destruct Hmode as (p1 & k1 & i1 & Hrun1 & Hw1 & Hq1 & Hdir1 & Htime1).
  rewrite Hrun1.
  (* the modification time *)
  destruct Hw1 as (Hi1 & Hl1 & Hw1).
  destruct (negb (Modified cur =? ModTime i)) eqn:Htime.
  - unfold os_Chtimes.
    destruct (restore_walked p1 (CChtimes q (Modified cur))
                (fs_chtimes q (Modified cur)) q i1
                (set_mtime (Modified cur) i1))
      as [Hw2 _]; try done.
    + intros now. unfold fs_chtimes. by rewrite Hq1.
    + rewrite Hi1, Hl1. apply weight_chtimes.
      * by apply (restores_walked _ _ i).
      * unfold time_off. by rewrite Htime1.
    + destruct (sys _ _ (env p1)) as [[e|] w2]; cbn [fst snd] in *.
      * eexists _, _, (k1 + 0)%nat. split; [reflexivity|].
        split; [by eapply walked_trans|]. rewrite Nat.add_0_r. done.
      * eexists _, _, (k1 + 1)%nat. split; [reflexivity|].
        split; [by eapply walked_trans|]. cbn [fst snd].
        split; [done|]. by rewrite Nat.add_comm.
  - eexists _, _, k1. split; [reflexivity|]. done.
Qed.

Lemma queued_same_shape loc t t' q :
  same_shape t t' → queued loc t' q = queued loc t q.
Proof.
  intros Hs. unfold queued, queues. specialize (Hs q).
  destruct (t !! q) as [i|], (t' !! q) as [i'|]; simplify_eq/=; [|done].
  by rewrite (visits_same_dir loc q i i').
Qed.

(** The walk over the paths [qs], all present: it queues those of them
    that are tombstoned directories, in order. *)
Lemma walkPaths_walked qs acc p :
  (∀ q, q ∈ qs → is_Some (fs (env p) !! q)) →
  ∃ acc' p' k, walkPaths qs acc p = Done acc' p'
    ∧ walked k p p'
    ∧ acc'.1 = acc.1 ++ filter (λ q, queued (local (env p)) (fs (env p)) q = true) qs
    ∧ acc'.2 = Nat.iter k int_incr acc.2.
Proof.
  revert acc p. induction qs as [|q qs IH]; intros acc p Hall.
  - exists acc, p, 0%nat. rewrite filter_nil, app_nil_r.
    split_and!; try done. apply walked_refl.
  - destruct (Hall q) as [i Hq]; [set_solver|].
    simpl. unfold bind at 1, gets at 1. rewrite Hq.
    destruct (walkFn_walked q i acc p Hq) as (acc1 & p1 & k1 & Hrun1 & Hw1 & Hd1 & Hc1).
    unfold bind at 1. rewrite Hrun1.
    pose proof Hw1 as (_ & Hl1 & Hs1 & _).
    destruct (IH acc1 p1) as (acc2 & p2 & k2 & Hrun2 & Hw2 & Hd2 & Hc2).
    { intros q' Hq'. apply (same_shape_is_Some (fs (env p))); [done|].
      apply Hall. set_solver. }
    exists acc2, p2, (k1 + k2)%nat. split; [done|].
    split; [by eapply walked_trans|]. split.
    + rewrite Hd2, Hd1, <- app_assoc. f_equal.
      assert (Hqd : queued (local (env p)) (fs (env p)) q
                    = queues (local (env p)) q i)
        by (unfold queued; by rewrite Hq).
      rewrite filter_cons.
      rewrite (list_filter_iff _ (λ q0, queued (local (env p)) (fs (env p)) q0 = true)).
      * destruct (queues (local (env p)) q i) eqn:Hqu.
        -- by rewrite decide_True.
        -- rewrite decide_False; [done|]. by rewrite Hqd.
      * intros q'. rewrite Hl1. by rewrite (queued_same_shape _ _ _ _ Hs1).
    + rewrite Hc2, Hc1. rewrite (Nat.add_comm k1 k2). by rewrite Nat.iter_add.
Qed.

Lemma Walk_walked p :
  is_Some (fs (env p) !! []) →
  ∃ walked_ p' k, Walk p = Done walked_ p'
    ∧ walked k p p'
    ∧ walked_.1 = queue (local (env p)) (fs (env p))
    ∧ walked_.2 = Nat.iter k int_incr 0.
Proof.
  intros [r Hroot]. unfold Walk. unfold bind at 1, gets at 1. rewrite Hroot.
  unfold bind at 1, gets at 1.
  destruct (walkPaths_walked (walk_order (fs (env p))) ([], 0) p)
    as (acc & p' & k & Hrun & Hw & Hd & Hc).
  { intros q. by rewrite walk_order_elem_of. }
  exists acc, p', k. done.
Qed.

(** Removing the queued directories: every removal that succeeds takes
    an entry out and is a unit of work; one that fails changes nothing. *)
Lemma removeDirs_spec ds deleted p :
  ∃ deleted' p' k rs, removeDirs ds deleted p = Done deleted' p'
    ∧ IgnorePerms p' = IgnorePerms p
    ∧ local (env p') = local (env p)
    ∧ (work p' + k ≤ work p)%nat
    ∧ (k = 0%nat → fs (env p') = fs (env p))
    ∧ deleted' = Nat.iter k int_incr deleted
    ∧ length rs = length ds
    ∧ log (env p') = log (env p) ++ zip_with (λ d r, (CRemove d, r)) ds rs
    ∧ (Forall (λ d, d ≠ []) ds → is_Some (fs (env p) !! []) →
       is_Some (fs (env p') !! [])).
Proof.
  revert deleted p. induction ds as [|d ds IH]; intros deleted p.
  - exists deleted, p, 0%nat, []. simpl. rewrite app_nil_r.
    split_and!; first [done | lia].
  - simpl. unfold bind at 1, world_do at 1. unfold os_Remove.
    destruct (sys (CRemove d) (fs_remove d) (env p)) as [r w1] eqn:E.
    cbn [fst snd].
    apply sys_inv in E as (Hlog & Hloc & _ & _ & Hres).
    destruct (IH (match r with None => int_incr deleted | Some _ => deleted end)
                 (set_env w1 p))
      as (deleted' & p' & k & rs & Hrun & Hi & Hl & Hw & Hz & Hd & Hlen & Hlog' & Hroot).
    cbn [env set_env IgnorePerms] in *. unfold work in *.
    cbn [env set_env IgnorePerms] in *.
    destruct r as [e|].
    + destruct Hres as [Hfs _]. rewrite Hfs, Hloc in *.
      exists deleted', p', k, (Some e :: rs).
      split; [done|]. split; [done|]. split; [done|]. split; [done|].
      split; [done|]. split; [done|].
      split; [simpl; by rewrite Hlen|].
      split; [rewrite Hlog', Hlog, <- app_assoc; done|].
      intros [Hne Hrest]%Forall_cons_1 Hr. by apply Hroot.
    + destruct Hres as [_ Hrm]. unfold fs_remove in Hrm.
      destruct (fs (env p) !! d) as [i|] eqn:Hd'; [|done].
      destruct (_ && _); [done|]. injection Hrm as Hfs.
      pose proof (potential_delete (IgnorePerms p) (local (env p)) _ d i Hd') as Hdel.
      pose proof (potential_touch (IgnorePerms p) (local (env p))
                    (delete d (fs (env p))) (Dir d)
                    (v_now (oracle (env p) (tick (env p))))) as Htouch.
      pose proof (weight_bounds (IgnorePerms p) (local (env p)) (d, i)) as Hwb.
      rewrite Hfs in Htouch. rewrite Hloc in *.
      exists deleted', p', (S k), (None :: rs).
      split; [done|]. split; [done|]. split; [done|].
      split; [lia|]. split; [done|].
      split; [rewrite Hd; by rewrite Nat.iter_succ_r|].
      split; [simpl; by rewrite Hlen|].
      split; [rewrite Hlog', Hlog, <- app_assoc; done|].
      intros [Hne Hrest]%Forall_cons_1 Hr. apply Hroot; [done|].
      rewrite <- Hfs. unfold touch. apply lookup_alter_is_Some.
      by rewrite lookup_delete_ne.
Qed.

Lemma queued_not_root loc t q : queued loc t q = true → q ≠ [].
Proof.
  unfold queued, queues, visits. destruct (t !! q) as [i|]; [|done].
  destruct (IsDir i); [|done]. simpl. case_bool_decide; [done|]. done.
Qed.

(** One turn of the outer loop. *)
Lemma fixupPass_spec p :
  is_Some (fs (env p) !! []) →
  ∃ counts p' k1 k2 evs rs, fixupPass p = Done counts p'
    ∧ IgnorePerms p' = IgnorePerms p
    ∧ local (env p') = local (env p)
    ∧ (work p' + (k1 + k2) ≤ work p)%nat
    ∧ ((k1 + k2 = 0)%nat → fs (env p') = fs (env p))
    ∧ counts.1 = Nat.iter k1 int_incr 0
    ∧ counts.2 = Nat.iter k2 int_incr 0
    ∧ is_Some (fs (env p') !! [])
    ∧ log (env p') =
        log (env p) ++ evs
          ++ zip_with (λ d r, (CRemove d, r))
               (rev (queue (local (env p)) (fs (env p)))) rs
    ∧ length rs = length (queue (local (env p)) (fs (env p)))
    ∧ Forall no_remove evs.
Proof.
  intros Hroot. unfold fixupPass.
  destruct (Walk_walked p Hroot) as (wk & p1 & k1 & Hrun1 & Hw1 & Hq1 & Hc1).
  unfold bind at 1. rewrite Hrun1.
  destruct Hw1 as (Hi1 & Hl1 & Hs1 & Hwork1 & Hz1 & evs & Hlog1 & Hevs).
  destruct (removeDirs_spec (rev wk.1) 0 p1)
    as (dl & p2 & k2 & rs & Hrun2 & Hi2 & Hl2 & Hwork2 & Hz2 & Hc2 & Hlen & Hlog2 & Hroot2).
  unfold bind at 1. rewrite Hrun2. unfold ret.
  exists (wk.2, dl), p2, k1, k2, evs, rs. split; [done|].
  assert (Hwork : work p2 = potential (IgnorePerms p) (local (env p)) (fs (env p2))).
  { unfold work. congruence. }
  split; [congruence|]. split; [congruence|]. split; [lia|].
  split; [intros Hk; rewrite Hz2, Hz1 by lia; done|].
  split; [done|]. split; [done|]. split.
  { apply Hroot2.
    - rewrite Hq1. apply Forall_forall. intros d Hd.
      apply list_elem_of_In, in_rev, list_elem_of_In in Hd.
      apply list_elem_of_filter in Hd as [Hd _]. by eapply queued_not_root.
    - by eapply same_shape_is_Some. }
  split; [rewrite Hlog2, Hlog1, Hq1, <- app_assoc; done|].
  split; [|done]. rewrite Hlen, Hq1. by rewrite length_rev.
Qed.

Lemma iter_incr_exact k :
  Z.of_nat k < 2 ^ 63 → Nat.iter k int_incr 0 = Z.of_nat k.
Proof.
  induction k as [|k IH]; [done|]. intros Hk. simpl Nat.iter.
  rewrite IH by lia. rewrite int_incr_exact by lia. lia.
Qed.

(** The loop, by induction on the work that is left. *)
Lemma fixup_loop w p :
  (work p ≤ w)%nat → is_Some (fs (env p) !! []) →
  ∃ n p_last counts p' k1 k2,
    (n ≤ w)%nat
    ∧ turns n p p_last
    ∧ (work p_last ≤ work p)%nat
    ∧ fixupPass p_last = Done counts p'
    ∧ wrap_int (counts.1 + counts.2) = 0
    ∧ (∀ fuel, (n < fuel)%nat → fixupDirectories fuel p = Done true p')
    ∧ counts.1 = Nat.iter k1 int_incr 0
    ∧ counts.2 = Nat.iter k2 int_incr 0
    ∧ (k1 + k2 ≤ work p_last)%nat
    ∧ ((k1 + k2 = 0)%nat → fs (env p') = fs (env p_last)).
Proof.
  revert p. induction w as [|w IH]; intros p Hw Hroot;
    destruct (fixupPass_spec p Hroot)
      as (counts & p1 & k1 & k2 & evs & rs & Hrun & Hi & Hl & Hwork & Hz & Hc1 & Hc2
          & Hroot1 & _);
    destruct (decide (wrap_int (counts.1 + counts.2) = 0)) as [Hzero|Hnz].
  - exists 0%nat, p, counts, p1, k1, k2.
    split_and!; try done; try lia; try constructor.
    intros [|fuel] Hf; [lia|]. simpl. unfold bind. rewrite Hrun.
    by rewrite Hzero.
  - destruct Hnz. assert (k1 = 0 ∧ k2 = 0)%nat as [-> ->] by lia.
    by rewrite Hc1, Hc2.
  - exists 0%nat, p, counts, p1, k1, k2.
    split_and!; try done; try lia; try constructor.
    intros [|fuel] Hf; [lia|]. simpl. unfold bind. rewrite Hrun.
    by rewrite Hzero.
  - assert (k1 + k2 ≠ 0)%nat as Hk.
    { intros Hk. destruct Hnz. assert (k1 = 0 ∧ k2 = 0)%nat as [-> ->] by lia.
      by rewrite Hc1, Hc2. }
    destruct (IH p1) as (n & p_last & counts' & p' & k1' & k2' & Hn & Hturns & Hwl
                         & Hlast & Hzero & Hfuel & Hrest); [lia|done|].
    exists (S n), p_last, counts', p', k1', k2'.
    split; [lia|]. split; [by econstructor|]. split; [lia|].
    split; [done|]. split; [done|]. split; [|done].
    intros [|fuel] Hf; [lia|]. simpl. unfold bind. rewrite Hrun.
    apply Z.eqb_neq in Hnz. rewrite Hnz. apply Hfuel. lia.
Qed.

(** C6. When the repository directory is not there [fixupDirectories]
    does not return: [filepath.Walk] hands the root to [walkFn] with a nil
    [info] and the error of [lstat], [walkFn] never looks at the error and
    calls [info.IsDir()], and the first turn of the loop panics, whatever
    the model lists and however many turns are allowed. *)
Theorem fixupDirectories_missing_root p fuel :
  fs (env p) !! [] = None →
  fixupDirectories (S fuel) p
  = Panic "invalid memory address or nil pointer dereference"
    ∧ ∀ n p', fixupDirectories n p ≠ Done true p'.
Proof.
  intros Hroot.
  assert (Hpass : fixupPass p
                  = Panic "invalid memory address or nil pointer dereference").
  { unfold fixupPass, Walk, bind, gets. by rewrite Hroot. }
  split.
  - simpl. unfold bind. by rewrite Hpass.
  - intros [|n] p'; simpl; [done|]. unfold bind. by rewrite Hpass.
Qed.

(** On a repository directory that exists, on the file system of this
    development (the walk can read every entry, and a modification time is
    stored as it is given), [fixupDirectories] returns:
    after a number of turns of the outer loop that is at most five times
    the number of entries of the tree, a turn ends with
    [changed + deleted == 0] and the function returns; unless the counters
    have wrapped around, which a tree of fewer than [2^63 / 5] entries
    rules out, that last turn has changed no attribute and removed
    nothing.  In every turn the directories are removed in the reverse of
    the order in which the walk queued them, after all calls of the walk,
    and in that order nothing is removed after a directory above it. *)
Theorem fixupDirectories_terminates p :
  is_Some (fs (env p) !! []) →
  ∃ n p_last counts p',
    (n ≤ 5 * size (fs (env p)))%nat
    ∧ turns n p p_last
    ∧ fixupPass p_last = Done counts p'
    ∧ wrap_int (counts.1 + counts.2) = 0
    ∧ (∀ fuel, (n < fuel)%nat → fixupDirectories fuel p = Done true p')
    ∧ (5 * Z.of_nat (size (fs (env p))) < 2 ^ 63 →
       counts = (0, 0) ∧ fs (env p') = fs (env p_last))
    ∧ (∀ p0, is_Some (fs (env p0) !! []) →
       ∃ counts0 p1 evs rs, fixupPass p0 = Done counts0 p1
         ∧ log (env p1) =
             log (env p0) ++ evs
               ++ zip_with (λ d r, (CRemove d, r))
                    (rev (queue (local (env p0)) (fs (env p0)))) rs
         ∧ length rs = length (queue (local (env p0)) (fs (env p0)))
         ∧ Forall no_remove evs)
    ∧ (∀ loc t l1 (d : path) l2 (d' : path),
       rev (queue loc t) = l1 ++ d :: l2 → d' ∈ l2 → d `prefix_of` d' → d' = d).
Proof.
  intros Hroot.
  destruct (fixup_loop (work p) p) as (n & p_last & counts & p' & k1 & k2 & Hn & Hturns
    & Hwl & Hlast & Hzero & Hfuel & Hc1 & Hc2 & Hk & Hz); [done|done|].
  pose proof (potential_bound (IgnorePerms p) (local (env p)) (fs (env p))) as Hbound.
  fold (work p) in Hbound.
  exists n, p_last, counts, p'.
  split; [lia|]. split; [done|]. split; [done|]. split; [done|]. split; [done|].
  split; [|split].
  - intros Hsize.
    rewrite Hc1, Hc2 in Hzero. rewrite !iter_incr_exact in Hzero by lia.
    rewrite wrap_int_small in Hzero by lia.
    assert (k1 = 0 ∧ k2 = 0)%nat as [-> ->] by lia.
    split; [|by apply Hz]. destruct counts as [c d]. simpl in *. congruence.
  - intros p0 Hroot0.
    destruct (fixupPass_spec p0 Hroot0)
      as (counts0 & p1 & ? & ? & evs & rs & Hrun & _ & _ & _ & _ & _ & _ & _
          & Hlog & Hlen & Hevs).
    by exists counts0, p1, evs, rs.
  - intros loc t l1 d l2 d'. unfold queue. apply reversed_walk_deepest_first.
Qed.

(** *** What fixup leaves alone, and what it achieves *)





















End Fixup.

(** ** Peer selection *)

Section Selection.
Context `{Ext : Externals}.
Implicit Types (m : gmap string Z) (c : cidMap) (n : string) (l : list string).

(** The test of the availability bit is the test of bit [id] of a 64-bit
    bitmap. *)
Lemma has_bit_spec availability id :
  0 ≤ id → has_bit availability id = (id <? 64) && Z.testbit availability id.
Proof.
  intros Hid. unfold has_bit, wrap_u64. rewrite Z.shiftl_1_l.
  destruct (id <? 64) eqn:Hlt; simpl.
  - apply Z.ltb_lt in Hlt.
    rewrite Z.mod_small
      by (split; [apply Z.pow_nonneg; lia|apply Z.pow_lt_mono_r; lia]).
    destruct (Z.testbit availability id) eqn:Hbit.
    + apply negb_true_iff, Z.eqb_neq. intros Hz.
      apply (f_equal (λ z, Z.testbit z id)) in Hz.
      rewrite Z.land_spec, Hbit, Z.pow2_bits_true, Z.bits_0 in Hz by lia. done.
    + apply negb_false_iff, Z.eqb_eq. apply Z.bits_inj'. intros k Hk.
      rewrite Z.land_spec, Z.bits_0, Z.pow2_bits_eqb by lia.
      destruct (Z.eqb_spec id k) as [->|]; [by rewrite Hbit|by rewrite andb_false_r].
  - apply Z.ltb_ge in Hlt.
    replace (2 ^ id) with (2 ^ (id - 64) * 2 ^ 64)
      by (rewrite <- Z.pow_add_r by lia; f_equal; lia).
    rewrite Z.mod_mul by lia. by rewrite Z.land_0_r.
Qed.

(** What the loop of [leastBusyNode] has in [(low, selected)] after the
    names [l]: either nothing below the initial [low], or the first of the
    candidates with the least count. *)
Lemma leastBusy_loop m availability c low0 sel0 l :
  let r := foldl (leastBusyStep m availability c) (low0, sel0) l in
  (r = (low0, sel0)
   ∧ ∀ n, n ∈ l → candidate availability c n → low0 ≤ usage m n)
  ∨ (∃ l1 l2, l = l1 ++ r.2 :: l2
       ∧ candidate availability c r.2
       ∧ usage m r.2 = r.1 ∧ r.1 < low0
       ∧ (∀ n, n ∈ l1 → candidate availability c n → r.1 < usage m n)
       ∧ (∀ n, n ∈ l2 → candidate availability c n → r.1 ≤ usage m n)).
Proof.
  induction l as [|x l IH] using rev_ind; simpl.
  - left. split; [done|]. intros n Hn. by apply elem_of_nil in Hn.
  - rewrite foldl_app. simpl.
    set (r := foldl (leastBusyStep m availability c) (low0, sel0) l) in *.
    unfold leastBusyStep at 1 2 3 4 5 6 7 8.
    destruct (decide (candidate availability c x)) as [Hc|Hnc].
    + destruct Hc as [Hid Hbit].
      rewrite bool_decide_eq_false_2 by done. rewrite Hbit.
      fold (usage m x). destruct (Z.ltb_spec (usage m x) r.1) as [Hlt|Hge].
      * right. exists l, []. cbn [fst snd]. split; [done|]. split; [done|].
        split; [done|].
        destruct IH as [[Hr Hall]|(l1 & l2 & Hl & Hcs & Hu & Hlow & H1 & H2)].
        -- rewrite Hr in Hlt. cbn in Hlt. split; [done|]. split.
           ++ intros n Hn Hcn. specialize (Hall n Hn Hcn). lia.
           ++ intros n Hn. by apply elem_of_nil in Hn.
        -- split; [lia|]. split.
           ++ intros n Hn Hcn. rewrite Hl in Hn.
              apply elem_of_app in Hn as [Hn|Hn].
              ** specialize (H1 n Hn Hcn). lia.
              ** apply elem_of_cons in Hn as [->|Hn]; [lia|].
                 specialize (H2 n Hn Hcn). lia.
           ++ intros n Hn. by apply elem_of_nil in Hn.
      * destruct IH as [[Hr Hall]|(l1 & l2 & Hl & Hcs & Hu & Hlow & H1 & H2)].
        -- left. split; [done|]. intros n Hn Hcn.
           apply elem_of_app in Hn as [Hn|Hn]; [by apply Hall|].
           apply list_elem_of_singleton in Hn as ->.
           rewrite Hr in Hge. cbn in Hge. done.
        -- right. exists l1, (l2 ++ [x]). split; [by rewrite Hl, <- app_assoc|].
           split_and!; try done.
           intros n Hn Hcn. apply elem_of_app in Hn as [Hn|Hn]; [by apply H2|].
           apply list_elem_of_singleton in Hn as ->. done.
    + assert (Hskip : (if bool_decide (Get c x = LocalID) then r
                       else if has_bit availability (Get c x)
                            then if default 0 (m !! x) <? r.1
                                 then (default 0 (m !! x), x) else r
                            else r) = r).
      { case_bool_decide; [done|].
        destruct (has_bit availability (Get c x)) eqn:Hbit; [|done].
        destruct Hnc. done. }
      rewrite Hskip.
      destruct IH as [[Hr Hall]|(l1 & l2 & Hl & Hcs & Hu & Hlow & H1 & H2)].
      * left. split; [done|]. intros n Hn Hcn.
        apply elem_of_app in Hn as [Hn|Hn]; [by apply Hall|].
        apply list_elem_of_singleton in Hn as ->. done.
      * right. exists l1, (l2 ++ [x]). split; [by rewrite Hl, <- app_assoc|].
        split_and!; try done.
        intros n Hn Hcn. apply elem_of_app in Hn as [Hn|Hn]; [by apply H2|].
        apply list_elem_of_singleton in Hn as ->. done.
Qed.

(** X1. The selection of [leastBusyNode]: with no candidate whose count is
    below the initial [low] it is the empty name; otherwise it is the first
    candidate, in the order of [Names], whose count is the least.  Either
    way the counter of what was selected goes up, the empty name's too. *)
Lemma leastBusyNode_selects m availability c :
  let sel := (leastBusyNode m availability c).1 in
  ((sel = ""%string
    ∧ ∀ n, n ∈ Names c → candidate availability c n → 2 ^ 31 - 1 ≤ usage m n)
   ∨ (∃ l1 l2, Names c = l1 ++ sel :: l2
        ∧ candidate availability c sel
        ∧ usage m sel < 2 ^ 31 - 1
        ∧ (∀ n, n ∈ l1 → candidate availability c n → usage m sel < usage m n)
        ∧ (∀ n, n ∈ l2 → candidate availability c n → usage m sel ≤ usage m n)))
  ∧ (leastBusyNode m availability c).2 = <[sel := int_incr (usage m sel)]> m.
Proof.
  unfold leastBusyNode. cbn [fst snd]. split; [|done].
  change (Z.shiftl 2 30 - 1) with (2 ^ 31 - 1).
  destruct (leastBusy_loop m availability c (2 ^ 31 - 1) ""%string (Names c))
    as [[Hr Hall]|(l1 & l2 & Hl & Hcs & Hu & Hlow & H1 & H2)].
  - left. by rewrite Hr.
  - right. exists l1, l2. rewrite Hu. done.
Qed.

Lemma int_decr_incr z : - 2 ^ 63 ≤ z < 2 ^ 63 → int_decr (int_incr z) = z.
Proof.
  intros Hz. unfold int_decr, int_incr, wrap_int.
  destruct (decide (z = 2 ^ 63 - 1)) as [->|Hne].
  - reflexivity.
  - rewrite (Z.mod_small (z + 1 + 2 ^ 63)) by lia.
    rewrite Z.mod_small by lia. lia.
Qed.

(** X2. Selecting a peer and then releasing what was selected leaves
    every count of the activity map where it was: [decrease] undoes the
    increment of [leastBusyNode], also across the wrap-around of [int] and
    also for the empty selection. *)
Theorem leastBusyNode_decrease_round_trip m availability c :
  (∀ n, - 2 ^ 63 ≤ usage m n < 2 ^ 63) →
  ∀ n, usage (decrease (leastBusyNode m availability c).2
                       (leastBusyNode m availability c).1) n = usage m n.
Proof.
  intros Hrange n. unfold leastBusyNode. cbn [fst snd].
  set (sel := (foldl _ _ _).2). unfold decrease, usage.
  rewrite lookup_insert_eq. cbn [default].
  destruct (decide (sel = n)) as [->|Hne].
  - rewrite lookup_insert_eq. cbn [default]. apply int_decr_incr, Hrange.
  - rewrite !lookup_insert_ne by done. done.
Qed.

(** X3. The bit test shifts a 64-bit one: a peer whose connection id is
    64 or more is never selected, whatever the availability bitmap says. *)
Theorem leastBusyNode_id_bound m availability c n :
  64 ≤ Get c n → n ≠ ""%string → (leastBusyNode m availability c).1 ≠ n.
Proof.
  intros Hid Hn. unfold leastBusyNode. cbn [fst snd].
  destruct (leastBusy_loop m availability c (Z.shiftl 2 30 - 1) ""%string (Names c))
    as [[Hr _]|(l1 & l2 & _ & [_ Hbit] & _)].
  - rewrite Hr. cbn. congruence.
  - intros Heq. rewrite Heq in Hbit. rewrite has_bit_spec in Hbit by lia.
    apply andb_true_iff in Hbit as [Hlt _]. apply Z.ltb_lt in Hlt. lia.
Qed.

End Selection.

(** ** Marking a repository invalid *)

Section Invalidate.
Implicit Types (repos : list RepositoryConfiguration) (id msg : string).

(** X20. [invalidateRepo] with an error marks the first repository with
    the ID and only that one: IDs and directories are unchanged, every
    other repository, a later one with the same ID included, keeps its
    state, and with no such repository the configuration is as it was. *)
Theorem invalidateRepo_marks_first repos id msg :
  ∃ repos', invalidateRepo repos id (Some msg) = Some repos'
    ∧ map ID repos' = map ID repos
    ∧ map Directory repos' = map Directory repos
    ∧ (∀ k r, repos !! k = Some r →
         repos' !! k =
           Some (if bool_decide (ID r = id ∧ id ∉ map ID (take k repos))
                 then mkRepo (ID r) (Directory r) msg else r))
    ∧ (id ∉ map ID repos → repos' = repos).
Proof.
  induction repos as [|repo rest IH]; simpl.
  - exists []. split_and!; try done.
  - case_bool_decide as Hid.
    + eexists. split; [reflexivity|]. split_and!; try done.
      * intros [|k] r; simpl.
        -- intros [= <-]. rewrite bool_decide_eq_true_2; [done|].
           split; [done|]. set_solver.
        -- intros Hk. rewrite Hk. rewrite bool_decide_eq_false_2; [done|].
           intros [_ Hnot]. apply Hnot. set_solver.
      * intros Hnot. exfalso. apply Hnot. set_solver.
    + destruct IH as (repos' & -> & Hids & Hdirs & Hlook & Hsame). simpl.
      eexists. split; [reflexivity|]. simpl. rewrite Hids, Hdirs.
      split_and!; try done.
      * intros [|k] r; simpl.
        -- intros [= <-]. rewrite bool_decide_eq_false_2; [done|]. by intros [? _].
        -- intros Hk. rewrite (Hlook k r Hk).
           erewrite bool_decide_ext; [done|]. set_solver.
      * intros Hnot. f_equal. apply Hsame. set_solver.
Qed.

(** X21. With a nil error [invalidateRepo] panics exactly when a
    repository has the ID (the message of the error is asked for only
    then); otherwise it changes nothing. *)
Theorem invalidateRepo_nil_error repos id :
  (invalidateRepo repos id None = None ↔ id ∈ map ID repos)
  ∧ (id ∉ map ID repos → invalidateRepo repos id None = Some repos).
Proof.
  induction repos as [|repo rest [IH1 IH2]]; simpl.
  - split; [|done]. split; [done|]. set_solver.
  - case_bool_decide as Hid.
    + split; [|set_solver]. split; [intros _|done]. set_solver.
    + split.
      * rewrite fmap_None, IH1. set_solver.
      * intros Hnot. rewrite IH2 by set_solver. done.
Qed.

End Invalidate.

(** ** Fetching a file, from the block item to the destination *)

Section Pull.
Context `{Ext : Externals}.
Implicit Types (p : puller) (b : bqBlock) (f : File) (w : world)
  (t : gmap path inode) (q : path).

Ltac world_facts :=
  cbn [fst snd env openFiles oustandingPerNode IgnorePerms versioner cm
       Availability set_env set_openFiles set_oustandingPerNode
       fs tick oracle local log file_Close note updateLocal] in *.

(** A block that has to be fetched, of a file that is not open yet, on an
    operating system that refuses nothing: the temp file is created empty
    and the request goes out. *)
Lemma handleBlock_requests b p d :
  IsDirectory (Flags (bq_file b)) = false →
  openFiles p !! Name (bq_file b) = None →
  (∀ k, v_fail (oracle (env p) k) = false) →
  bq_copy b = [] → 0 < Size (bq_block b) →
  fs (env p) !! Dir (Name (bq_file b)) = Some d → i_dir d = true →
  Dir (TempName (Name (bq_file b))) = Dir (Name (bq_file b)) →
  fs (env p) !! TempName (Name (bq_file b)) = None →
  (""%string ∉ Names (cm p)) →
  (∃ n, n ∈ Names (cm p)
        ∧ candidate (wrap_u64 (Availability p (Name (bq_file b)))) (cm p) n
        ∧ usage (oustandingPerNode p) n < 2 ^ 31 - 1) →
  ∃ p1 node now,
    handleBlock b p = Done false p1
    ∧ node ∈ Names (cm p)
    ∧ openFiles p1 =
        <[Name (bq_file b) :=
            mkOpenFile (Name (bq_file b)) (TempName (Name (bq_file b)))
              (wrap_u64 (Availability p (Name (bq_file b))))
              (Some (TempName (Name (bq_file b)))) None (int_incr 0) (bq_last b)]>
          (openFiles p)
    ∧ oustandingPerNode p1 =
        <[node := int_incr (usage (oustandingPerNode p) node)]> (oustandingPerNode p)
    ∧ fs (env p1) =
        <[TempName (Name (bq_file b)) := mkInode false 0x1b6 now []]>
          (touch now (Dir (Name (bq_file b))) (fs (env p)))
    ∧ local (env p1) = local (env p)
    ∧ oracle (env p1) = oracle (env p)
    ∧ versioner p1 = versioner p
    ∧ IgnorePerms p1 = IgnorePerms p
    ∧ log (env p1) =
        log (env p) ++
          [(CStat (Dir (Name (bq_file b))), None);
           (CCreate (TempName (Name (bq_file b))), None);
           (CHideFile (TempName (Name (bq_file b))), None);
           (CRequestGlobal node (Name (bq_file b)) (Offset (bq_block b))
              (Size (bq_block b)), None)].
Proof.
  intros Hdir Hentry Hcalm Hcopy Hsize Hparent Hpd Hsib Htmp Hnames Hcand.
  unfold handleBlock. rewrite Hdir. unfold bind at 1, gets at 1. rewrite Hentry.
  change (default zeroOpenFile None) with zeroOpenFile.
  cbn [zeroOpenFile of_filepath of_temp of_availability of_file of_err of_outstanding].
  unfold openNew. step_monad. cbn [of_filepath of_temp]. unfold os_Stat.
  rewrite (ask_ok _ _ _ d); [|apply Hcalm|by (unfold fs_stat; rewrite Hparent)].
  step_monad. unfold os_Create.
  erewrite sys_ok; [|cbn; apply Hcalm|
    cbn; unfold fs_create; rewrite Htmp, Hsib, Hparent, Hpd; reflexivity].
  step_monad. cbn [of_err set_err set_file of_filepath of_temp of_availability
                   of_file of_outstanding of_done].
  rewrite Hcopy. cbn [length Nat.ltb Nat.leb].
  assert (Hgt : (Size (bq_block b) >? 0) = true) by (apply Z.gtb_lt; lia).
  rewrite Hgt.
  match goal with
  | |- context [handleRequestBlock b ?q] =>
      set (p0 := q);
      destruct (handleRequestBlock_dispatch b p0
                  (mkOpenFile (Name (bq_file b)) (TempName (Name (bq_file b)))
                     (wrap_u64 (Availability p (Name (bq_file b))))
                     (Some (TempName (Name (bq_file b)))) None 0 (bq_last b)))
        as (a & p1 & evs & Hrun & Hlog & Hloc & Hact & _ & Hsome)
  end.
  { apply lookup_insert_eq. }
  cbn [of_availability] in *.
  assert (Hm0 : oustandingPerNode p0 = oustandingPerNode p) by done.
  assert (Hcm0 : cm p0 = cm p) by done.
  rewrite Hm0, Hcm0 in *.
  set (r := leastBusyNode (oustandingPerNode p)
              (wrap_u64 (Availability p (Name (bq_file b)))) (cm p)) in *.
  assert (Hsel : r.1 ∈ Names (cm p)).
  { destruct (leastBusy_loop (oustandingPerNode p)
                (wrap_u64 (Availability p (Name (bq_file b)))) (cm p)
                (Z.shiftl 2 30 - 1) ""%string (Names (cm p)))
      as [[_ Hall]|(l1 & l2 & Hl & _)].
    - destruct Hcand as (n & Hn & Hc & Hu). specialize (Hall n Hn Hc).
      change (Z.shiftl 2 30 - 1) with (2 ^ 31 - 1) in Hall. lia.
    - assert (Hin : ∀ (x : string) k1 k2 k, k = k1 ++ x :: k2 → x ∈ k)
        by (intros; subst; set_solver).
      eapply Hin, Hl. }
  assert (Hne : r.1 ≠ ""%string) by (intros Heq; rewrite Heq in Hsel; done).
  destruct (Hsome Hne) as (-> & Hevs & Hfs & Htab).
  eexists p1, r.1, _. split; [exact Hrun|]. split; [done|].
  split; [rewrite Htab; subst p0; cbn; by rewrite insert_insert_eq|].
  split; [by rewrite Hact|]. split; [rewrite Hfs; subst p0; cbn; reflexivity|].
  split; [by rewrite Hloc|].
  assert (Hframe : oracle (env p1) = oracle (env p0) ∧ versioner p1 = versioner p0
                   ∧ IgnorePerms p1 = IgnorePerms p0).
  { clear -Hrun Hne. unfold handleRequestBlock in Hrun. revert Hrun. step_monad.
    destruct (openFiles p0 !! Name (bq_file b)) as [o|]; [|done].
    case_bool_decide.
    - destruct (of_file (set_err (Some errNoNode) o)); step_monad;
        destruct (bq_last b); intros [= ? <-]; done.
    - intros [= <-]. done. }
  destruct Hframe as (Ho & Hv & Hi).
  split; [rewrite Ho; subst p0; cbn; reflexivity|].
  split; [rewrite Hv; reflexivity|]. split; [rewrite Hi; reflexivity|].
  rewrite Hlog, Hevs. subst p0. cbn. rewrite <- !app_assoc. reflexivity.
Qed.


Lemma fetch_installs_run b res p d :
  IsDirectory (Flags (bq_file b)) = false →
  openFiles p !! Name (bq_file b) = None →
  versioner p = None →
  (∀ k, v_fail (oracle (env p) k) = false) →
  bq_copy b = [] → bq_last b = true → 0 < Size (bq_block b) →
  fs (env p) !! Dir (Name (bq_file b)) = Some d → i_dir d = true →
  TempName (Name (bq_file b)) ≠ Name (bq_file b) →
  Dir (TempName (Name (bq_file b))) = Dir (Name (bq_file b)) →
  fs (env p) !! TempName (Name (bq_file b)) = None →
  (∀ j, fs (env p) !! Name (bq_file b) = Some j → i_dir j = false) →
  (""%string ∉ Names (cm p)) →
  (∃ n, n ∈ Names (cm p)
        ∧ candidate (wrap_u64 (Availability p (Name (bq_file b)))) (cm p) n
        ∧ usage (oustandingPerNode p) n < 2 ^ 31 - 1) →
  (∀ n, - 2 ^ 63 ≤ usage (oustandingPerNode p) n < 2 ^ 63) →
  rr_file res = bq_file b →
  rr_offset res = Offset (bq_block b) → 0 ≤ rr_offset res → rr_data res ≠ [] →
  ¬ mismatch (scanner_Blocks (write_at [] (rr_data res) (Z.to_nat (rr_offset res))))
             (Blocks (bq_file b)) →
  ∃ p1 node pre,
    handleBlock b p = Done false p1
    ∧ node ∈ Names (cm p)
    ∧ log (env p1) =
        log (env p) ++ pre ++
          [(CRequestGlobal node (Name (bq_file b)) (Offset (bq_block b))
              (Size (bq_block b)), None)]
    ∧ (rr_node res = node →
       ∃ p2, handleRequestResult res p1 = Done tt p2
         ∧ fs (env p2) !! Name (bq_file b)
           = Some (mkInode false
                     (if negb (IgnorePerms p) && HasPermissionBits (Flags (bq_file b))
                      then Z.land (Flags (bq_file b)) 0x1ff else 0x1b6)
                     (Modified (bq_file b))
                     (write_at [] (rr_data res) (Z.to_nat (rr_offset res))))
         ∧ fs (env p2) !! TempName (Name (bq_file b)) = None
         ∧ local (env p2) = <[Name (bq_file b) := bq_file b]> (local (env p))
         ∧ openFiles p2 = openFiles p
         ∧ ∀ n, usage (oustandingPerNode p2) n = usage (oustandingPerNode p) n).
Proof.
  intros Hdir Hentry Hnov Hcalm Hcopy Hlast Hsize Hparent Hpd Hne Hsib Htmp Hdest
    Hnames Hcand Hrange Hfile Hoff Hpos Hdata Hok.
  destruct (handleBlock_requests b p d)
    as (p1 & node & now & Hrun1 & Hnode & Htab1 & Hact1 & Hfs1 & Hloc1 & Hor1 & Hv1
        & Hip1 & Hlog1); try done.
  set (name := Name (bq_file b)) in *. set (tmp := TempName name) in *.
  exists p1, node, [(CStat (Dir name), None); (CCreate tmp, None); (CHideFile tmp, None)].
  split; [done|]. split; [done|]. split; [by rewrite Hlog1|].
  intros Hfrom.
  assert (Hpt : Dir name ≠ tmp) by (intros Heq; rewrite Heq in Hparent; congruence).
  assert (Hpn : Dir name ≠ name).
  { intros Heq. rewrite Heq in Hparent. specialize (Hdest d Hparent). congruence. }
  unfold handleRequestResult. step_monad. rewrite Hfile. fold name.
  rewrite Htab1, lookup_insert_eq. cbn [of_err of_file]. step_monad.
  unfold file_WriteAt. destruct (rr_data res) as [|x data] eqn:Hd; [done|].
  rewrite <- Hd in *.
  erewrite sys_ok; [|rewrite Hor1; apply Hcalm|
    unfold fs_writeAt; rewrite (proj2 (Z.ltb_ge _ _) Hpos), Hfs1, lookup_insert_eq;
    reflexivity].
  cbn [fst snd of_done of_outstanding of_filepath of_temp of_availability of_file].
  rewrite Hlast. change (int_decr (int_incr 0) =? 0) with true. cbn [andb].
  match goal with
  | |- context [closeFile (bq_file b) ?q] =>
      set (p1' := q);
      destruct (closeFile_installs_run (bq_file b) p1'
                  (mkOpenFile name tmp (wrap_u64 (Availability p name)) (Some tmp)
                     None 0 true)
                  (mkInode false 0x1b6 (v_now (oracle (env p1) (tick (env p1))))
                     (write_at [] (rr_data res) (Z.to_nat (rr_offset res)))))
        as (p2 & Hrun2 & Htab2 & Hloc2 & Hgone2 & Hdst2 & _)
  end.
  - subst p1'. cbn. apply lookup_insert_eq.
  - subst p1'. cbn. by rewrite Hv1.
  - intros k. subst p1'. cbn. rewrite Hor1. apply Hcalm.
  - done.
  - done.
  - subst p1'. cbn. rewrite lookup_insert_eq. reflexivity.
  - done.
  - done.
  - subst p1'. cbn [env set_env set_openFiles set_oustandingPerNode fs of_filepath]. unfold is_dir_at.
    rewrite !lookup_insert_ne by done. unfold touch.
    rewrite lookup_alter_eq, Hparent. done.
  - subst p1'. cbn [env set_env set_openFiles set_oustandingPerNode fs of_filepath]. intros j.
    rewrite !lookup_insert_ne by done. unfold touch.
    rewrite lookup_alter_ne by done. apply Hdest.
  - cbn [of_filepath of_temp i_mode i_data] in Hdst2, Hgone2.
    exists p2. split; [exact Hrun2|].
    split; [rewrite Hdst2; subst p1'; cbn; by rewrite Hip1|].
    split; [done|]. split; [rewrite Hloc2; subst p1'; cbn; by rewrite Hloc1|].
    split.
    + rewrite Htab2. subst p1'. cbn. rewrite Htab1.
      rewrite !delete_insert_eq. by apply delete_id.
    + destruct (closeFile_runs (bq_file b) p1') as (p2' & post & Hrun2' & _ & _ & _ & Hact2).
      rewrite Hrun2 in Hrun2'. injection Hrun2' as <-.
      intros n. rewrite Hact2. subst p1'. cbn. rewrite Hact1, Hfrom.
      unfold decrease, usage. rewrite lookup_insert_eq. cbn [default].
      destruct (decide (node = n)) as [->|Hnn].
      * rewrite lookup_insert_eq. cbn [default]. apply int_decr_incr, Hrange.
      * by rewrite !lookup_insert_ne.
Qed.

(** X22. Fetching a file of one request from start to end, when
    nothing fails.  For the last block item of a file that is not open
    yet, with a block to request and nothing to copy, and with a candidate
    among the connected peers: [handleBlock] creates the temp file, sends
    the request to a connected peer and keeps the slot.  When the result
    of that request comes back with bytes whose blocks match the file,
    [handleRequestResult] writes them and finalizes: the destination is a
    regular file with those bytes; it has the permission bits of the file
    unless permissions are ignored or the flags carry none (its mode is
    then the one the temp file was created with, which is not said), and
    the modification time of the file when that is a second that
    [os.Chtimes] hands on unchanged.  The temp file is gone, the model
    lists the file, the open-file table is as it was before the block
    item, and so is every peer's count. *)
Theorem fetch_installs b res p d :
  IsDirectory (Flags (bq_file b)) = false →
  openFiles p !! Name (bq_file b) = None →
  versioner p = None →
  (∀ k, v_fail (oracle (env p) k) = false) →
  bq_copy b = [] → bq_last b = true → 0 < Size (bq_block b) →
  fs (env p) !! Dir (Name (bq_file b)) = Some d → i_dir d = true →
  TempName (Name (bq_file b)) ≠ Name (bq_file b) →
  Dir (TempName (Name (bq_file b))) = Dir (Name (bq_file b)) →
  fs (env p) !! TempName (Name (bq_file b)) = None →
  (∀ j, fs (env p) !! Name (bq_file b) = Some j → i_dir j = false) →
  (""%string ∉ Names (cm p)) →
  (∃ n, n ∈ Names (cm p)
        ∧ candidate (wrap_u64 (Availability p (Name (bq_file b)))) (cm p) n
        ∧ usage (oustandingPerNode p) n < 2 ^ 31 - 1) →
  (∀ n, - 2 ^ 63 ≤ usage (oustandingPerNode p) n < 2 ^ 63) →
  rr_file res = bq_file b →
  rr_offset res = Offset (bq_block b) → 0 ≤ rr_offset res → rr_data res ≠ [] →
  ¬ mismatch (scanner_Blocks (write_at [] (rr_data res) (Z.to_nat (rr_offset res))))
             (Blocks (bq_file b)) →
  ∃ p1 node pre,
    handleBlock b p = Done false p1
    ∧ node ∈ Names (cm p)
    ∧ log (env p1) =
        log (env p) ++ pre ++
          [(CRequestGlobal node (Name (bq_file b)) (Offset (bq_block b))
              (Size (bq_block b)), None)]
    ∧ (rr_node res = node →
       ∃ p2 i, handleRequestResult res p1 = Done tt p2
         ∧ fs (env p2) !! Name (bq_file b) = Some i
         ∧ i_dir i = false
         ∧ i_data i = write_at [] (rr_data res) (Z.to_nat (rr_offset res))
         ∧ (IgnorePerms p = false → HasPermissionBits (Flags (bq_file b)) = true →
            i_mode i = Z.land (Flags (bq_file b)) 0x1ff)
         ∧ (chtimes_exact (Modified (bq_file b)) → i_mtime i = Modified (bq_file b))
         ∧ fs (env p2) !! TempName (Name (bq_file b)) = None
         ∧ local (env p2) = <[Name (bq_file b) := bq_file b]> (local (env p))
         ∧ openFiles p2 = openFiles p
         ∧ ∀ n, usage (oustandingPerNode p2) n = usage (oustandingPerNode p) n).
Proof.
  intros Hdir Hentry Hnov Hcalm Hcopy Hlast Hsize Hparent Hpd Hne Hsib Htmp Hdest
    Hnames Hcand Hrange Hfile Hoff Hpos Hdata Hok.
  destruct (fetch_installs_run b res p d)
    as (p1 & node & pre & Hrun & Hnode & Hlog & Hrest); try done.
  exists p1, node, pre. split; [done|]. split; [done|]. split; [done|].
  intros Hfrom.
  destruct (Hrest Hfrom) as (p2 & Hrun2 & Hdst & Hgone & Hloc & Htab & Hact).
  eexists p2, _. split; [exact Hrun2|]. split; [exact Hdst|].
  cbn [i_dir i_data i_mode i_mtime]. split_and!; try done.
  intros -> ->. reflexivity.
Qed.

End Pull.

(** * Scenarios

    The handlers run on concrete pullers, with the concrete instance of
    what the puller imports. *)

Section Scenarios.
#[local] Existing Instance demo_ext.

(** C1. No connected peer has the block (the bitmap is empty): the
    selection is empty, and yet the activity map has changed: the empty
    name, which is no peer, now counts one request. *)
Theorem leastBusyNode_empty_selection_counts :
  leastBusyNode {[ "nodeA"%string := 0 ]} 0 demo_cm
  = (""%string, <[""%string := 1]> {[ "nodeA"%string := 0 ]}).
Proof. vm_compute. reflexivity. Qed.

(** C2. A result that carries a transport error, for a file that is open
    without a sticky error: the error is not looked at.  The entry still
    has no sticky error afterwards, only one request less outstanding, and
    the next block item of the file is dispatched like any other (here: a
    request goes out) instead of being short-circuited. *)
Theorem handleRequestResult_drops_transport_error :
  ∃ p' p'',
    handleRequestResult failedResultA (pullerA calm [] None 2 false) = Done tt p'
    ∧ openFiles p' !! ["a.bin"%string] = Some (openA None 1 false)
    ∧ handleBlock lastBlockA p' = Done false p''
    ∧ log (env p'') = [(CRequestGlobal "nodeA" ["a.bin"%string] 4 4, None)].
Proof.
  eexists _, _. split; [vm_compute; reflexivity|].
  split; [vm_compute; reflexivity|].
  split; vm_compute; reflexivity.
Qed.

(** C4. Setting the modification time fails in [closeFile] (the third
    call is refused) and the finalization is not aborted: the temp file is
    renamed over the destination and [updateLocal] is called all the same,
    so the model lists the file with its modification time while the file
    that was installed still has the time of the temp file.  The same
    happens when setting the mode fails (the fourth call is refused).
    [handleEmptyBlock], which finalizes a file without blocks with the same
    calls, stops at the failure: after the refused [Chtimes] it makes no
    call at all. *)
Theorem closeFile_chtimes_failure_renames :
  (∃ p' i, closeFile fileA (pullerA (failing_at 2) (bytesA ++ bytesB) None 0 true)
           = Done tt p'
     ∧ (CChtimes tempA 777, Some EIO) ∈ log (env p')
     ∧ (CRename tempA ["a.bin"%string], None) ∈ log (env p')
     ∧ (CUpdateLocal fileA, None) ∈ log (env p')
     ∧ local (env p') !! ["a.bin"%string] = Some fileA
     ∧ fs (env p') !! ["a.bin"%string] = Some i
     ∧ i_mtime i = 950 ∧ Modified fileA = 777)
  ∧ (∃ p', closeFile fileA (pullerA (failing_at 3) (bytesA ++ bytesB) None 0 true)
           = Done tt p'
     ∧ (CChmod tempA 0x1a4, Some EIO) ∈ log (env p')
     ∧ (CRename tempA ["a.bin"%string], None) ∈ log (env p')
     ∧ (CUpdateLocal fileA, None) ∈ log (env p'))
  ∧ (∃ p', handleEmptyBlock emptyBlockA (pullerA (failing_at 0) [] None 0 true)
           = Done tt p'
     ∧ log (env p') = [(CClose (Some tempA), None); (CChtimes tempA 777, Some EIO)]
     ∧ fs (env p') !! ["a.bin"%string] = None
     ∧ local (env p') !! ["a.bin"%string] = None).
Proof.
  split; [|split].
  - eexists _, _. split; [vm_compute; reflexivity|].
    split_and!; try (vm_compute; reflexivity); vm_compute;
      solve [repeat first [apply list_elem_of_here | apply list_elem_of_further]].
  - eexists. split; [vm_compute; reflexivity|].
    split_and!; vm_compute;
      solve [repeat first [apply list_elem_of_here | apply list_elem_of_further]].
  - eexists. split; [vm_compute; reflexivity|].
    split_and!; vm_compute; reflexivity.
Qed.

Lemma closeFile_abort_witness :
  ∃ p' evs, closeFile fileA (pullerA (failing_at 0) (bytesA ++ bytesB) None 0 true)
            = Done tt p'
    ∧ log (env p') = evs
    ∧ ((COpen tempA, Some EIO) ∈ evs → ∀ g r, (CUpdateLocal g, r) ∉ evs).
Proof.
  destruct (closeFile_abort fileA
              (pullerA (failing_at 0) (bytesA ++ bytesB) None 0 true))
    as (p' & evs & Hrun & Hlog & Habort & _).
  exists p', evs. split; [exact Hrun|]. split; [exact Hlog|].
  intros Hin. apply Habort. left. exists EIO. exact Hin.
Defined.

Lemma closeFile_hash_mismatch_witness :
  ∃ p' (r : option error),
    closeFile fileA (pullerA calm (bytesA ++ bytesX) None 0 true) = Done tt p'
    ∧ local (env p') = ∅
    ∧ fs (env p') !! ["a.bin"%string] = None
    ∧ (r = None → fs (env p') !! tempA = None).
Proof.
  destruct (closeFile_hash_mismatch fileA
              (pullerA calm (bytesA ++ bytesX) None 0 true)
              (openA None 0 true) (mkInode false 0x1b6 950 (bytesA ++ bytesX)))
    as (p' & r & Hrun & _ & Hloc & _ & Hother & Hgone & _).
  - vm_compute; reflexivity.
  - vm_compute; reflexivity.
  - reflexivity.
  - reflexivity.
  - reflexivity.
  - apply verify_spec. vm_compute; reflexivity.
  - exists p', r. split; [exact Hrun|]. split; [exact Hloc|].
    split; [|exact Hgone].
    rewrite (Hother ["a.bin"%string]); [vm_compute; reflexivity|discriminate..].
Defined.

Lemma closeFile_once_witness :
  ∃ p' (pre post : list event) (fin : bool),
    handleRequestResult (mkResult "nodeA" fileA ["a.bin"%string] 4 bytesB None)
      (pullerA calm bytesA None 1 true) = Done tt p'
    ∧ log (env p') = pre ++ (if fin then (CCloseFile ["a.bin"%string], None) :: post
                             else [])
    ∧ (fin = true → openFiles p' !! ["a.bin"%string] = None).
Proof.
  destruct (closeFile_once (mkResult "nodeA" fileA ["a.bin"%string] 4 bytesB None)
              (pullerA calm bytesA None 1 true))
    as (p' & pre & post & fin & Hrun & Hlog & _ & _ & _ & Hgone & _).
  exists p', pre, post, fin. split; [exact Hrun|]. split; [exact Hlog|]. exact Hgone.
Defined.

Lemma fixupDirectories_missing_root_witness :
  fixupDirectories 1 pullerE
  = Panic "invalid memory address or nil pointer dereference"
  ∧ ∀ n p', fixupDirectories n pullerE ≠ Done true p'.
Proof.
  apply (fixupDirectories_missing_root pullerE 0). vm_compute. reflexivity.
Defined.

Lemma fixupDirectories_terminates_witness :
  is_Some (fs (env pullerD) !! [])
  ∧ ∃ n p', (n ≤ 20)%nat
      ∧ ∀ fuel, (n < fuel)%nat → fixupDirectories fuel pullerD = Done true p'.
Proof.
  assert (Hroot : is_Some (fs (env pullerD) !! []))
    by (exists root_dir; vm_compute; reflexivity).
  split; [exact Hroot|].
  destruct (fixupDirectories_terminates pullerD Hroot)
    as (n & p_last & counts & p' & Hn & _ & _ & _ & Hfuel & _).
  exists n, p'. split; [exact Hn|exact Hfuel].
Defined.

Lemma handleBlock_sticky_error_witness :
  ∃ p', handleBlock lastBlockA (pullerA calm [] (Some EIO) 0 false) = Done true p'
    ∧ env p' = env (pullerA calm [] (Some EIO) 0 false)
    ∧ openFiles p' !! ["a.bin"%string] = None.
Proof.
  destruct (handleBlock_sticky_error lastBlockA (pullerA calm [] (Some EIO) 0 false)
              (openA (Some EIO) 0 false) EIO)
    as (p' & Hrun & Henv & _ & _ & Hgone).
  - vm_compute; reflexivity.
  - vm_compute; reflexivity.
  - reflexivity.
  - exists p'. split; [exact Hrun|]. split; [exact Henv|]. apply Hgone. reflexivity.
Defined.

Lemma handleBlock_directory_witness :
  ∃ p' evs, handleBlock dirBlock pullerD = Done true p'
    ∧ log (env p') = evs ++ [(CUpdateLocal (bq_file dirBlock), None)]
    ∧ ∃ r, evs = [(CStat ["newdir"%string], Some ENOENT);
                  (CMkdirAll ["newdir"%string] 0x1ff, r)].
Proof.
  destruct (handleBlock_directory dirBlock pullerD)
    as (p' & evs & Hrun & Hlog & _ & _ & _ & _ & _ & Hmk).
  - vm_compute; reflexivity.
  - exists p', evs. split; [exact Hrun|]. split; [exact Hlog|].
    destruct Hmk as [_ Hmk]; [vm_compute; reflexivity|].
    destruct Hmk as (r & Hevs & _); [vm_compute; reflexivity..|].
    exists r. exact Hevs.
Defined.

Lemma handleRequestResult_decrements_witness :
  ∃ p', handleRequestResult failedResultA (pullerA calm [] None 2 false) = Done tt p'
    ∧ oustandingPerNode p' !! "nodeA"%string = Some 0.
Proof.
  destruct (handleRequestResult_decrements failedResultA (pullerA calm [] None 2 false))
    as (p' & Hrun & _ & Hdec & _).
  exists p'. split; [exact Hrun|]. apply Hdec. vm_compute. split; reflexivity.
Defined.

Lemma handleEmptyBlock_delete_absent_witness :
  ∃ p' evs, handleEmptyBlock tombstoneA (pullerA calm [] None 0 true) = Done tt p'
    ∧ log (env p') =
        evs ++ [(CRemove ["a.bin"%string], Some ENOENT);
                (CUpdateLocal (bq_file tombstoneA), None)].
Proof.
  destruct (handleEmptyBlock_delete_absent tombstoneA (pullerA calm [] None 0 true))
    as (p' & evs & r & Hrun & Hlog & _ & _ & Habsent).
  - vm_compute; reflexivity.
  - reflexivity.
  - assert (r = Some ENOENT) as -> by (apply Habsent; vm_compute; reflexivity).
    exists p', evs. split; [exact Hrun|]. exact Hlog.
Defined.

Lemma leastBusyNode_decrease_round_trip_witness :
  (∀ n, - 2 ^ 63 ≤ usage (∅ : gmap string Z) n < 2 ^ 63)
  ∧ usage (decrease (leastBusyNode ∅ 6 demo_cm).2 (leastBusyNode ∅ 6 demo_cm).1)
      "nodeA"%string = 0.
Proof.
  assert (Hrange : ∀ n, - 2 ^ 63 ≤ usage (∅ : gmap string Z) n < 2 ^ 63).
  { intros n. unfold usage. rewrite lookup_empty. simpl. lia. }
  split; [exact Hrange|].
  rewrite (leastBusyNode_decrease_round_trip ∅ 6 demo_cm Hrange). reflexivity.
Defined.

Lemma leastBusyNode_id_bound_witness :
  (leastBusyNode ∅ (2 ^ 64 - 1) far_cm).1 ≠ "far"%string.
Proof.
  apply (leastBusyNode_id_bound ∅ (2 ^ 64 - 1) far_cm "far"%string).
  - simpl. lia.
  - discriminate.
Defined.

Lemma handleRequestBlock_no_source_witness :
  ∃ p' (r : option error), handleRequestBlock lastBlockA pullerN = Done true p'
    ∧ log (env p') = [(CClose (Some tempA), None); (CRemove tempA, r)]
    ∧ openFiles p' = ∅.
Proof.
  destruct (handleRequestBlock_no_source lastBlockA pullerN openN)
    as (p' & r & Hrun & Hlog & Htab & _).
  - vm_compute; reflexivity.
  - intros n _ [_ Hbit]. unfold has_bit in Hbit. simpl in Hbit. discriminate.
  - exists p', r. split; [exact Hrun|]. split; [exact Hlog|].
    rewrite Htab. vm_compute. reflexivity.
Defined.

Lemma handleBlock_opens_witness :
  ∃ a p' (r : option error) rest, handleBlock newFileBlock pullerD = Done a p'
    ∧ log (env p') =
        (CStat [], None) :: (CCreate [".syncthing.new.bin"%string], r) :: rest.
Proof.
  destruct (handleBlock_opens newFileBlock pullerD)
    as (a & p' & pre & r & rest & Hrun & Hlog & Hpre & _).
  - vm_compute; reflexivity.
  - vm_compute; reflexivity.
  - exists a, p', r, rest. split; [exact Hrun|].
    destruct Hpre as [->|(e & r' & ->)].
    + exact Hlog.
    + exfalso. revert Hrun Hlog. vm_compute. intros [= <- <-]. discriminate.
Defined.

Lemma handleCopyBlock_copies_witness :
  ∃ p', handleCopyBlock copyBlockA pullerC = Done tt p'
    ∧ ∀ o', openFiles p' !! ["a.bin"%string] = Some o' → of_err o' = None →
        ∃ bs, fs_readAt ["a.bin"%string] 4 4 treeC = inr bs
              ∧ fs_readAt tempA 4 4 (fs (env p')) = inr bs.
Proof.
  destruct (handleCopyBlock_copies copyBlockA pullerC (openA None 0 false))
    as (p' & Hrun & Hcopied).
  - vm_compute; reflexivity.
  - reflexivity.
  - discriminate.
  - exists p'. split; [exact Hrun|]. intros o' Ho' Herr.
    destruct (Hcopied o' Ho' Herr) as (_ & _ & Hall).
    apply (Hall (mkBlock 4 4 bytesB)).
    + apply list_elem_of_further, list_elem_of_here.
    + simpl. lia.
Defined.

Lemma handleRequestResult_writes_witness :
  ∃ p', handleRequestResult (mkResult "nodeA" fileA ["a.bin"%string] 0 bytesA None)
          (pullerA calm [] None 2 false) = Done tt p'
    ∧ ∀ o', openFiles p' !! ["a.bin"%string] = Some o' → of_err o' = None →
        fs_readAt tempA 4 0 (fs (env p')) = inr bytesA.
Proof.
  destruct (handleRequestResult_writes
              (mkResult "nodeA" fileA ["a.bin"%string] 0 bytesA None)
              (pullerA calm [] None 2 false) (openA None 2 false) tempA)
    as (p' & Hrun & Hwritten).
  - vm_compute; reflexivity.
  - reflexivity.
  - reflexivity.
  - discriminate.
  - exists p'. split; [exact Hrun|]. intros o' Ho' Herr.
    destruct (Hwritten o' Ho') as (_ & _ & Hread). exact (Hread Herr).
Defined.

Lemma closeFile_updates_verified_witness :
  ∃ p' evs, closeFile fileA (pullerA calm (bytesA ++ bytesB) None 0 true) = Done tt p'
    ∧ log (env p') = evs
    ∧ ((CUpdateLocal fileA, None) ∈ evs →
       ∃ i, fs (env p') !! ["a.bin"%string] = Some i ∧ i_dir i = false).
Proof.
  destruct (closeFile_updates_verified fileA
              (pullerA calm (bytesA ++ bytesB) None 0 true) (openA None 0 true))
    as (p' & evs & Hrun & Hlog & _ & Hsafe).
  - vm_compute; reflexivity.
  - reflexivity.
  - discriminate.
  - discriminate.
  - exists p', evs. split; [exact Hrun|]. split; [exact Hlog|]. intros Hin.
    destruct (Hsafe Hin) as (_ & _ & i & Hi & Hdir & _). exists i. split; assumption.
Defined.

Lemma closeFile_installs_witness :
  ∃ p' i, closeFile fileA (pullerA calm (bytesA ++ bytesB) None 0 true) = Done tt p'
    ∧ fs (env p') !! tempA = None
    ∧ fs (env p') !! ["a.bin"%string] = Some i
    ∧ i_data i = bytesA ++ bytesB ∧ i_mode i = 0x1a4 ∧ i_mtime i = 777
    ∧ local (env p') !! ["a.bin"%string] = Some fileA.
Proof.
  destruct (closeFile_installs fileA (pullerA calm (bytesA ++ bytesB) None 0 true)
              (openA None 0 true) (mkInode false 0x1b6 950 (bytesA ++ bytesB)))
    as (p' & Hrun & _ & Hloc & Hgone & (i & Hdst & _ & Hdata & Hmode & Htime) & _).
  - vm_compute; reflexivity.
  - reflexivity.
  - intros k. reflexivity.
  - discriminate.
  - reflexivity.
  - vm_compute; reflexivity.
  - reflexivity.
  - rewrite <- verify_spec. vm_compute. discriminate.
  - vm_compute; reflexivity.
  - intros j. vm_compute. discriminate.
  - exists p', i. split; [exact Hrun|]. split; [exact Hgone|]. split; [exact Hdst|].
    split; [exact Hdata|]. split; [exact Hmode|].
    split; [apply Htime; vm_compute; reflexivity|].
    rewrite Hloc. vm_compute. reflexivity.
Defined.

Lemma handleEmptyBlock_metadata_aborts_witness :
  ∃ p' evs, handleEmptyBlock emptyBlockA (pullerA (failing_at 0) [] None 0 true)
            = Done tt p'
    ∧ log (env p') = evs
    ∧ ((CChtimes tempA 777, Some EIO) ∈ evs → ∀ g r, (CUpdateLocal g, r) ∉ evs).
Proof.
  destruct (handleEmptyBlock_metadata_aborts emptyBlockA
              (pullerA (failing_at 0) [] None 0 true))
    as (p' & evs & Hrun & Hlog & Habort & _).
  - vm_compute; reflexivity.
  - exists p', evs. split; [exact Hrun|]. split; [exact Hlog|].
    intros Hin. exact (proj2 (Habort EIO Hin)).
Defined.

Lemma handleEmptyBlock_delete_versioned_witness :
  ∃ p' pre (r1 r2 r3 : option error), handleEmptyBlock tombstoneA pullerV = Done tt p'
    ∧ log (env p') =
        pre ++ [(CRemove tempA, r1); (CChmod ["a.bin"%string] 0x1b6, r2);
                (CArchive ["a.bin"%string], r3)]
          ++ (if r3 is None then [(CUpdateLocal (bq_file tombstoneA), None)] else []).
Proof.
  destruct (handleEmptyBlock_delete_versioned tombstoneA pullerV demo_versioner)
    as (p' & pre & r1 & r2 & r3 & Hrun & Hlog & _).
  - vm_compute; reflexivity.
  - reflexivity.
  - exists p', pre, r1, r2, r3. split; [exact Hrun|exact Hlog].
Defined.

Lemma handlers_keep_table_witness :
  table_ok pullerD
  ∧ ∃ a p', handleBlock newFileBlock pullerD = Done a p' ∧ table_ok p'.
Proof.
  assert (Hok : table_ok pullerD).
  { intros name o Hin. vm_compute in Hin. discriminate. }
  split; [exact Hok|]. exact (proj1 (handlers_keep_table pullerD Hok) newFileBlock).
Defined.




Lemma fetch_installs_witness :
  ∃ p1 node, handleBlock newFileBlock pullerD = Done false p1
    ∧ ("nodeA"%string = node →
       ∃ p2 i, handleRequestResult newFileResult p1 = Done tt p2
         ∧ fs (env p2) !! ["new.bin"%string] = Some i
         ∧ i_data i = bytesA ∧ i_mode i = 0x1a4 ∧ i_mtime i = 777
         ∧ openFiles p2 = ∅).
Proof.
  destruct (fetch_installs newFileBlock newFileResult pullerD root_dir)
    as (p1 & node & pre & Hrun & _ & _ & Hrest).
  - vm_compute; reflexivity.
  - vm_compute; reflexivity.
  - reflexivity.
  - intros k. reflexivity.
  - reflexivity.
  - reflexivity.
  - simpl. lia.
  - vm_compute; reflexivity.
  - reflexivity.
  - intros Heq. vm_compute in Heq. discriminate Heq.
  - vm_compute; reflexivity.
  - vm_compute; reflexivity.
  - intros j Hj. vm_compute in Hj. discriminate Hj.
  - intros Hin. apply list_elem_of_In in Hin. simpl in Hin.
    destruct Hin as [Hin|[Hin|[Hin|[]]]]; discriminate Hin.
  - exists "nodeA"%string. split; [|split].
    + apply list_elem_of_further, list_elem_of_here.
    + split; [vm_compute; discriminate|vm_compute; reflexivity].
    + vm_compute. reflexivity.
  - intros n. unfold usage. simpl. rewrite lookup_empty. simpl. lia.
  - reflexivity.
  - reflexivity.
  - simpl. lia.
  - discriminate.
  - rewrite <- verify_spec. vm_compute. discriminate.
  - exists p1, node. split; [exact Hrun|]. intros Hnode.
    destruct (Hrest Hnode)
      as (p2 & i & Hrun2 & Hdst & _ & Hdata & Hmode & Htime & _ & _ & Htab & _).
    exists p2, i. split; [exact Hrun2|]. split; [exact Hdst|].
    split; [exact Hdata|].
    split; [apply Hmode; vm_compute; reflexivity|].
    split; [apply Htime; vm_compute; reflexivity|exact Htab].
Defined.

End Scenarios.
